(** * KnowPilot front end: outline editor, position manager and streaming generator

    A shallow embedding of the JavaScript under [src/front_end_re] and of
    [article_utils.js], and the properties of the specification that concern
    them.

    Conventions of the embedding.
    - A JavaScript string is the list of its UTF-16 code units.
    - A counter or an index is the integer that the number holds. Its text
      is written the way Number::toString writes it, in exponent form from
      1e21 on, and [parseInt] reads the number nearest to the digits.
    - [undefined] and [NaN] are kept apart from numbers wherever the source
      can produce them.
    - Code that only changes the presentation (styles, scrolling, console
      output) is left out; calls to user-interface procedures whose body is
      not needed are recorded in an event log. *)

From Stdlib Require Import List NArith ZArith Lia Bool String Ascii.
From Stdlib Require Import Sorted Permutation.
From Stdlib Require Decimal DecimalPos DecimalN.
Import ListNotations.

Set Implicit Arguments.

(* ================================================================== *)
(** * JavaScript strings and the built-ins used by the sources         *)
(* ================================================================== *)

Module Js.

Definition char16 := N.
Definition jsstring := list char16.

(** An ASCII literal of the source. *)
Definition lit (s : string) : jsstring :=
  map N_of_ascii (list_ascii_of_string s).

Definition char_eqb (a b : char16) : bool := N.eqb a b.

Fixpoint str_eqb (a b : jsstring) : bool :=
  match a, b with
  | [], [] => true
  | x :: a', y :: b' => char_eqb x y && str_eqb a' b'
  | _, _ => false
  end.

(** ECMAScript LineTerminator: LF, CR, LS, PS. *)
Definition is_line_terminator (c : char16) : bool :=
  (c =? 10)%N || (c =? 13)%N || (c =? 8232)%N || (c =? 8233)%N.

(** The class [\s] of a regular expression, which is also what
    [String.prototype.trim] strips: WhiteSpace and LineTerminator. *)
Definition is_white_space (c : char16) : bool :=
  (c =? 9)%N || (c =? 11)%N || (c =? 12)%N || (c =? 32)%N || (c =? 160)%N
  || (c =? 5760)%N || ((8192 <=? c)%N && (c <=? 8202)%N)
  || (c =? 8239)%N || (c =? 8287)%N || (c =? 12288)%N || (c =? 65279)%N
  || is_line_terminator c.

Definition hash : char16 := 35%N.
Definition newline : char16 := 10%N.
Definition is_hash (c : char16) : bool := (c =? hash)%N.

(** Length of the longest prefix whose characters satisfy [p]. *)
Fixpoint count_prefix (p : char16 -> bool) (s : jsstring) : nat :=
  match s with
  | c :: s' => if p c then S (count_prefix p s') else 0
  | [] => 0
  end.

Fixpoint drop_while (p : char16 -> bool) (s : jsstring) : jsstring :=
  match s with
  | c :: s' => if p c then drop_while p s' else s
  | [] => []
  end.

(** [s.trim()] *)
Definition trim (s : jsstring) : jsstring :=
  rev (drop_while is_white_space (rev (drop_while is_white_space s))).

(** Truthiness of a string: it is not empty. *)
Definition truthy (s : jsstring) : bool :=
  match s with [] => false | _ :: _ => true end.

(** [s.startsWith(p)] *)
Fixpoint startsWith (p s : jsstring) : bool :=
  match p, s with
  | [], _ => true
  | a :: p', b :: s' => char_eqb a b && startsWith p' s'
  | _ :: _, [] => false
  end.

(** [s.substring(n)] for [n] within the string. *)
Definition substring (n : nat) (s : jsstring) : jsstring := skipn n s.

(** [s.split('\n')]: the pieces between line feeds; never empty. *)
Fixpoint split_acc (cur : jsstring) (s : jsstring) : list jsstring :=
  match s with
  | [] => [rev cur]
  | c :: s' =>
      if (c =? newline)%N then rev cur :: split_acc [] s'
      else split_acc (c :: cur) s'
  end.

Definition split_nl (s : jsstring) : list jsstring := split_acc [] s.

(** [lines.join('\n')] *)
Fixpoint join_nl (ls : list jsstring) : jsstring :=
  match ls with
  | [] => []
  | [l] => l
  | l :: rest => l ++ newline :: join_nl rest
  end.

(** ['#'.repeat(n)] *)
Definition hashes (n : nat) : jsstring := repeat hash n.

(** [s.replace(pat, rep)] with a string pattern: the first occurrence
    only. *)
Fixpoint replace_first (pat rep s : jsstring) : jsstring :=
  if startsWith pat s then rep ++ skipn (List.length pat) s
  else match s with
       | [] => []
       | c :: s' => c :: replace_first pat rep s'
       end.

(** The decimal digits of a non-negative integer. *)
Fixpoint uint_chars (d : Decimal.uint) : jsstring :=
  match d with
  | Decimal.Nil => []
  | Decimal.D0 d => 48%N :: uint_chars d
  | Decimal.D1 d => 49%N :: uint_chars d
  | Decimal.D2 d => 50%N :: uint_chars d
  | Decimal.D3 d => 51%N :: uint_chars d
  | Decimal.D4 d => 52%N :: uint_chars d
  | Decimal.D5 d => 53%N :: uint_chars d
  | Decimal.D6 d => 54%N :: uint_chars d
  | Decimal.D7 d => 55%N :: uint_chars d
  | Decimal.D8 d => 56%N :: uint_chars d
  | Decimal.D9 d => 57%N :: uint_chars d
  end.

Definition decimal_text (n : N) : jsstring := uint_chars (N.to_uint n).

Definition minus_sign : char16 := 45%N.
Definition plus_sign : char16 := 43%N.
Definition full_stop : char16 := 46%N.

(** ** An integer number as text: [String(n)], template literals, [+]

    A number holds every integer up to 2^53. A greater integer [x] that is
    a number is [m * 2^e] with [2^52 <= m < 2^53]. Number::toString writes
    the decimal integer with the fewest significant digits among those that
    round to [x], the closest to [x] if there are several; a text of more
    than 21 digits is written in exponent form. *)

(** The gap between [x] and the next number above it. *)
Definition ulp (x : Z) : Z := (2 ^ (Z.log2 x - 52))%Z.


(** Whether the integer [c] rounds to the number [x], for [x] above 2^53:
    [c] lies within half a gap of [x], the bounds included when the
    significand of [x] is even; below a power of two the gap is half as
    wide. Distances are doubled. *)
Definition rounds_to (x c : Z) : bool :=
  let u := ulp x in
  let below := if (x =? 2 ^ Z.log2 x)%Z then (u / 2)%Z else u in
  let lo := (2 * x - below)%Z in
  let hi := (2 * x + u)%Z in
  if Z.even (x / u)
  then ((lo <=? 2 * c) && (2 * c <=? hi))%Z
  else ((lo <? 2 * c) && (2 * c <? hi))%Z.

(** The number nearest to a non-negative integer, which is what reading
    its digits gives: the integer itself up to 2^53; beyond, the nearest
    multiple of the gap, a tie going to the even significand. (Past the
    greatest number the reading is [Infinity], which compares with a number
    as the integer does.) *)
Definition nearest_number (x : Z) : Z :=
  if (x <=? 2 ^ 53)%Z then x
  else
    let u := ulp x in
    let m := (x / u)%Z in
    let r := (x mod u)%Z in
    if (2 * r <? u)%Z then (m * u)%Z
    else if (u <? 2 * r)%Z then ((m + 1) * u)%Z
    else if Z.even m then (m * u)%Z else ((m + 1) * u)%Z.

(** The search for the decimal integer that is written: the multiples of
    [10^j] next to [x], for [j] from the greatest down. *)
Fixpoint shortest_from (j : nat) (x : Z) : Z :=
  match j with
  | 0 => x
  | S j' =>
      let p := (10 ^ Z.of_nat j)%Z in
      let down := (x / p * p)%Z in
      let up := (down + p)%Z in
      match rounds_to x down, rounds_to x up with
      | true, true =>
          if (x - down <? up - x)%Z then down
          else if (up - x <? x - down)%Z then up
          else if Z.even (down / p) then down else up
      | true, false => down
      | false, true => up
      | false, false => shortest_from j' x
      end
  end.

(** The integer whose digits are written for the number [x]. *)
Definition written (x : Z) : Z :=
  if (x <=? 2 ^ 53)%Z then x
  else shortest_from (S (Z.to_nat (Z.log2 x))) x.

(** The exponent form of a run of digits: the first digit, the others up
    to the last that is not 0 after a full stop, and the count of the
    others as exponent. *)
Definition exponent_form (ds : jsstring) : jsstring :=
  match ds with
  | [] => []
  | d :: others =>
      let fraction :=
        List.rev (drop_while (fun c => (c =? 48)%N) (List.rev others)) in
      d :: (if truthy fraction then full_stop :: fraction else [])
        ++ [101%N; plus_sign] ++ decimal_text (N.of_nat (List.length others))
  end.

(** [String(n)] for a number [n] that is a non-negative integer. *)
Definition N_to_string (n : N) : jsstring :=
  let c := written (Z.of_N n) in
  if (c <? 10 ^ 21)%Z then decimal_text (Z.to_N c)
  else exponent_form (decimal_text (Z.to_N c)).

(** [String(z)] for a number [z] that is an integer. *)
Definition Z_to_string (z : Z) : jsstring :=
  match z with
  | Z0 => N_to_string 0
  | Zpos p => N_to_string (Npos p)
  | Zneg p => minus_sign :: N_to_string (Npos p)
  end.

(** Value of a character as a digit in a radix up to 36. *)
Definition digit_value (c : char16) : option N :=
  if ((48 <=? c) && (c <=? 57))%N then Some (c - 48)%N
  else if ((97 <=? c) && (c <=? 122))%N then Some (c - 87)%N
  else if ((65 <=? c) && (c <=? 90))%N then Some (c - 55)%N
  else None.

(** The longest run of digits of the radix, read left to right; [seen]
    tells whether a digit was read. *)
Fixpoint parse_digits (radix : N) (acc : N) (seen : bool) (s : jsstring)
  : option N :=
  match s with
  | c :: s' =>
      match digit_value c with
      | Some d =>
          if (d <? radix)%N then parse_digits radix (radix * acc + d) true s'
          else if seen then Some acc else None
      | None => if seen then Some acc else None
      end
  | [] => if seen then Some acc else None
  end.

(** [parseInt(s)] without a radix; [None] is [NaN]. Leading white space is
    skipped, a sign is read, a [0x] prefix selects radix 16, and the
    result is the number nearest to the integer read. *)
Definition parseInt (s : jsstring) : option Z :=
  let s1 := drop_while is_white_space s in
  let '(neg, s2) :=
    match s1 with
    | c :: r => if (c =? minus_sign)%N then (true, r)
                else if (c =? plus_sign)%N then (false, r)
                else (false, s1)
    | [] => (false, s1)
    end in
  let '(radix, s3) :=
    match s2 with
    | a :: b :: r =>
        if ((a =? 48) && ((b =? 120) || (b =? 88)))%N then (16%N, r)
        else (10%N, s2)
    | _ => (10%N, s2)
    end in
  match parse_digits radix 0 false s3 with
  | Some n =>
      let v := nearest_number (Z.of_N n) in
      Some (if neg then (- v)%Z else v)
  | None => None
  end.

End Js.

Import Js.

(* ================================================================== *)
(** * Control structures and arrays of numbers                         *)
(* ================================================================== *)

(** [for (let i = lo; i < hi; i++) body], for a body that leaves [hi]
    unchanged. *)
Fixpoint for_up {St : Type} (count i : nat) (body : nat -> St -> St) (s : St) : St :=
  match count with
  | 0 => s
  | Datatypes.S count' => for_up count' (Datatypes.S i) body (body i s)
  end.

Definition for_range {St : Type} (lo hi : nat) (body : nat -> St -> St) (s : St) : St :=
  for_up (hi - lo) lo body s.

(** Keep the elements on which [f] answers, with its answers. *)
Fixpoint filter_map {A B : Type} (f : A -> option B) (l : list A) : list B :=
  match l with
  | [] => []
  | x :: l' =>
      match f x with
      | Some y => y :: filter_map f l'
      | None => filter_map f l'
      end
  end.

Module JsArray.

(** A number held by an array of counters. *)
Inductive jsnumber : Type :=
| NaN
| Num (n : N).

(** A slot of an array; [None] is a hole, which reads as [undefined]. *)
Definition slot := option jsnumber.
Definition array := list slot.

(** [a[i]] *)
Definition get (a : array) (i : nat) : slot := nth i a None.

(** [a[i] = v]; writing past the end extends the array with holes. *)
Fixpoint set (a : array) (i : nat) (v : jsnumber) : array :=
  match i, a with
  | 0, [] => [Some v]
  | 0, _ :: a' => Some v :: a'
  | S i', [] => None :: set [] i' v
  | S i', x :: a' => x :: set a' i' v
  end.

(** The value stored by [a[i]++]: [undefined] and [NaN] give [NaN]. *)
Definition incr (s : slot) : jsnumber :=
  match s with
  | Some (Num n) => Num (n + 1)
  | _ => NaN
  end.

(** [a[i] > 0] *)
Definition gt_zero (s : slot) : bool :=
  match s with
  | Some (Num n) => (0 <? n)%N
  | _ => false
  end.

(** The slot as string concatenation renders it. *)
Definition to_string (s : slot) : jsstring :=
  match s with
  | Some (Num n) => N_to_string n
  | Some NaN => lit "NaN"
  | None => lit "undefined"
  end.

Definition zero : jsnumber := Num 0.

End JsArray.

(* ================================================================== *)
(** * The two regular expressions of the outline code                  *)
(* ================================================================== *)

Module HeadingRegex.

(** [(.+)$]: what is left must be non-empty and free of line
    terminators, and is captured whole. *)
Definition dot_plus_end (r : jsstring) : option jsstring :=
  if truthy r && forallb (fun c => negb (is_line_terminator c)) r
  then Some r else None.

(** [\s*(.+)$], greedy: [j] white-space characters are consumed, the
    longest run first, giving one back at each failure. *)
Fixpoint ws_star_then (j : nat) (r : jsstring) : option jsstring :=
  match dot_plus_end (skipn j r) with
  | Some t => Some t
  | None =>
      match j with
      | 0 => None
      | S j' => ws_star_then j' r
      end
  end.

(** [^(#+)\s*(.+)$], greedy: [k] hash marks are consumed, all of the
    leading ones first, giving one back at each failure. *)
Fixpoint hashes_then (k : nat) (line : jsstring) : option (nat * jsstring) :=
  match k with
  | 0 => None
  | S k' =>
      let r := skipn k line in
      match ws_star_then (count_prefix is_white_space r) r with
      | Some t => Some (k, t)
      | None => hashes_then k' line
      end
  end.

(** [line.match(/^(#+)\s*(.+)$/)]: the length of group 1 and group 2. *)
Definition match_heading (line : jsstring) : option (nat * jsstring) :=
  hashes_then (count_prefix is_hash line) line.

(** [^#+\s] with [k] hash marks consumed. *)
Fixpoint hashes_then_ws (k : nat) (line : jsstring) : bool :=
  match k with
  | 0 => false
  | S k' =>
      match skipn k line with
      | c :: _ => is_white_space c || hashes_then_ws k' line
      | [] => hashes_then_ws k' line
      end
  end.

(** [/^#+\s/.test(line)] *)
Definition test_heading_prefix (line : jsstring) : bool :=
  hashes_then_ws (count_prefix is_hash line) line.

End HeadingRegex.

Import HeadingRegex.

(* ================================================================== *)
(** * What the session endpoints answer                                *)
(* ================================================================== *)

Module Session.

(** The values a position variable holds. *)
Inductive jsval : Type :=
| Undefined
| Int (z : Z).

(** A JSON object of a reply, reduced to the members the callers read;
    [status] is [None] when the member is absent or not a string. *)
Record reply : Type := {
  status : option jsstring;
  current_pos : jsval;
  session_uuid : option jsstring
}.

(** What [await response.json()] and [JSON.parse] give, for a text whose
    values are read as [A] through their members. Reading a member of
    [null] throws; every other value can be read, and a member it does not
    have reads as [undefined]: an object, but also a number, a string, a
    boolean or an array, which have none of the members read here. *)
Inductive json_body (A : Type) : Type :=
| NotJson                  (* the promise rejects, [JSON.parse] throws *)
| JsonNull                 (* [null]: reading a member throws *)
| JsonObject (d : A).      (* any other value, as its members read *)

Arguments NotJson {A}.
Arguments JsonNull {A}.

(** What [await fetch(...)] gives when the body is read with [json()]. *)
Inductive fetch_result (A : Type) : Type :=
| Rejected
| Response (ok : bool) (body : json_body A).

Arguments Rejected {A}.

(** [data.status === 'success'] *)
Definition is_success (d : reply) : bool :=
  match status d with
  | Some s => str_eqb s (lit "success")
  | None => false
  end.

End Session.

Import Session.

(* ================================================================== *)
(** * send_topic.js                                                    *)
(* ================================================================== *)

Module SendTopic.

Import JsArray.

(** ** Global position manager *)

Record window : Type := {
  currentPos : jsval;
  sessionUuid : option jsstring
}.

(** The top of the script: [window.currentPos = -1; window.sessionUuid = null]. *)
Definition script_loaded : window :=
  {| currentPos := Int (-1); sessionUuid := None |}.

Definition initializeGlobalPosManager (r : fetch_result reply) (w : window) : window :=
  match r with
  | Rejected => w
  | Response ok body =>
      if ok then
        match body with
        | NotJson => w
        | JsonNull => w
        | JsonObject data =>
            if is_success data
            then {| currentPos := current_pos data;
                    sessionUuid := session_uuid data |}
            else w
        end
      else w
  end.

Definition getCurrentPos (w : window) : jsval :=
  match currentPos w with
  | Undefined => Int 0
  | v => v
  end.

Definition setCurrentPos (pos : jsval) (r : fetch_result reply) (w : window)
  : bool * window :=
  match r with
  | Rejected => (false, w)
  | Response ok body =>
      if ok then
        match body with
        | NotJson => (false, w)
        | JsonNull => (false, w)
        | JsonObject data =>
            if is_success data
            then (true, {| currentPos := pos; sessionUuid := sessionUuid w |})
            else (false, w)
        end
      else (false, w)
  end.

(** ** Hierarchical numbering *)

(** [const counters = [0, 0, 0, 0, 0, 0]] *)
Definition initial_counters : array := repeat (Some zero) 6.

(** The loop that builds [numberStr] from the first [level] counters. *)
Definition number_string (level : nat) (counters : array) : jsstring :=
  for_range 0 level
    (fun i numberStr =>
       if gt_zero (get counters i)
       then numberStr ++ (if truthy numberStr then lit "." else [])
                      ++ to_string (get counters i)
       else numberStr)
    [].

(** The body of [forEach] once the line has matched with [level]. *)
Definition number_heading (level : nat) (st : list jsstring * array)
  : list jsstring * array :=
  let '(numbering, counters) := st in
  let counters1 :=
    for_range level (List.length counters)
      (fun i c => set c i zero) counters in
  let counters2 :=
    set counters1 (level - 1) (incr (get counters1 (level - 1))) in
  (numbering ++ [number_string level counters2], counters2).

Definition number_line (st : list jsstring * array) (line : jsstring)
  : list jsstring * array :=
  match match_heading line with
  | Some (level, _) => number_heading level st
  | None => st
  end.

Definition generateHierarchicalNumbering (outlineLines : list jsstring)
  : list jsstring :=
  fst (fold_left number_line outlineLines ([], initial_counters)).

(** ** Children of an outline item *)

(** The loop of [hasChildrenItems] over the lines from index [i] on. *)
Fixpoint scan_lines (lines : list jsstring) (currentLevel : nat) : bool :=
  match lines with
  | [] => false
  | line :: rest =>
      match match_heading line with
      | Some (level, _) =>
          if currentLevel <? level then true
          else if level <=? currentLevel then false
          else scan_lines rest currentLevel
      | None => scan_lines rest currentLevel
      end
  end.

Definition hasChildrenItems (outlineLines : list jsstring)
    (currentIndex currentLevel : nat) : bool :=
  scan_lines (skipn (S currentIndex) outlineLines) currentLevel.

(** ** The outline blocks of the side bar *)

(** An [.outline-block]: [dataset.level] holds the decimal text of the
    level it was given, which [parseInt] reads back; [textContent] is the
    text of its [.block-content]. *)
Record block : Type := {
  level : nat;
  textContent : jsstring
}.

(** The loop of [hasChildrenFromBlocks] over the blocks from index [i]
    on. *)
Fixpoint scan_blocks (blocks : list block) (currentLevel : nat) : bool :=
  match blocks with
  | [] => false
  | b :: rest =>
      if currentLevel <? level b then true
      else if level b <=? currentLevel then false
      else scan_blocks rest currentLevel
  end.

Definition hasChildrenFromBlocks (outlineBlocks : list block)
    (currentIndex currentLevel : nat) : bool :=
  scan_blocks (skipn (S currentIndex) outlineBlocks) currentLevel.

(** [parseInt(block.dataset.level) || 1] *)
Definition level_or_1 (b : block) : nat :=
  match level b with
  | 0 => 1
  | l => l
  end.

(** The line [updateOutlineData] writes for a block. *)
Definition block_line (b : block) : jsstring :=
  hashes (level_or_1 b) ++ lit " " ++ textContent b.

(** The string [updateOutlineData] stores in the hidden input. *)
Definition updateOutlineData (outlineBlocks : list block) : jsstring :=
  join_nl (map block_line outlineBlocks).

(** The lines [displayOutlineInSidebar] keeps. *)
Definition outline_lines (outlineContent : jsstring) : list jsstring :=
  filter test_heading_prefix (split_nl outlineContent).

(** The (level, text) pairs [displayOutlineInSidebar] reads from the
    kept lines. *)
Definition parse_outline (outlineContent : jsstring) : list (nat * jsstring) :=
  filter_map match_heading (outline_lines outlineContent).

Definition node_of (b : block) : nat * jsstring := (level b, textContent b).

(** ** Editing *)

(** The four options of the level selector of the edit dialog. *)
Inductive level_choice : Type := Level1 | Level2 | Level3 | Level4.

(** [parseInt(document.getElementById('itemLevel').value)] *)
Definition choice_value (c : level_choice) : nat :=
  match c with
  | Level1 => 1
  | Level2 => 2
  | Level3 => 3
  | Level4 => 4
  end.

(** What the edit dialog hands to its callback: the trimmed text, if it
    is not empty, and the chosen level. *)
Definition dialog_confirm (itemText : jsstring) (itemLevel : level_choice)
  : option (jsstring * nat) :=
  let newText := trim itemText in
  if truthy newText then Some (newText, choice_value itemLevel) else None.

(** Replace the [i]-th block. *)
Fixpoint update_nth (i : nat) (b : block) (l : list block) : list block :=
  match l, i with
  | [], _ => []
  | _ :: l', 0 => b :: l'
  | x :: l', S i' => x :: update_nth i' b l'
  end.

Fixpoint remove_nth (i : nat) (l : list block) : list block :=
  match l, i with
  | [], _ => []
  | _ :: l', 0 => l'
  | x :: l', S i' => x :: remove_nth i' l'
  end.

Fixpoint insert_at (i : nat) (b : block) (l : list block) : list block :=
  match i, l with
  | 0, _ => b :: l
  | S i', x :: l' => x :: insert_at i' b l'
  | S _, [] => [b]
  end.

Section Editing.

(** The text content of the node a browser builds from a string
    assigned to [innerHTML]: [Add] and the initial display insert the
    text as markup, [Edit] assigns [textContent]. *)
Variable markup_text : jsstring -> jsstring.

(** The blocks [displayOutlineInSidebar] builds. *)
Definition displayOutlineInSidebar (outlineContent : jsstring) : list block :=
  map (fun n => {| level := fst n; textContent := markup_text (snd n) |})
      (parse_outline outlineContent).

(** The user's actions on the outline. [Drag] moves the dragged block
    before the block that is [before]-th among the others, or to the
    end. *)
Inductive action : Type :=
| Add (itemText : jsstring) (itemLevel : level_choice)
| Edit (index : nat) (itemText : jsstring) (itemLevel : level_choice)
| Delete (index : nat)
| Drag (index : nat) (before : option nat).

Definition perform (a : action) (blocks : list block) : list block :=
  match a with
  | Add itemText itemLevel =>
      match dialog_confirm itemText itemLevel with
      | Some (text, lvl) =>
          blocks ++ [{| level := lvl; textContent := markup_text text |}]
      | None => blocks
      end
  | Edit i itemText itemLevel =>
      match dialog_confirm itemText itemLevel with
      | Some (newText, newLevel) =>
          match nth_error blocks i with
          | Some _ =>
              update_nth i {| level := newLevel; textContent := newText |} blocks
          | None => blocks
          end
      | None => blocks
      end
  | Delete i => remove_nth i blocks
  | Drag i before =>
      match nth_error blocks i with
      | Some b =>
          let others := remove_nth i blocks in
          match before with
          | Some j => insert_at j b others
          | None => others ++ [b]
          end
      | None => blocks
      end
  end.

(** The block lists the editor can show: an outline was displayed, then
    actions were performed. *)
Inductive reachable : list block -> Prop :=
| reach_display : forall outlineContent,
    reachable (displayOutlineInSidebar outlineContent)
| reach_perform : forall a blocks,
    reachable blocks -> reachable (perform a blocks).

End Editing.

End SendTopic.

(* ================================================================== *)
(** * history_outline.js                                               *)
(* ================================================================== *)

Module HistoryOutline.

Import JsArray.

(** The members of [HistoryOutlineManager] that matter here. *)
Record manager : Type := {
  currentPos : jsval;
  selectedPos : jsval
}.

Definition setCurrentPos (pos : jsval) (r : fetch_result reply) (this : manager)
  : bool * manager :=
  match r with
  | Rejected => (false, this)
  | Response ok body =>
      if ok then
        match body with
        | NotJson => (false, this)
        | JsonNull => (false, this)
        | JsonObject data =>
            if is_success data
            then (true, {| currentPos := pos; selectedPos := selectedPos this |})
            else (false, this)
        end
      else (false, this)
  end.

(** The fallback numbering; its reset loop guards the assignment with
    [if (i > level)]. *)
Definition number_heading (level : nat) (st : list jsstring * array)
  : list jsstring * array :=
  let '(numbering, counters) := st in
  let counters1 :=
    for_range level (List.length counters)
      (fun i c => if level <? i then set c i zero else c) counters in
  let counters2 :=
    set counters1 (level - 1) (incr (get counters1 (level - 1))) in
  (numbering ++ [SendTopic.number_string level counters2], counters2).

Definition number_line (st : list jsstring * array) (line : jsstring)
  : list jsstring * array :=
  match match_heading line with
  | Some (level, _) => number_heading level st
  | None => st
  end.

Definition generateHierarchicalNumbering (outlineLines : list jsstring)
  : list jsstring :=
  fst (fold_left number_line outlineLines ([], SendTopic.initial_counters)).

Definition hasChildrenItems (outlineLines : list jsstring)
    (currentIndex currentLevel : nat) : bool :=
  SendTopic.scan_lines (skipn (S currentIndex) outlineLines) currentLevel.

End HistoryOutline.

(* ================================================================== *)
(** * generate_article.js and article_utils.js                         *)
(* ================================================================== *)

Module Article.

(** ** The article container *)

(** A child of [#article-display-container]. [wave_loader] tells whether
    the element holds a [.wave-loader]. The markup inside a chapter is not
    part of the model: a chapter is a leaf. *)
Record element : Type := {
  id : jsstring;
  classList : list jsstring;
  dataset_index : option jsstring;
  wave_loader : bool
}.

Definition has_class (c : jsstring) (e : element) : bool :=
  existsb (str_eqb c) (classList e).

Definition chapter_item : jsstring := lit "chapter-item".
Definition chapter_error : jsstring := lit "chapter-error".

(** The children matched by a selector, with their positions, in document
    order. *)
Fixpoint select_from (pos : nat) (sel : element -> bool)
    (children : list element) : list (nat * element) :=
  match children with
  | [] => []
  | e :: rest =>
      if sel e then (pos, e) :: select_from (S pos) sel rest
      else select_from (S pos) sel rest
  end.

Definition querySelectorAll (sel : element -> bool) (children : list element)
  : list (nat * element) :=
  select_from 0 sel children.

(** [container.insertBefore(x, child)] for the child at position [pos]. *)
Fixpoint insertBefore (x : element) (pos : nat) (children : list element)
  : list element :=
  match pos, children with
  | 0, _ => x :: children
  | S pos', e :: rest => e :: insertBefore x pos' rest
  | S _, [] => [x]
  end.

Definition appendChild (x : element) (children : list element) : list element :=
  children ++ [x].

(** The first element of the selection that satisfies [p]: the loops
    that look for [insertPosition]. *)
Fixpoint first_match (p : element -> bool) (sel : list (nat * element))
  : option (nat * element) :=
  match sel with
  | [] => None
  | (pos, e) :: rest => if p e then Some (pos, e) else first_match p rest
  end.

Definition jsval_to_string (v : jsval) : jsstring :=
  match v with
  | Undefined => lit "undefined"
  | Int z => Z_to_string z
  end.

(** [a > b] for a number read by [parseInt] and an index. *)
Definition greater (a : option Z) (b : jsval) : bool :=
  match a, b with
  | Some x, Int y => (y <? x)%Z
  | _, _ => false
  end.

(** ** Chapters, events and the page *)

(** The member [content] of a chapter, told apart the way
    [formatChapterContent] does: it tests [!content] and then calls
    [content.trim()], which only a string has. *)
Inductive content_value : Type :=
| Falsy                    (* absent, [null], [false], [0] or [''] *)
| Text (s : jsstring)      (* a string *)
| NotText.                 (* a truthy value that is not a string *)

(** A parsed [CHAPTER_DATA] or [CHAPTER_ERROR] value, reduced to the
    members that decide what is done with it. [index] is [Undefined] when
    the value has no such member and [Int z] when the member is the
    integer [z], as the server numbers the chapters; [chapter_content] is
    the member [content]. The members [title] and [references] only reach
    the markup of the chapter and the store of references. *)
Record chapterData : Type := {
  index : jsval;
  chapter_content : content_value
}.

(** Errors, told apart the way the handlers tell them apart: the error
    with message 'Network error occurred, generation stopped', or any
    other. *)
Inductive exn : Type :=
| GenerationStopped
| OtherError.

Inductive completion : Type :=
| Normal
| Throws (e : exn).

Inductive notice : Type :=
| FailedToParseChapterData
| GenerationStoppedDueToNetworkError
| ArticleGenerationCompleted
| ArticleGenerationFailed
| ChapterGeneratedSuccessfully
| ContinuingWithRemainingChapters
| AllChaptersGeneratedSuccessfully
| ChapterRetryFailed
| AllChaptersHaveBeenGenerated
| ContinuingGenerationFromChapter
| ContinueGenerationFailed.

Inductive callback : Type :=
| SaveCompleteArticleToHistory
| ContinueGenerationFromChapter (startChapterIndex : Z).

(** The [type] member of a POST to [/api/generate/articles], with the
    index it carries. *)
Inductive request : Type :=
| generate_article
| generate_single_chapter (chapter_index : Z)
| continue_generation (start_chapter_index : Z).

Inductive event : Type :=
| showNotification (n : notice)
| setTimeout (t : callback) (delay : N)
| post_articles (r : request)
| displayArticleComplete_called.

(** What the name [window.outlineData] reaches. The script never declares
    the property: until [initializeArticleContainer] assigns it the
    outline, the name reaches the element of id [outlineData] when the page
    has one, and is [undefined] otherwise. *)
Inductive window_property : Type :=
| Unset                    (* [undefined] *)
| NamedElement             (* the element of that id *)
| Assigned (s : jsstring).

(** The state the functions below read and write. The store of chapter
    references, which none of them reads, is left out. [outlineData] is
    the variable of the script, and [currentOutlineText] what
    [getCurrentOutlineText()] returns. *)
Record page : Type := {
  container : option (list element);
  window_totalChapters : option Z;
  window_completedChaptersCount : option Z;
  totalChapters : Z;
  completedChaptersCount : Z;
  window_outlineData : window_property;
  outlineData : jsstring;
  currentOutlineText : jsstring;
  window_displayArticleComplete : bool;
  window_handleStreamLine : bool;
  window_cleanupLoadingStates : bool;
  log : list event
}.

Definition set_container (c : option (list element)) (p : page) : page :=
  {| container := c;
     window_totalChapters := window_totalChapters p;
     window_completedChaptersCount := window_completedChaptersCount p;
     totalChapters := totalChapters p;
     completedChaptersCount := completedChaptersCount p;
     window_outlineData := window_outlineData p;
     outlineData := outlineData p;
     currentOutlineText := currentOutlineText p;
     window_displayArticleComplete := window_displayArticleComplete p;
     window_handleStreamLine := window_handleStreamLine p;
     window_cleanupLoadingStates := window_cleanupLoadingStates p;
     log := log p |}.

Definition set_counts (wt wc : option Z) (c : Z) (p : page) : page :=
  {| container := container p;
     window_totalChapters := wt;
     window_completedChaptersCount := wc;
     totalChapters := totalChapters p;
     completedChaptersCount := c;
     window_outlineData := window_outlineData p;
     outlineData := outlineData p;
     currentOutlineText := currentOutlineText p;
     window_displayArticleComplete := window_displayArticleComplete p;
     window_handleStreamLine := window_handleStreamLine p;
     window_cleanupLoadingStates := window_cleanupLoadingStates p;
     log := log p |}.

Definition emit (e : event) (p : page) : page :=
  {| container := container p;
     window_totalChapters := window_totalChapters p;
     window_completedChaptersCount := window_completedChaptersCount p;
     totalChapters := totalChapters p;
     completedChaptersCount := completedChaptersCount p;
     window_outlineData := window_outlineData p;
     outlineData := outlineData p;
     currentOutlineText := currentOutlineText p;
     window_displayArticleComplete := window_displayArticleComplete p;
     window_handleStreamLine := window_handleStreamLine p;
     window_cleanupLoadingStates := window_cleanupLoadingStates p;
     log := log p ++ [e] |}.

(** The chapter nodes of the page, in document order. *)
Definition chapter_nodes (p : page) : list element :=
  match container p with
  | Some children => filter (has_class chapter_item) children
  | None => []
  end.

(** ** article_utils.js *)

(** The element a chapter of index [indexArg] is shown in. *)
Definition chapterElementFor (indexArg : jsval) : element :=
  {| id := lit "chapter-" ++ jsval_to_string indexArg;
     classList := [chapter_item];
     dataset_index := Some (jsval_to_string indexArg);
     wave_loader := false |}.

(** [formatChapterContent(content, references)], for what it completes
    with: [!content || content.trim() === ''] throws a [TypeError] on a
    truthy value that has no [trim]. The markup it returns is inside the
    chapter. *)
Definition formatChapterContent (content : content_value) : completion :=
  match content with
  | NotText => Throws OtherError
  | Falsy | Text _ => Normal
  end.

(** [createChapterElement(chapterData, index, mode)]: the element is
    created, then the content is formatted; [None] when that throws. *)
Definition createChapterElement (data : chapterData) (indexArg : jsval)
  : option element :=
  let chapterElement := chapterElementFor indexArg in
  match formatChapterContent (chapter_content data) with
  | Normal => Some chapterElement
  | Throws _ => None
  end.

(** The block [displayArticleComplete] appends. *)
Definition completeElement : element :=
  {| id := []; classList := []; dataset_index := None; wave_loader := false |}.

Definition displayArticleComplete (p : page) : page :=
  let p1 := emit displayArticleComplete_called p in
  match container p1 with
  | Some children => set_container (Some (appendChild completeElement children)) p1
  | None => p1
  end.

(** The number of lines of an outline that start, once trimmed, with a
    hash mark. *)
Definition chapters_length (outline : jsstring) : nat :=
  List.length
    (filter (fun line => startsWith [hash] (trim line)) (split_nl outline)).

(** ** generate_article.js *)

Definition progressElement : element :=
  {| id := lit "overall-progress"; classList := [];
     dataset_index := None; wave_loader := false |}.

Definition is_progress (e : element) : bool :=
  str_eqb (id e) (lit "overall-progress").

Definition showOverallProgress (p : page) : page * completion :=
  match container p with
  | Some children =>
      (set_container (Some (appendChild progressElement children)) p, Normal)
  | None => (p, Throws OtherError)
  end.

(** [document.getElementById('overall-progress')?.remove()]: the first
    element with the id. *)
Fixpoint remove_first (sel : element -> bool) (children : list element)
  : list element :=
  match children with
  | [] => []
  | e :: rest => if sel e then rest else e :: remove_first sel rest
  end.

Definition removeProgress (p : page) : page :=
  match container p with
  | Some children => set_container (Some (remove_first is_progress children)) p
  | None => p
  end.

(** Of [cleanupLoadingStates], what reaches the container: the chapter
    items around a [.wave-loader] are removed. *)
Definition cleanupLoadingStates (p : page) : page :=
  match container p with
  | Some children =>
      set_container
        (Some (filter (fun e => negb (wave_loader e && has_class chapter_item e))
                      children)) p
  | None => p
  end.

Definition createCollapsibleChapter (data : chapterData) (p : page)
  : page * completion :=
  match createChapterElement data (index data) with
  | None => (p, Throws OtherError)
  | Some chapterElement =>
      match container p with
      | None => (p, Throws OtherError)
      | Some children =>
          let existingChapters :=
            querySelectorAll (has_class chapter_item) children in
          let insertPosition :=
            first_match
              (fun existingChapter =>
                 greater (parseInt (replace_first (lit "chapter-") []
                                      (id existingChapter)))
                         (index data))
              existingChapters in
          match insertPosition with
          | Some (pos, _) =>
              (set_container (Some (insertBefore chapterElement pos children)) p,
               Normal)
          | None =>
              (set_container (Some (appendChild chapterElement children)) p, Normal)
          end
      end
  end.

(** [s.split('-').pop()] *)
Fixpoint after_last_dash (cur : jsstring) (s : jsstring) : jsstring :=
  match s with
  | [] => List.rev cur
  | c :: s' =>
      if (c =? minus_sign)%N then after_last_dash [] s'
      else after_last_dash (c :: cur) s'
  end.

(** [element.dataset.index || element.id.split('-').pop()] *)
Definition index_text (e : element) : jsstring :=
  match dataset_index e with
  | Some s => if truthy s then s else after_last_dash [] (id e)
  | None => after_last_dash [] (id e)
  end.

Definition errorElementFor (indexArg : jsval) : element :=
  {| id := lit "chapter-error-" ++ jsval_to_string indexArg;
     classList := [chapter_error; lit "network-error"];
     dataset_index := Some (jsval_to_string indexArg);
     wave_loader := false |}.

(** [displayChapterNetworkError]; reading a member of [null] or of a
    missing container throws. *)
Definition displayChapterNetworkError (errorData : json_body chapterData)
    (p : page) : page * completion :=
  match errorData with
  | NotJson | JsonNull => (p, Throws OtherError)
  | JsonObject data =>
      match container p with
      | None => (p, Throws OtherError)
      | Some children =>
          let errorElement := errorElementFor (index data) in
          let existingElements :=
            querySelectorAll
              (fun e => has_class chapter_item e || has_class chapter_error e)
              children in
          let insertPosition :=
            first_match
              (fun element => greater (parseInt (index_text element)) (index data))
              existingElements in
          match insertPosition with
          | Some (pos, _) =>
              (set_container (Some (insertBefore errorElement pos children)) p, Normal)
          | None =>
              (set_container (Some (appendChild errorElement children)) p, Normal)
          end
      end
  end.

(** ** The stream of a generation run *)

Inductive stream_end : Type :=
| Done
| ReadFails.

(** What [await fetch('/api/generate/articles', ...)] gives when the body
    is read as a stream: the decoded text of each chunk, then the end. *)
Inductive stream_response : Type :=
| FetchRejected
| HttpError
| Body (chunks : list jsstring) (ending : stream_end).

Section ReadLoop.

Variable St : Type.

(** What is done with a line: [handleStreamLine]. *)
Variable handle : jsstring -> St -> St * completion.

(** [for (const line of lines) if (line.trim()) await handle(line.trim())] *)
Fixpoint for_lines (lines : list jsstring) (s : St) : St * completion :=
  match lines with
  | [] => (s, Normal)
  | line :: rest =>
      if truthy (trim line) then
        match handle (trim line) s with
        | (s', Normal) => for_lines rest s'
        | (s', Throws e) => (s', Throws e)
        end
      else for_lines rest s
  end.

(** One turn of [while (true)] after a read that gave a chunk. *)
Definition on_chunk (chunk buffer : jsstring) (s : St)
  : jsstring * (St * completion) :=
  let buffer1 := buffer ++ chunk in
  let lines := split_nl buffer1 in
  let buffer2 := last lines [] in
  let lines' := removelast lines in
  (buffer2, for_lines lines' s).

(** The turns of the loop for the chunks read, up to a throw. *)
Fixpoint read_chunks (chunks : list jsstring) (buffer : jsstring) (s : St)
  : jsstring * (St * completion) :=
  match chunks with
  | [] => (buffer, (s, Normal))
  | chunk :: rest =>
      match on_chunk chunk buffer s with
      | (buffer', (s', Normal)) => read_chunks rest buffer' s'
      | (buffer', (s', Throws e)) => (buffer', (s', Throws e))
      end
  end.

(** The loop and the statement after it. *)
Definition read_stream (chunks : list jsstring) (ending : stream_end) (s : St)
  : St * completion :=
  match read_chunks chunks [] s with
  | (buffer, (s', Normal)) =>
      match ending with
      | Done =>
          if truthy (trim buffer) then handle (trim buffer) s'
          else (s', Normal)
      | ReadFails => (s', Throws OtherError)
      end
  | (_, (s', Throws e)) => (s', Throws e)
  end.

End ReadLoop.

Section Handlers.

(** [JSON.parse]; [NotJson] stands for a [SyntaxError]. *)
Variable JSON_parse : jsstring -> json_body chapterData.

Definition CHAPTER_DATA : jsstring := lit "CHAPTER_DATA:".
Definition CHAPTER_ERROR : jsstring := lit "CHAPTER_ERROR:".
Definition ARTICLE_COMPLETE : jsstring := lit "ARTICLE_COMPLETE".

(** The increment of the count of completed chapters. *)
Definition count_completed (p : page) : page :=
  match window_completedChaptersCount p with
  | Some n =>
      set_counts (window_totalChapters p) (Some (n + 1)%Z)
                 (completedChaptersCount p) p
  | None =>
      set_counts (window_totalChapters p) None
                 (completedChaptersCount p + 1)%Z p
  end.

Definition handleStreamLine (line : jsstring) (p : page) : page * completion :=
  if startsWith CHAPTER_DATA line then
    match JSON_parse (substring (List.length CHAPTER_DATA) line) with
    | NotJson | JsonNull =>
        (emit (showNotification FailedToParseChapterData) p, Normal)
    | JsonObject data =>
        match createCollapsibleChapter data p with
        | (p1, Normal) => (count_completed p1, Normal)
        | (p1, Throws _) =>
            (emit (showNotification FailedToParseChapterData) p1, Normal)
        end
    end
  else if startsWith CHAPTER_ERROR line then
    match JSON_parse (substring (List.length CHAPTER_ERROR) line) with
    | NotJson => (p, Normal)
    | errorData =>
        match displayChapterNetworkError errorData p with
        | (p1, Normal) =>
            let p2 := emit (showNotification GenerationStoppedDueToNetworkError) p1 in
            (cleanupLoadingStates p2, Throws GenerationStopped)
        | (p1, Throws GenerationStopped) => (p1, Throws GenerationStopped)
        | (p1, Throws OtherError) => (p1, Normal)
        end
    end
  else if str_eqb line ARTICLE_COMPLETE then
    let p1 := removeProgress p in
    let p2 := emit (showNotification ArticleGenerationCompleted) p1 in
    if window_displayArticleComplete p2 then
      let p3 := displayArticleComplete p2 in
      let p4 := cleanupLoadingStates p3 in
      (emit (setTimeout SaveCompleteArticleToHistory 1000) p4, Normal)
    else (p2, Throws OtherError)
  else (p, Normal).

Definition generateArticleStream (response : stream_response) (p : page)
  : page :=
  let catch (q : page) : page :=
    cleanupLoadingStates (emit (showNotification ArticleGenerationFailed) q) in
  match showOverallProgress p with
  | (p1, Throws _) => catch p1
  | (p1, Normal) =>
      let p2 := emit (post_articles generate_article) p1 in
      match response with
      | FetchRejected | HttpError => catch p2
      | Body chunks ending =>
          match read_stream handleStreamLine chunks ending p2 with
          | (p3, Normal) => p3
          | (p3, Throws _) => catch p3
          end
      end
  end.

End Handlers.

(** ** Retrying a chapter and continuing after it *)

(** The reply to a request for a single chapter, reduced to what the
    caller tests: whether [error] is truthy, and [content], the text of
    the chapter, empty when the reply has none. *)
Record single_chapter : Type := {
  error : bool;
  content : jsstring
}.

(** [document.getElementById(x)] within the container. *)
Definition getElementById (x : jsstring) (p : page) : option element :=
  match container p with
  | Some children => find (fun e => str_eqb (id e) x) children
  | None => None
  end.

(** [element.remove()] for the element [getElementById x] found. *)
Definition remove_by_id (x : jsstring) (p : page) : page :=
  match container p with
  | Some children =>
      set_container (Some (remove_first (fun e => str_eqb (id e) x) children)) p
  | None => p
  end.

(** [window.outlineData || outlineData]; [None] is the element of id
    [outlineData], a truthy value that is not a string. *)
Definition currentOutlineData (p : page) : option jsstring :=
  match window_outlineData p with
  | Assigned s => Some (if truthy s then s else outlineData p)
  | NamedElement => None
  | Unset => Some (outlineData p)
  end.

Definition default_to (d : Z) (o : option Z) : option Z :=
  match o with
  | Some v => Some v
  | None => Some d
  end.

Section Retry.

Variable JSON_parse : jsstring -> json_body chapterData.

Definition retryChapterGeneration (chapterIndex : Z)
    (response : fetch_result single_chapter) (p : page) : page :=
  let errorId := lit "chapter-error-" ++ Z_to_string chapterIndex in
  match getElementById errorId p with
  | None => p
  | Some _ =>
      let catch (q : page) : page :=
        emit (showNotification ChapterRetryFailed) q in
      let p1 := emit (post_articles (generate_single_chapter chapterIndex)) p in
      match response with
      | Rejected => catch p1
      | Response false _ => catch p1
      | Response true NotJson => catch p1
      | Response true JsonNull => catch p1
      | Response true (JsonObject result) =>
          if negb (error result) && truthy (content result) then
            let p2 := remove_by_id errorId p1 in
            let chapterData :=
              {| index := Int chapterIndex;
                 chapter_content := Text (content result) |} in
            match createCollapsibleChapter chapterData p2 with
            | (p3, Throws _) => catch p3
            | (p3, Normal) =>
                let p4 := emit (showNotification ChapterGeneratedSuccessfully) p3 in
                match currentOutlineData p4 with
                | None => catch p4      (* [split] is not a function *)
                | Some currentOutlineData =>
                    let chapters := chapters_length currentOutlineData in
                    let hasRemainingChapters :=
                      (chapterIndex + 1 <? Z.of_nat chapters)%Z in
                    if hasRemainingChapters then
                      let p5 :=
                        set_counts
                          (default_to (Z.of_nat chapters) (window_totalChapters p4))
                          (default_to (chapterIndex + 1)%Z
                                      (window_completedChaptersCount p4))
                          (completedChaptersCount p4) p4 in
                      let p6 :=
                        emit (showNotification ContinuingWithRemainingChapters) p5 in
                      emit (setTimeout
                              (ContinueGenerationFromChapter (chapterIndex + 1)) 1000)
                           p6
                    else if window_displayArticleComplete p4 then
                      displayArticleComplete
                        (emit (showNotification AllChaptersGeneratedSuccessfully) p4)
                    else p4
                end
            end
          else if error result then
            emit (showNotification ChapterRetryFailed) p1
          else catch p1
      end
  end.

(** The progress block of a continued run: created before the first
    chapter or error block when the page has none, updated in place
    otherwise. *)
Definition continue_progress (p : page) : page :=
  match getElementById (lit "overall-progress") p with
  | Some _ => p
  | None =>
      match container p with
      | Some children =>
          let firstChapter :=
            first_match (fun _ => true)
              (querySelectorAll
                 (fun e => has_class chapter_item e || has_class chapter_error e)
                 children) in
          match firstChapter with
          | Some (pos, _) =>
              set_container (Some (insertBefore progressElement pos children)) p
          | None =>
              set_container (Some (appendChild progressElement children)) p
          end
      | None => p
      end
  end.

(** [line.trim() && window.handleStreamLine] guards each call. *)
Definition window_handler (line : jsstring) (p : page) : page * completion :=
  if window_handleStreamLine p then handleStreamLine JSON_parse line p
  else (p, Normal).

Definition continueGenerationFromChapter (startChapterIndex : Z)
    (response : stream_response) (p : page) : page :=
  let catch (q : page) : page :=
    let q1 := emit (showNotification ContinueGenerationFailed) q in
    if window_cleanupLoadingStates q1 then cleanupLoadingStates q1 else q1 in
  let chapters := Z.of_nat (chapters_length (currentOutlineText p)) in
  let remainingChapters := (chapters - startChapterIndex)%Z in
  let p1 :=
    set_counts (default_to chapters (window_totalChapters p))
               (Some startChapterIndex) (completedChaptersCount p) p in
  if (remainingChapters <=? 0)%Z then
    let p2 := emit (showNotification AllChaptersHaveBeenGenerated) p1 in
    if window_displayArticleComplete p2 then displayArticleComplete p2 else p2
  else
    let p2 := continue_progress p1 in
    let p3 := emit (showNotification ContinuingGenerationFromChapter) p2 in
    let p4 := emit (post_articles (continue_generation startChapterIndex)) p3 in
    match response with
    | FetchRejected | HttpError => catch p4
    | Body chunks ending =>
        match read_stream window_handler chunks ending p4 with
        | (p5, Normal) => p5
        | (p5, Throws _) => catch p5
        end
    end.


End Retry.

End Article.

(* ================================================================== *)
(** * Properties: the position manager                                 *)
(* ================================================================== *)

Module PositionFacts.

Import SendTopic.

(** A reply that stands for a failure: the request was rejected, the
    status is not 2xx, or the body does not report ['success']. *)
Definition failed (r : fetch_result reply) : Prop :=
  match r with
  | Rejected => True
  | Response false _ => True
  | Response true (JsonObject data) => is_success data = false
  | Response true _ => True
  end.

Definition confirmed (r : fetch_result reply) : Prop :=
  exists data, r = Response true (JsonObject data) /\ is_success data = true.

Lemma failed_or_confirmed (r : fetch_result reply) : failed r \/ confirmed r.
Proof.
  destruct r as [|[] [| |data]]; simpl; auto.
  destruct (is_success data) eqn:E; [right | left]; auto.
  exists data; auto.
Qed.

Lemma setCurrentPos_failed pos r w :
  failed r -> setCurrentPos pos r w = (false, w).
Proof.
  destruct r as [|[] [| |data]]; simpl; intros H; try reflexivity.
  now rewrite H.
Qed.

Lemma history_setCurrentPos_failed pos r this :
  failed r -> HistoryOutline.setCurrentPos pos r this = (false, this).
Proof.
  destruct r as [|[] [| |data]]; simpl; intros H; try reflexivity.
  now rewrite H.
Qed.

(** C3. When the POST of [setCurrentPos(pos)] fails, or the reply does
    not report status ['success'], [setCurrentPos] returns [false] and
    the position in memory ([window.currentPos], [this.currentPos]) is
    the one before the call; the position becomes [pos], with [true]
    returned, exactly on a confirmed success. Both implementations. *)
Theorem setCurrentPos_updates_only_on_confirmation :
  forall (pos : jsval) (r : fetch_result reply) (w : window)
         (this : HistoryOutline.manager),
    (failed r ->
       setCurrentPos pos r w = (false, w) /\
       getCurrentPos (snd (setCurrentPos pos r w)) = getCurrentPos w /\
       HistoryOutline.setCurrentPos pos r this = (false, this)) /\
    (confirmed r ->
       fst (setCurrentPos pos r w) = true /\
       currentPos (snd (setCurrentPos pos r w)) = pos /\
       fst (HistoryOutline.setCurrentPos pos r this) = true /\
       HistoryOutline.currentPos (snd (HistoryOutline.setCurrentPos pos r this)) = pos) /\
    (currentPos (snd (setCurrentPos pos r w)) <> currentPos w -> confirmed r) /\
    (HistoryOutline.currentPos (snd (HistoryOutline.setCurrentPos pos r this))
       <> HistoryOutline.currentPos this -> confirmed r).
Proof.
  intros pos r w this. repeat split.
  - now apply setCurrentPos_failed.
  - rewrite setCurrentPos_failed by assumption. reflexivity.
  - now apply history_setCurrentPos_failed.
  - destruct H as (data & -> & Hs). simpl. now rewrite Hs.
  - destruct H as (data & -> & Hs). simpl. now rewrite Hs.
  - destruct H as (data & -> & Hs). simpl. now rewrite Hs.
  - destruct H as (data & -> & Hs). simpl. now rewrite Hs.
  - intros Hne. destruct (failed_or_confirmed r) as [Hf|Hc]; [|exact Hc].
    rewrite (setCurrentPos_failed pos r w Hf) in Hne. now elim Hne.
  - intros Hne. destruct (failed_or_confirmed r) as [Hf|Hc]; [|exact Hc].
    rewrite (history_setCurrentPos_failed pos r this Hf) in Hne. now elim Hne.
Qed.

(** The example of the specification: position 2 in memory,
    [setCurrentPos(5)], and a server failure (status 500). *)
Lemma setCurrentPos_updates_only_on_confirmation_witness :
  let w := {| currentPos := Int 2; sessionUuid := None |} in
  let r := Response false (@NotJson reply) in
  failed r /\
  setCurrentPos (Int 5) r w = (false, w) /\
  getCurrentPos (snd (setCurrentPos (Int 5) r w)) = Int 2.
Proof.
  intros w r.
  assert (Hf : failed r) by exact I.
  pose proof (setCurrentPos_updates_only_on_confirmation (Int 5) r w
                {| HistoryOutline.currentPos := Int 2;
                   HistoryOutline.selectedPos := Undefined |}) as (H & _).
  destruct (H Hf) as (H1 & H2 & _).
  split; [exact Hf|]. split; [exact H1| exact H2].
Defined.

(** The general shape of [getCurrentPos]. *)
Lemma getCurrentPos_spec (w : window) :
  getCurrentPos w =
    match currentPos w with Undefined => Int 0 | Int z => Int z end.
Proof. unfold getCurrentPos. now destruct (currentPos w). Qed.

(** C4, as stated, fails: right after the script is loaded, before any
    fetch of [/api/session/current_pos], [getCurrentPos()] is [-1]. *)
Lemma getCurrentPos_uninitialized_is_not_0 :
  getCurrentPos script_loaded <> Int 0 /\
  getCurrentPos script_loaded = Int (-1).
Proof. split; [discriminate | reflexivity]. Qed.

(** C4, amended. [getCurrentPos()] returns the position in memory, an
    integer whenever [window.currentPos] is one, and [0] only when
    [window.currentPos] is [undefined]; from the load of the script and
    through any initialisation that fails, the position is [-1]. *)
Theorem getCurrentPos_returns_memory_value :
  (forall w z, currentPos w = Int z -> getCurrentPos w = Int z) /\
  (forall w, currentPos w = Undefined -> getCurrentPos w = Int 0) /\
  getCurrentPos script_loaded = Int (-1) /\
  (forall r, failed r ->
     getCurrentPos (initializeGlobalPosManager r script_loaded) = Int (-1)) /\
  (forall data, is_success data = true ->
     getCurrentPos (initializeGlobalPosManager
                      (Response true (JsonObject data)) script_loaded)
     = match current_pos data with Undefined => Int 0 | Int z => Int z end).
Proof.
  repeat split.
  - intros w z H. unfold getCurrentPos. now rewrite H.
  - intros w H. unfold getCurrentPos. now rewrite H.
  - intros r H. destruct r as [|[] [| |data]]; simpl in *; try reflexivity.
    now rewrite H.
  - intros data H. simpl. rewrite H. apply getCurrentPos_spec.
Qed.

Lemma getCurrentPos_returns_memory_value_witness :
  getCurrentPos {| currentPos := Int 3; sessionUuid := None |} = Int 3.
Proof.
  apply (proj1 getCurrentPos_returns_memory_value). reflexivity.
Defined.

End PositionFacts.

(* ================================================================== *)
(** * Properties: integer numbers as text                            *)
(* ================================================================== *)

Module NumberFacts.

Import Decimal.

Local Open Scope N_scope.





Definition decimal_digit (c : char16) : Prop :=
  In c [48; 49; 50; 51; 52; 53; 54; 55; 56; 57].

Lemma uint_chars_digits d : Forall decimal_digit (uint_chars d).
Proof.
  induction d; simpl; constructor; auto; unfold decimal_digit; simpl; tauto.
Qed.





(** The text of an integer starts with a digit. *)
Lemma decimal_head n :
  exists d others, decimal_text n = d :: others /\ decimal_digit d.
Proof.
  unfold decimal_text.
  assert (Hnn : N.to_uint n <> Nil).
  { destruct n; simpl; [discriminate | apply DecimalPos.Unsigned.to_uint_nonnil]. }
  pose proof (uint_chars_digits (N.to_uint n)) as Hall.
  destruct (N.to_uint n); [congruence|..]; simpl in *;
    inversion Hall; subst; eauto.
Qed.

Lemma N_to_string_head n :
  exists d others, N_to_string n = d :: others /\ decimal_digit d.
Proof.
  unfold N_to_string. cbv zeta.
  destruct (decimal_head (Z.to_N (written (Z.of_N n)))) as (d & others & -> & Hd).
  destruct (_ <? _)%Z; [eauto|].
  unfold exponent_form. eauto.
Qed.

(** The text of an integer number starts with a digit or a minus sign. *)
Lemma Z_to_string_head z :
  exists c others, Z_to_string z = c :: others /\ c <> 101%N.
Proof.
  assert (Hd : forall d, decimal_digit d -> d <> 101%N).
  { unfold decimal_digit. simpl.
    intros d [<-|[<-|[<-|[<-|[<-|[<-|[<-|[<-|[<-|[<-|[]]]]]]]]]]]; discriminate. }
  destruct z as [|q|q]; unfold Z_to_string.
  - destruct (N_to_string_head 0) as (d & others & -> & H). eauto.
  - destruct (N_to_string_head (Npos q)) as (d & others & -> & H). eauto.
  - exists minus_sign, (N_to_string (Npos q)). split; [reflexivity | discriminate].
Qed.

(** ** Reading back what was written *)

Section ReadBack.

Local Open Scope Z_scope.











End ReadBack.

End NumberFacts.

(* ================================================================== *)
(** * Properties: numbering and children of outline items              *)
(* ================================================================== *)

Module OutlineFacts.

Import JsArray SendTopic NumberFacts.

(** The levels of the heading lines of an outline, in order. *)
Definition heading_levels (lines : list jsstring) : list nat :=
  map fst (filter_map match_heading lines).

(** The walk over the lines only depends on the levels of the headings. *)
Lemma fold_number_line lines : forall st,
  fold_left number_line lines st =
  fold_left (fun s lvl => number_heading lvl s) (heading_levels lines) st.
Proof.
  induction lines as [|l lines IH]; intros st; [reflexivity|].
  unfold heading_levels in *. simpl. unfold number_line at 2.
  destruct (match_heading l) as [[lvl t]|]; simpl; apply IH.
Qed.

Lemma history_fold_number_line lines : forall st,
  fold_left HistoryOutline.number_line lines st =
  fold_left (fun s lvl => HistoryOutline.number_heading lvl s)
            (heading_levels lines) st.
Proof.
  induction lines as [|l lines IH]; intros st; [reflexivity|].
  unfold heading_levels in *. simpl. unfold HistoryOutline.number_line at 2.
  destruct (match_heading l) as [[lvl t]|]; simpl; apply IH.
Qed.

(** One number is produced for each heading line. *)
Lemma numbering_length lines :
  List.length (generateHierarchicalNumbering lines)
  = List.length (heading_levels lines).
Proof.
  unfold generateHierarchicalNumbering. rewrite fold_number_line.
  assert (H : forall lv st,
             List.length (fst (fold_left (fun s lvl => number_heading lvl s) lv st))
             = List.length (fst st) + List.length lv).
  { induction lv as [|x lv IH]; intros [n c]; simpl; [lia|].
    rewrite IH. simpl. rewrite length_app. simpl. lia. }
  rewrite H. reflexivity.
Qed.

(** The step on the six counters, for a level they cover. *)
Lemma number_heading_counters level numbering counters :
  1 <= level <= 6 -> List.length counters = 6 ->
  let st' := number_heading level (numbering, counters) in
  List.length (snd st') = 6 /\
  (forall i, i < level - 1 -> get (snd st') i = get counters i) /\
  get (snd st') (level - 1) = Some (incr (get counters (level - 1))) /\
  (forall i, level <= i < 6 -> get (snd st') i = Some zero) /\
  fst st' = numbering ++ [number_string level (snd st')].
Proof.
  intros Hl Hc.
  destruct counters as [|c0 [|c1 [|c2 [|c3 [|c4 [|c5 [|]]]]]]]; try discriminate.
  assert (Hlv : level = 1 \/ level = 2 \/ level = 3 \/ level = 4 \/ level = 5
                \/ level = 6) by lia.
  destruct Hlv as [->|[->|[->|[->|[->| ->]]]]]; cbv zeta;
    (split; [reflexivity|]);
    (split; [intros i Hi;
             do 6 (destruct i as [|i]; [try reflexivity; try lia|]); lia|]);
    (split; [reflexivity|]);
    (split; [intros i Hi;
             do 6 (destruct i as [|i]; [try reflexivity; try lia|]); lia|]);
    reflexivity.
Qed.

(** *** Hierarchical numbers, as the specification words them

    The number of a heading has a component for each level up to its own:
    the count of the headings of that level since the last heading of a
    shallower level, the heading itself included. A level without such a
    heading has no component. The components are written as numbers and
    joined by full stops: 2.1.3 is the third heading of level 3 under the
    first of level 2 under the second of level 1. *)

(** The count for level [i], from the levels of the headings read so far,
    the latest first. *)
Fixpoint count_since (i : nat) (earlier : list nat) : N :=
  match earlier with
  | [] => 0
  | l :: rest =>
      if l <? i then 0
      else if l =? i then (count_since i rest + 1)%N
      else count_since i rest
  end.

Definition components (level : nat) (earlier : list nat) : list N :=
  filter (fun c => (0 <? c)%N)
         (map (fun i => count_since i earlier) (seq 1 level)).

Fixpoint join_dot (parts : list jsstring) : jsstring :=
  match parts with
  | [] => []
  | [x] => x
  | x :: rest => x ++ lit "." ++ join_dot rest
  end.

Definition hierarchical_number (level : nat) (earlier : list nat) : jsstring :=
  join_dot (map N_to_string (components level earlier)).

Fixpoint hierarchical_numbers_from (earlier levels : list nat) : list jsstring :=
  match levels with
  | [] => []
  | l :: rest =>
      hierarchical_number l (l :: earlier)
        :: hierarchical_numbers_from (l :: earlier) rest
  end.

Definition hierarchical_numbers (levels : list nat) : list jsstring :=
  hierarchical_numbers_from [] levels.

(** *** The loops of the source compute them *)

(** The step of the loop of [number_string]. *)
Definition append_number (numberStr : jsstring) (n : N) : jsstring :=
  if (0 <? n)%N
  then numberStr ++ (if truthy numberStr then lit "." else []) ++ N_to_string n
  else numberStr.

(** An array that holds the numbers [values]. *)
Definition numbers (values : list N) : array := map (fun n => Some (Num n)) values.

Lemma get_numbers values : forall i n,
  nth_error values i = Some n -> get (numbers values) i = Some (Num n).
Proof.
  induction values as [|v values IH]; intros [|i] n H; try discriminate.
  - now injection H as <-.
  - apply (IH i n H).
Qed.

Lemma number_string_loop values acc : forall count i,
  i + count <= List.length values ->
  for_up count i
    (fun i numberStr =>
       if gt_zero (get (numbers values) i)
       then numberStr ++ (if truthy numberStr then lit "." else [])
                      ++ to_string (get (numbers values) i)
       else numberStr) acc
  = fold_left append_number (firstn count (skipn i values)) acc.
Proof.
  intros count. revert acc.
  induction count as [|count IH]; intros acc i Hi; [reflexivity|].
  destruct (nth_error values i) as [n|] eqn:En.
  2:{ apply nth_error_None in En. lia. }
  cbn [for_up]. rewrite (@get_numbers values i n En). cbn [gt_zero to_string].
  rewrite IH by lia.
  assert (Hs : skipn i values = n :: skipn (S i) values).
  { clear -En. revert i En. induction values as [|v values IH]; intros [|i] H;
      try discriminate.
    - now injection H as <-.
    - apply (IH i H). }
  rewrite Hs. reflexivity.
Qed.

Lemma truthy_join_dot ds :
  truthy (join_dot (map N_to_string ds)) = negb (match ds with [] => true | _ => false end).
Proof.
  destruct ds as [|d ds]; [reflexivity|].
  destruct (N_to_string_head d) as (c & others & Hd & _).
  cbn [map join_dot]. rewrite Hd. now destruct (map N_to_string ds).
Qed.

Lemma join_dot_snoc ds n :
  join_dot (map N_to_string (ds ++ [n]))
  = join_dot (map N_to_string ds)
    ++ (if truthy (join_dot (map N_to_string ds)) then lit "." else [])
    ++ N_to_string n.
Proof.
  rewrite truthy_join_dot.
  induction ds as [|d ds IH]; [reflexivity|].
  cbn [app map]. destruct ds as [|d' ds].
  - reflexivity.
  - change (join_dot (N_to_string d :: map N_to_string ((d' :: ds) ++ [n])))
      with (N_to_string d ++ lit "." ++ join_dot (map N_to_string ((d' :: ds) ++ [n]))).
    rewrite IH. cbn [negb].
    change (join_dot (N_to_string d :: map N_to_string (d' :: ds)))
      with (N_to_string d ++ lit "." ++ join_dot (map N_to_string (d' :: ds))).
    now rewrite <- !app_assoc.
Qed.

Lemma fold_append_number vs : forall ds,
  fold_left append_number vs (join_dot (map N_to_string ds))
  = join_dot (map N_to_string (ds ++ filter (fun c => (0 <? c)%N) vs)).
Proof.
  induction vs as [|v vs IH]; intros ds; cbn [fold_left filter].
  - now rewrite app_nil_r.
  - unfold append_number at 2. destruct (0 <? v)%N.
    + rewrite <- join_dot_snoc, IH, <- app_assoc. reflexivity.
    + apply IH.
Qed.

Lemma number_string_closed level values :
  level <= List.length values ->
  number_string level (numbers values)
  = join_dot (map N_to_string (filter (fun c => (0 <? c)%N) (firstn level values))).
Proof.
  intros H. unfold number_string, for_range. rewrite Nat.sub_0_r.
  rewrite number_string_loop by lia.
  apply (fold_append_number (firstn level (skipn 0 values)) []).
Qed.

(** The six counters after the headings [earlier]. *)
Definition counts (earlier : list nat) : list N :=
  map (fun i => count_since i earlier) (seq 1 6).

Lemma number_heading_counts level numbering earlier :
  1 <= level <= 6 ->
  number_heading level (numbering, numbers (counts earlier))
  = (numbering ++ [hierarchical_number level (level :: earlier)],
     numbers (counts (level :: earlier))).
Proof.
  intros Hl.
  assert (Hstep : number_heading level (numbering, numbers (counts earlier))
                  = (numbering ++ [number_string level (numbers (counts (level :: earlier)))],
                     numbers (counts (level :: earlier)))).
  { assert (Hlv : level = 1 \/ level = 2 \/ level = 3 \/ level = 4 \/ level = 5
                  \/ level = 6) by lia.
    destruct Hlv as [->|[->|[->|[->|[->| ->]]]]]; reflexivity. }
  rewrite Hstep, number_string_closed.
  2:{ unfold counts. rewrite length_map, length_seq. lia. }
  do 3 f_equal. unfold hierarchical_number, components. do 2 f_equal.
  unfold counts. rewrite firstn_map. f_equal.
  assert (Hlv : level = 1 \/ level = 2 \/ level = 3 \/ level = 4 \/ level = 5
                \/ level = 6) by lia.
  destruct Hlv as [->|[->|[->|[->|[->| ->]]]]]; reflexivity.
Qed.

Lemma walk_levels levels : forall numbering earlier,
  Forall (fun l => 1 <= l <= 6) levels ->
  fst (fold_left (fun s lvl => number_heading lvl s) levels
         (numbering, numbers (counts earlier)))
  = numbering ++ hierarchical_numbers_from earlier levels.
Proof.
  induction levels as [|l levels IH]; intros numbering earlier Hall.
  - simpl. now rewrite app_nil_r.
  - inversion Hall as [|? ? Hl Hall']; subst. cbn [fold_left].
    rewrite number_heading_counts by exact Hl.
    rewrite IH by exact Hall'. cbn [hierarchical_numbers_from].
    now rewrite <- app_assoc.
Qed.

Lemma heading_level_positive line l t : match_heading line = Some (l, t) -> 1 <= l.
Proof.
  unfold match_heading. generalize (count_prefix is_hash line) as k.
  induction k as [|k IH]; [discriminate|].
  cbn [hashes_then]. destruct (ws_star_then _ _).
  - intros H. injection H as <- _. lia.
  - exact IH.
Qed.

Lemma heading_levels_positive lines : Forall (fun l => 1 <= l) (heading_levels lines).
Proof.
  unfold heading_levels. induction lines as [|line lines IH]; [constructor|].
  cbn [filter_map]. destruct (match_heading line) as [[l t]|] eqn:E; [|exact IH].
  constructor; [exact (@heading_level_positive line l t E) | exact IH].
Qed.

Lemma numbering_closed lines :
  Forall (fun l => l <= 6) (heading_levels lines) ->
  generateHierarchicalNumbering lines = hierarchical_numbers (heading_levels lines).
Proof.
  intros H6. unfold generateHierarchicalNumbering. rewrite fold_number_line.
  change initial_counters with (numbers (counts [])).
  rewrite walk_levels; [reflexivity|].
  pose proof (heading_levels_positive lines) as H1.
  rewrite Forall_forall in *. intros l Hl. split; [now apply H1 | now apply H6].
Qed.

(** C2. [generateHierarchicalNumbering] walks the lines with six level
    counters: a heading of level 1 to 6 increments the counter of its
    level, leaves the shallower counters as they are and resets all the
    deeper ones to 0, and is numbered with the counters up to its level;
    there is one number for each heading line. For headings of levels 1 to
    6 the numbers it returns are the hierarchical numbers: the components
    of a number are, for each level up to that of the heading, the count
    of the headings of that level since the last shallower heading, joined
    by full stops. For headings of levels [1,1,2,1,2,2], whatever their
    texts and whatever other lines lie between them, the numbers are 1, 2,
    2.1, 3, 3.1, 3.2; for levels [1,1,2,3,3,3] the last number is
    2.1.3. *)
Theorem generateHierarchicalNumbering_hierarchical :
  (forall level numbering counters,
     1 <= level <= 6 -> List.length counters = 6 ->
     let st' := number_heading level (numbering, counters) in
     List.length (snd st') = 6 /\
     (forall i, i < level - 1 -> get (snd st') i = get counters i) /\
     get (snd st') (level - 1) = Some (incr (get counters (level - 1))) /\
     (forall i, level <= i < 6 -> get (snd st') i = Some zero) /\
     fst st' = numbering ++ [number_string level (snd st')]) /\
  (forall lines,
     List.length (generateHierarchicalNumbering lines)
     = List.length (heading_levels lines)) /\
  (forall lines,
     Forall (fun level => level <= 6) (heading_levels lines) ->
     generateHierarchicalNumbering lines
     = hierarchical_numbers (heading_levels lines)) /\
  (forall lines,
     heading_levels lines = [1; 1; 2; 1; 2; 2] ->
     generateHierarchicalNumbering lines
     = map lit ["1"; "2"; "2.1"; "3"; "3.1"; "3.2"]%string) /\
  (forall lines,
     heading_levels lines = [1; 1; 2; 3; 3; 3] ->
     generateHierarchicalNumbering lines
     = map lit ["1"; "2"; "2.1"; "2.1.1"; "2.1.2"; "2.1.3"]%string).
Proof.
  split; [exact number_heading_counters|].
  split; [exact numbering_length|].
  split; [exact numbering_closed|].
  split; intros lines H; rewrite numbering_closed;
    rewrite H; try reflexivity; repeat constructor.
Qed.

(** An outline of seven heading lines on three levels, with a line of
    prose between: the numbers are the hierarchical numbers of the levels
    [1,1,2,3,3,1,2], that is 1, 2, 2.1, 2.1.1, 2.1.2, 3, 3.1. *)
Lemma generateHierarchicalNumbering_hierarchical_witness :
  generateHierarchicalNumbering
    (map lit ["# Intro"; "# Method"; "notes"; "## Data"; "### Sources";
              "### Cleaning"; "# Results"; "## Tables"]%string)
  = map lit ["1"; "2"; "2.1"; "2.1.1"; "2.1.2"; "3"; "3.1"]%string.
Proof.
  rewrite (proj1 (proj2 (proj2 generateHierarchicalNumbering_hierarchical))).
  - reflexivity.
  - repeat constructor.
Defined.

(** C10: the outline [# a], [## b], [# c], [## d]. The numbering of
    send_topic.js resets the counter of level 2 at [# c] and numbers
    [## d] 2.1; the fallback of history_outline.js keeps it and numbers
    [## d] 2.2. *)
Theorem fallback_numbering_differs :
  let lines := map lit ["# a"; "## b"; "# c"; "## d"]%string in
  generateHierarchicalNumbering lines
    = map lit ["1"; "1.1"; "2"; "2.1"]%string /\
  HistoryOutline.generateHierarchicalNumbering lines
    = map lit ["1"; "1.1"; "2"; "2.2"]%string /\
  generateHierarchicalNumbering lines
    <> HistoryOutline.generateHierarchicalNumbering lines.
Proof.
  cbv zeta. split; [reflexivity|]. split; [reflexivity|].
  vm_compute. discriminate.
Qed.

(** ** Children *)

(** Line [j] is a heading of level [lvl]. *)
Definition heading_at (lines : list jsstring) (j lvl : nat) : Prop :=
  exists line t, nth_error lines j = Some line /\ match_heading line = Some (lvl, t).

(** Scanning [lines] from its start, a heading deeper than [cur] comes
    before any heading of level at most [cur]. *)
Definition deeper_comes_first (lines : list jsstring) (cur : nat) : Prop :=
  exists j lvl,
    heading_at lines j lvl /\ cur < lvl /\
    forall k lvl', k < j -> heading_at lines k lvl' -> ~ lvl' <= cur.

Lemma scan_lines_iff lines cur :
  scan_lines lines cur = true <-> deeper_comes_first lines cur.
Proof.
  induction lines as [|l lines IH]; simpl.
  - split; [discriminate|].
    intros (j & lvl & (line & t & Hn & _) & _). destruct j; discriminate.
  - destruct (match_heading l) as [[lvl t]|] eqn:Hm.
    + destruct (Nat.ltb_spec cur lvl) as [Hlt|Hge].
      * split; [intros _|reflexivity].
        exists 0, lvl. split; [exists l, t; auto|]. split; [exact Hlt|].
        intros k lvl' Hk. lia.
      * assert (Hle : (lvl <=? cur) = true) by (apply Nat.leb_le; lia).
        rewrite Hle. split; [discriminate|].
        intros (j & lvl1 & (line & t1 & Hn & Hm1) & Hlt & Hbefore).
        destruct j as [|j].
        -- simpl in Hn. injection Hn as <-. rewrite Hm in Hm1.
           injection Hm1 as <- <-. lia.
        -- exfalso. apply (Hbefore 0 lvl); [lia| |lia].
           exists l, t. auto.
    + rewrite IH. split.
      * intros (j & lvl & (line & t & Hn & Hm1) & Hlt & Hbefore).
        exists (S j), lvl. split; [exists line, t; auto|]. split; [exact Hlt|].
        intros k lvl' Hk (line' & t' & Hn' & Hm').
        destruct k as [|k].
        -- simpl in Hn'. injection Hn' as <-. congruence.
        -- apply (Hbefore k lvl'); [lia|]. exists line', t'. auto.
      * intros (j & lvl & (line & t & Hn & Hm1) & Hlt & Hbefore).
        destruct j as [|j].
        -- simpl in Hn. injection Hn as <-. congruence.
        -- exists j, lvl. split; [exists line, t; auto|]. split; [exact Hlt|].
           intros k lvl' Hk (line' & t' & Hn' & Hm').
           apply (Hbefore (S k) lvl'); [lia|]. exists line', t'. auto.
Qed.

Lemma nth_error_skipn {A} (l : list A) : forall n j,
  nth_error (skipn n l) j = nth_error l (n + j).
Proof.
  induction l as [|x l IH]; intros [|n] j; simpl; auto.
  now destruct j.
Qed.

(** The same scan over the blocks of the side bar. *)
Lemma scan_blocks_iff blocks cur :
  scan_blocks blocks cur = true <->
  exists j b,
    nth_error blocks j = Some b /\ cur < level b /\
    forall k b', k < j -> nth_error blocks k = Some b' -> ~ level b' <= cur.
Proof.
  induction blocks as [|x blocks IH]; simpl.
  - split; [discriminate|]. intros (j & b & Hn & _). destruct j; discriminate.
  - destruct (Nat.ltb_spec cur (level x)) as [Hlt|Hge].
    + split; [intros _|reflexivity].
      exists 0, x. split; [reflexivity|]. split; [exact Hlt|]. intros k b' Hk. lia.
    + assert (Hle : (level x <=? cur) = true) by (apply Nat.leb_le; lia).
      rewrite Hle. split; [discriminate|].
      intros (j & b & Hn & Hlt & Hbefore). destruct j as [|j].
      * simpl in Hn. injection Hn as <-. lia.
      * exfalso. apply (Hbefore 0 x); [lia | reflexivity | lia].
Qed.

(** C7. [hasChildrenItems(outlineLines, currentIndex, currentLevel)] is
    [true] if and only if, scanning forward from [currentIndex + 1], a
    heading line of level strictly greater than [currentLevel] occurs
    before any heading line of level at most [currentLevel]. The method
    of the same name in history_outline.js gives the same answer, and
    [hasChildrenFromBlocks] answers the same question on the blocks of the
    side bar. *)
Theorem hasChildrenItems_iff :
  forall (outlineLines : list jsstring) (currentIndex currentLevel : nat),
    (hasChildrenItems outlineLines currentIndex currentLevel = true <->
     exists j lvl,
       currentIndex < j /\ heading_at outlineLines j lvl /\ currentLevel < lvl /\
       forall k lvl',
         currentIndex < k < j -> heading_at outlineLines k lvl' ->
         ~ lvl' <= currentLevel) /\
    HistoryOutline.hasChildrenItems outlineLines currentIndex currentLevel
    = hasChildrenItems outlineLines currentIndex currentLevel /\
    (forall outlineBlocks : list block,
       hasChildrenFromBlocks outlineBlocks currentIndex currentLevel = true <->
       exists j b,
         currentIndex < j /\ nth_error outlineBlocks j = Some b /\
         currentLevel < level b /\
         forall k b',
           currentIndex < k < j -> nth_error outlineBlocks k = Some b' ->
           ~ level b' <= currentLevel).
Proof.
  intros lines i cur. split; [|split; [reflexivity|]].
  2:{ intros blocks. unfold hasChildrenFromBlocks. rewrite scan_blocks_iff.
      split.
      - intros (j & b & Hn & Hlt & Hbefore). rewrite nth_error_skipn in Hn.
        exists (S i + j), b. split; [lia|]. split; [exact Hn|].
        split; [exact Hlt|]. intros k b' Hk Hn'.
        apply (Hbefore (k - S i) b'); [lia|].
        rewrite nth_error_skipn. now replace (S i + (k - S i)) with k by lia.
      - intros (j & b & Hj & Hn & Hlt & Hbefore).
        exists (j - S i), b. split.
        + rewrite nth_error_skipn. now replace (S i + (j - S i)) with j by lia.
        + split; [exact Hlt|]. intros k b' Hk Hn'.
          rewrite nth_error_skipn in Hn'.
          apply (Hbefore (S i + k) b'); [lia | exact Hn']. }
  unfold hasChildrenItems. rewrite scan_lines_iff. unfold deeper_comes_first.
  split.
  - intros (j & lvl & (line & t & Hn & Hm) & Hlt & Hbefore).
    rewrite nth_error_skipn in Hn.
    exists (S i + j), lvl. split; [lia|].
    split; [exists line, t; auto|]. split; [exact Hlt|].
    intros k lvl' Hk (line' & t' & Hn' & Hm').
    apply (Hbefore (k - S i) lvl'); [lia|].
    exists line', t'. rewrite nth_error_skipn.
    replace (S i + (k - S i)) with k by lia. auto.
  - intros (j & lvl & Hj & (line & t & Hn & Hm) & Hlt & Hbefore).
    exists (j - S i), lvl. split.
    + exists line, t. rewrite nth_error_skipn.
      replace (S i + (j - S i)) with j by lia. auto.
    + split; [exact Hlt|].
      intros k lvl' Hk (line' & t' & Hn' & Hm').
      rewrite nth_error_skipn in Hn'.
      apply (Hbefore (S i + k) lvl'); [lia|]. exists line', t'. auto.
Qed.

End OutlineFacts.

(* ================================================================== *)
(** * Properties: the outline as text and back                         *)
(* ================================================================== *)

Module RoundTripFacts.

Import SendTopic.

(** A text a heading line gives back: it is not empty, does not begin
    with white space, and holds no line terminator. *)
Definition clean_text (t : jsstring) : bool :=
  match t with
  | [] => false
  | c :: _ =>
      negb (is_white_space c) && forallb (fun x => negb (is_line_terminator x)) t
  end.

Definition no_newline (s : jsstring) : Prop := ~ In newline s.

(** *** Splitting and joining *)

Lemma split_acc_app_line x : forall cur s,
  no_newline x -> split_acc cur (x ++ s) = split_acc (List.rev x ++ cur) s.
Proof.
  induction x as [|c x IH]; intros cur s Hx; [reflexivity|].
  simpl. destruct (N.eqb_spec c newline) as [->|Hc].
  - exfalso. apply Hx. now left.
  - rewrite IH by (intros H; apply Hx; now right).
    now rewrite <- app_assoc.
Qed.

Lemma split_acc_nonempty cur s : split_acc cur s <> [].
Proof.
  revert cur. induction s as [|c s IH]; intros cur; simpl; [discriminate|].
  destruct (c =? newline)%N; [discriminate | apply IH].
Qed.

Lemma split_nl_line x : no_newline x -> split_nl x = [x].
Proof.
  intros Hx. unfold split_nl.
  rewrite <- (app_nil_r x) at 1. rewrite split_acc_app_line by assumption.
  simpl. now rewrite app_nil_r, rev_involutive.
Qed.

Lemma split_nl_cons_line x s :
  no_newline x -> split_nl (x ++ newline :: s) = x :: split_nl s.
Proof.
  intros Hx. unfold split_nl. rewrite split_acc_app_line by assumption.
  simpl. now rewrite app_nil_r, rev_involutive.
Qed.

Lemma split_join ls :
  ls <> [] -> Forall no_newline ls -> split_nl (join_nl ls) = ls.
Proof.
  induction ls as [|l ls IH]; intros Hne Hall; [congruence|].
  inversion Hall as [|? ? Hl Hls]; subst.
  destruct ls as [|l' ls].
  - simpl. now apply split_nl_line.
  - change (join_nl (l :: l' :: ls)) with (l ++ newline :: join_nl (l' :: ls)).
    rewrite split_nl_cons_line by assumption.
    f_equal. apply IH; [discriminate | assumption].
Qed.

(** *** A line written for a block is read back *)

Lemma count_prefix_hashes n s :
  match s with c :: _ => is_hash c = false | [] => True end ->
  count_prefix is_hash (hashes n ++ s) = n.
Proof.
  intros Hs. unfold hashes. induction n as [|n IH]; cbn [repeat app count_prefix].
  - destruct s as [|c s]; [reflexivity|]. cbn [count_prefix]. now rewrite Hs.
  - change (is_hash hash) with true. cbv iota. now rewrite IH.
Qed.

Lemma skipn_hashes n s : skipn n (hashes n ++ s) = s.
Proof. induction n; simpl; auto. Qed.

Lemma clean_text_dot_plus_end t :
  clean_text t = true -> dot_plus_end t = Some t.
Proof.
  destruct t as [|c t]; [discriminate|]. unfold clean_text, dot_plus_end.
  intros H. apply andb_prop in H as [_ H]. now rewrite H.
Qed.

Lemma clean_text_count_ws t :
  clean_text t = true -> count_prefix is_white_space t = 0.
Proof.
  destruct t as [|c t]; [discriminate|]. unfold clean_text.
  intros H. apply andb_prop in H as [H _]. simpl.
  now destruct (is_white_space c).
Qed.

Lemma match_heading_written n t :
  1 <= n -> clean_text t = true ->
  match_heading (hashes n ++ lit " " ++ t) = Some (n, t).
Proof.
  intros Hn Ht. unfold match_heading.
  rewrite count_prefix_hashes by reflexivity.
  destruct n as [|n]; [lia|].
  cbn [hashes_then]. rewrite skipn_hashes.
  change (lit " " ++ t) with (32%N :: t).
  cbn [count_prefix]. change (is_white_space 32%N) with true. cbv iota.
  rewrite clean_text_count_ws by assumption.
  cbn [ws_star_then skipn]. now rewrite clean_text_dot_plus_end.
Qed.

Lemma test_heading_prefix_written n t :
  1 <= n -> test_heading_prefix (hashes n ++ lit " " ++ t) = true.
Proof.
  intros Hn. unfold test_heading_prefix.
  rewrite count_prefix_hashes by reflexivity.
  destruct n as [|n]; [lia|].
  cbn [hashes_then_ws]. rewrite skipn_hashes. reflexivity.
Qed.

Lemma clean_text_no_newline t : clean_text t = true -> no_newline t.
Proof.
  destruct t as [|c t]; [discriminate|]. unfold clean_text.
  intros H. apply andb_prop in H as [_ H].
  rewrite forallb_forall in H. intros Hin. specialize (H _ Hin).
  discriminate.
Qed.

Lemma hashes_no_newline n : no_newline (hashes n).
Proof.
  unfold no_newline, hashes. intros H. apply repeat_spec in H. discriminate.
Qed.

Lemma block_line_no_newline b :
  clean_text (textContent b) = true -> no_newline (block_line b).
Proof.
  intros Ht H. unfold block_line in H.
  apply in_app_or in H as [H|H]; [now apply (hashes_no_newline (level_or_1 b))|].
  apply in_app_or in H as [H|H].
  - destruct H as [H|[]]. discriminate.
  - now apply (clean_text_no_newline _ Ht).
Qed.

Lemma level_or_1_pos b : 1 <= level b -> level_or_1 b = level b.
Proof. unfold level_or_1. destruct (level b); [lia | reflexivity]. Qed.

Lemma block_line_read b :
  1 <= level b -> clean_text (textContent b) = true ->
  test_heading_prefix (block_line b) = true /\
  match_heading (block_line b) = Some (node_of b).
Proof.
  intros Hl Ht. unfold block_line, node_of. rewrite level_or_1_pos by assumption.
  split.
  - now apply test_heading_prefix_written.
  - now apply match_heading_written.
Qed.

(** The round trip on blocks that are clean. *)
Lemma round_trip_clean blocks :
  Forall (fun b => 1 <= level b /\ clean_text (textContent b) = true) blocks ->
  parse_outline (updateOutlineData blocks) = map node_of blocks.
Proof.
  intros Hall. unfold parse_outline, outline_lines, updateOutlineData.
  destruct blocks as [|b0 blocks0]; [reflexivity|].
  set (blocks := b0 :: blocks0) in *.
  rewrite split_join.
  - clearbody blocks. induction Hall as [|b bs [Hl Ht] _ IH]; [reflexivity|].
    destruct (block_line_read b Hl Ht) as [H1 H2].
    cbn [map filter]. rewrite H1. cbn [filter_map]. rewrite H2.
    now rewrite IH.
  - discriminate.
  - clearbody blocks. induction Hall as [|b bs [Hl Ht] _ IH]; constructor; auto.
    now apply block_line_no_newline.
Qed.

(** *** Every block the editor shows has a level of at least 1 *)

Lemma hashes_then_level k line : forall lvl t,
  hashes_then k line = Some (lvl, t) -> 1 <= lvl.
Proof.
  induction k as [|k IH]; intros lvl t; simpl; [discriminate|].
  destruct (ws_star_then _ _).
  - intros H. injection H as <- _. lia.
  - apply IH.
Qed.

Lemma match_heading_level line lvl t :
  match_heading line = Some (lvl, t) -> 1 <= lvl.
Proof. apply hashes_then_level. Qed.

Lemma filter_map_levels lines :
  Forall (fun n => 1 <= fst n) (filter_map match_heading lines).
Proof.
  induction lines as [|l lines IH]; simpl; [constructor|].
  destruct (match_heading l) as [[lvl t]|] eqn:E; [|assumption].
  constructor; [|assumption]. simpl. eapply match_heading_level; eauto.
Qed.

Lemma choice_value_pos c : 1 <= choice_value c.
Proof. destruct c; simpl; lia. Qed.

Section Levels.

Variable P : block -> Prop.

Lemma Forall_update_nth i b l : P b -> Forall P l -> Forall P (update_nth i b l).
Proof.
  intros Hb Hl. revert i.
  induction Hl as [|x l Hx Hl IH]; intros [|i]; simpl; constructor; auto.
Qed.

Lemma Forall_remove_nth i l : Forall P l -> Forall P (remove_nth i l).
Proof.
  intros Hl. revert i.
  induction Hl as [|x l Hx Hl IH]; intros [|i]; simpl;
    try assumption; constructor; auto.
Qed.

Lemma Forall_insert_at i b l : P b -> Forall P l -> Forall P (insert_at i b l).
Proof.
  intros Hb Hl. revert i.
  induction Hl as [|x l Hx Hl IH]; intros [|i]; simpl;
    repeat (constructor; auto).
Qed.

End Levels.

Lemma reachable_levels markup_text blocks :
  reachable markup_text blocks -> Forall (fun b => 1 <= level b) blocks.
Proof.
  induction 1 as [content | a blocks Hr IH].
  - unfold displayOutlineInSidebar, parse_outline.
    generalize (filter_map_levels (outline_lines content)).
    induction 1; simpl; constructor; auto.
  - destruct a as [itemText c | i itemText c | i | i before]; simpl.
    + unfold dialog_confirm. destruct (truthy (trim itemText)); [|assumption].
      apply Forall_app. split; [assumption|].
      constructor; [apply choice_value_pos | constructor].
    + unfold dialog_confirm. destruct (truthy (trim itemText)); [|assumption].
      destruct (nth_error blocks i); [|assumption].
      apply Forall_update_nth; [apply choice_value_pos | assumption].
    + now apply Forall_remove_nth.
    + destruct (nth_error blocks i) as [b|] eqn:E; [|assumption].
      assert (Hb : 1 <= level b).
      { rewrite Forall_forall in IH. apply IH. eapply nth_error_In; eauto. }
      destruct before as [j|].
      * apply Forall_insert_at; [assumption|]. now apply Forall_remove_nth.
      * apply Forall_app. split; [now apply Forall_remove_nth|].
        constructor; [assumption | constructor].
Qed.

(** *** What the dialog hands over *)

Lemma drop_while_split p s : exists w, s = w ++ drop_while p s.
Proof.
  induction s as [|c s [w IH]]; simpl.
  - now exists [].
  - destruct (p c).
    + exists (c :: w). simpl. now rewrite <- IH.
    + now exists [].
Qed.

Lemma drop_while_head p s :
  match drop_while p s with c :: _ => p c = false | [] => True end.
Proof.
  induction s as [|c s IH]; simpl; [exact I|].
  destruct (p c) eqn:E; [exact IH | exact E].
Qed.

Lemma trim_head s :
  match trim s with c :: _ => is_white_space c = false | [] => True end.
Proof.
  unfold trim. set (u := drop_while is_white_space s).
  pose proof (drop_while_head is_white_space s) as Hu. fold u in Hu.
  destruct (drop_while_split is_white_space (List.rev u)) as [w Hw].
  set (v := drop_while is_white_space (List.rev u)) in *.
  assert (Hu' : u = List.rev v ++ List.rev w).
  { rewrite <- rev_app_distr, <- Hw. now rewrite rev_involutive. }
  destruct (List.rev v) as [|c r]; [exact I|].
  rewrite Hu' in Hu. exact Hu.
Qed.

(** A text confirmed in the dialog is clean as soon as it holds no line
    terminator. *)
Lemma dialog_confirm_clean itemText c t l :
  dialog_confirm itemText c = Some (t, l) ->
  forallb (fun x => negb (is_line_terminator x)) t = true ->
  clean_text t = true.
Proof.
  unfold dialog_confirm. pose proof (trim_head itemText) as Hh.
  destruct (trim itemText) as [|x r]; simpl; [discriminate|].
  intros H. injection H as <- _. intros Ht.
  unfold clean_text. rewrite Hh. exact Ht.
Qed.

(** C6, as stated, fails: the outline [# a] is displayed, and its item is
    edited to the text "a", U+2028, "b". The line written for the block is
    not matched by the heading expression, whose [.] stops at a line
    separator, and the node is lost. *)
Lemma round_trip_fails_on_line_separator :
  let shown := displayOutlineInSidebar (fun s => s) (lit "# a") in
  let blocks :=
    perform (fun s => s) (Edit 0 (lit "a" ++ [8232%N] ++ lit "b") Level1) shown in
  reachable (fun s => s) blocks /\
  map node_of blocks = [(1, lit "a" ++ [8232%N] ++ lit "b")] /\
  parse_outline (updateOutlineData blocks) = [] /\
  parse_outline (updateOutlineData blocks) <> map node_of blocks.
Proof.
  cbv zeta. split; [apply reach_perform, reach_display|].
  split; [reflexivity|]. split; [reflexivity|].
  vm_compute. discriminate.
Qed.

(** C6, amended. For every node list reachable by Add, Edit, Delete and
    Reorder in which no text is empty, begins with white space or holds a
    line terminator (LF, CR, U+2028, U+2029), the lines
    ['#'.repeat(level) + ' ' + text] joined by newline are parsed back by
    the filter and the heading expression to the same (level, text) pairs
    in the same order. *)
Theorem outline_round_trip :
  forall (markup_text : jsstring -> jsstring) (blocks : list block),
    reachable markup_text blocks ->
    Forall (fun b => clean_text (textContent b) = true) blocks ->
    parse_outline (updateOutlineData blocks) = map node_of blocks.
Proof.
  intros markup_text blocks Hr Hc.
  apply round_trip_clean.
  pose proof (reachable_levels Hr) as Hl.
  rewrite Forall_forall in *. intros b Hb. split; auto.
Qed.

(** An outline of two headings is displayed, a third is added, the first
    is renamed and then dragged to the end. *)
Lemma outline_round_trip_witness :
  let blocks :=
    perform (fun s => s) (Drag 0 None)
      (perform (fun s => s) (Edit 0 (lit "  Scope ") Level2)
         (perform (fun s => s) (Add (lit "Results") Level1)
            (displayOutlineInSidebar (fun s => s)
               (lit "# Intro" ++ [newline] ++ lit "## Method")))) in
  map node_of blocks
    = [(2, lit "Method"); (1, lit "Results"); (2, lit "Scope")] /\
  parse_outline (updateOutlineData blocks) = map node_of blocks.
Proof.
  cbv zeta. split; [reflexivity|].
  apply (@outline_round_trip (fun s => s)).
  - do 3 apply reach_perform. apply reach_display.
  - repeat constructor.
Defined.

End RoundTripFacts.

(* ================================================================== *)
(** * Properties: the read loop                                        *)
(* ================================================================== *)

Module StreamFacts.

Import Article RoundTripFacts.

(** The lines of a text that a newline has completed, and what follows the
    last newline. *)
Definition complete_lines (text : jsstring) : list jsstring :=
  removelast (split_nl text).

Definition pending (text : jsstring) : jsstring :=
  last (split_nl text) [].

(** The handler that only records the lines it is given. *)
Definition record (line : jsstring) (seen : list jsstring)
  : list jsstring * completion :=
  (seen ++ [line], Normal).

(** What the loop hands over for a list of split lines. *)
Definition handed (lines : list jsstring) : list jsstring :=
  map trim (filter (fun line => truthy (trim line)) lines).

Lemma join_split_acc s : forall cur,
  join_nl (split_acc cur s) = List.rev cur ++ s.
Proof.
  induction s as [|c s IH]; intros cur; simpl.
  - now rewrite app_nil_r.
  - destruct (N.eqb_spec c newline) as [->|Hc].
    + pose proof (split_acc_nonempty [] s) as Hne.
      specialize (IH []). simpl in IH.
      destruct (split_acc [] s) as [|l ls]; [congruence|].
      change (join_nl (List.rev cur :: l :: ls))
        with (List.rev cur ++ newline :: join_nl (l :: ls)).
      now rewrite IH.
    + rewrite IH. simpl. now rewrite <- app_assoc.
Qed.

Lemma join_split text : join_nl (split_nl text) = text.
Proof. apply join_split_acc. Qed.

Lemma split_acc_pieces s : forall cur,
  no_newline cur -> Forall no_newline (split_acc cur s).
Proof.
  induction s as [|c s IH]; intros cur Hcur; simpl.
  - constructor; [|constructor]. intros H. apply Hcur. now apply in_rev.
  - destruct (N.eqb_spec c newline) as [->|Hc].
    + constructor.
      * intros H. apply Hcur. now apply in_rev.
      * apply IH. intros [].
    + apply IH. intros [H|H]; [congruence | now apply Hcur].
Qed.

Lemma split_nl_pieces text : Forall no_newline (split_nl text).
Proof. apply split_acc_pieces. intros []. Qed.

Lemma split_nl_nonempty text : split_nl text <> [].
Proof. apply split_acc_nonempty. Qed.

Lemma split_nl_parts text : split_nl text = complete_lines text ++ [pending text].
Proof. apply app_removelast_last, split_nl_nonempty. Qed.

Lemma pending_no_newline text : no_newline (pending text).
Proof.
  pose proof (split_nl_pieces text) as H. rewrite split_nl_parts in H.
  apply Forall_app in H as [_ H]. now inversion H.
Qed.

(** Splitting a text extended by a chunk: the completed lines stay, and
    the rest is split again with the chunk appended. *)
Lemma split_acc_app s1 s2 : forall cur,
  no_newline cur ->
  split_acc cur (s1 ++ s2)
  = removelast (split_acc cur s1) ++ split_nl (last (split_acc cur s1) [] ++ s2).
Proof.
  induction s1 as [|c s1 IH]; intros cur Hcur.
  - simpl. unfold split_nl. rewrite split_acc_app_line.
    + now rewrite rev_involutive, app_nil_r.
    + intros H. apply Hcur. now apply in_rev.
  - simpl. destruct (N.eqb_spec c newline) as [->|Hc].
    + pose proof (split_acc_nonempty [] s1) as Hne.
      rewrite IH by (intros []).
      destruct (split_acc [] s1) as [|l ls] eqn:E; [congruence|].
      reflexivity.
    + apply IH. intros [H|H]; [congruence | now apply Hcur].
Qed.

Lemma split_nl_app text chunk :
  split_nl (text ++ chunk)
  = complete_lines text ++ split_nl (pending text ++ chunk).
Proof. apply split_acc_app. intros []. Qed.

Lemma complete_lines_app text chunk :
  complete_lines (text ++ chunk)
  = complete_lines text ++ complete_lines (pending text ++ chunk).
Proof.
  unfold complete_lines at 1. rewrite split_nl_app.
  rewrite removelast_app by apply split_nl_nonempty. reflexivity.
Qed.

Lemma last_app_right {A} (l l' : list A) d :
  l' <> [] -> last (l ++ l') d = last l' d.
Proof.
  intros Hne. induction l as [|x l IH]; [reflexivity|].
  simpl. rewrite IH. destruct (l ++ l') eqn:E; [|reflexivity].
  apply app_eq_nil in E as [_ E]. congruence.
Qed.

Lemma pending_app text chunk :
  pending (text ++ chunk) = pending (pending text ++ chunk).
Proof.
  unfold pending at 1. rewrite split_nl_app.
  rewrite last_app_right by apply split_nl_nonempty. reflexivity.
Qed.

Lemma pending_of_line x : no_newline x -> pending x = x /\ complete_lines x = [].
Proof.
  intros Hx. unfold pending, complete_lines. now rewrite split_nl_line.
Qed.

Section Loop.

Variable St : Type.
Variable handle : jsstring -> St -> St * completion.

Lemma for_lines_app l1 l2 s :
  for_lines handle (l1 ++ l2) s =
  match for_lines handle l1 s with
  | (s', Normal) => for_lines handle l2 s'
  | (s', Throws e) => (s', Throws e)
  end.
Proof.
  revert s. induction l1 as [|l l1 IH]; intros s; simpl; [reflexivity|].
  destruct (truthy (trim l)); [|apply IH].
  destruct (handle (trim l) s) as [s' [|e]]; [apply IH | reflexivity].
Qed.

(** The turns of the loop amount to one pass over the completed lines of
    all the text read; while nothing is thrown, the buffer is what follows
    the last newline. *)
Lemma read_chunks_spec chunks : forall buffer s,
  no_newline buffer ->
  snd (read_chunks handle chunks buffer s)
    = for_lines handle (complete_lines (buffer ++ List.concat chunks)) s /\
  (snd (snd (read_chunks handle chunks buffer s)) = Normal ->
   fst (read_chunks handle chunks buffer s) = pending (buffer ++ List.concat chunks)).
Proof.
  induction chunks as [|chunk chunks IH]; intros buffer s Hb.
  - simpl. rewrite app_nil_r.
    destruct (pending_of_line Hb) as [-> ->]. auto.
  - cbn [read_chunks List.concat]. unfold on_chunk.
    fold (complete_lines (buffer ++ chunk)). fold (pending (buffer ++ chunk)).
    rewrite (app_assoc buffer chunk (List.concat chunks)).
    remember (buffer ++ chunk) as t eqn:Et.
    rewrite (complete_lines_app t), (pending_app t), for_lines_app.
    destruct (for_lines handle (complete_lines t) s) as [s' [|e]].
    + apply IH, pending_no_newline.
    + simpl. split; [reflexivity | discriminate].
Qed.

(** A stream that ends normally is handled as the lines of its text. *)
Lemma read_stream_done chunks s :
  read_stream handle chunks Done s
  = for_lines handle (split_nl (List.concat chunks)) s.
Proof.
  unfold read_stream.
  destruct (@read_chunks_spec chunks [] s) as [H1 H2]; [intros []|].
  simpl app in *. rewrite split_nl_parts, for_lines_app, <- H1.
  destruct (read_chunks handle chunks [] s) as [buffer [s' [|e]]]; simpl in *.
  - rewrite <- H2 by reflexivity.
    destruct (truthy (trim buffer)); [|reflexivity].
    now destruct (handle (trim buffer) s') as [s'' [|e]].
  - reflexivity.
Qed.

(** A stream whose read fails is handled as the completed lines of its
    text, then the failure is thrown. *)
Lemma read_stream_fails chunks s :
  read_stream handle chunks ReadFails s
  = match for_lines handle (complete_lines (List.concat chunks)) s with
    | (s', Normal) => (s', Throws OtherError)
    | (s', Throws e) => (s', Throws e)
    end.
Proof.
  unfold read_stream.
  destruct (@read_chunks_spec chunks [] s) as [H1 _]; [intros []|].
  simpl app in *. rewrite <- H1.
  now destruct (read_chunks handle chunks [] s) as [buffer [s' [|e]]].
Qed.

End Loop.

Lemma for_lines_record lines : forall seen,
  for_lines record lines seen = (seen ++ handed lines, Normal).
Proof.
  unfold handed.
  induction lines as [|l lines IH]; intros seen; simpl.
  - now rewrite app_nil_r.
  - destruct (truthy (trim l)); [|apply IH].
    unfold record at 1. rewrite IH. simpl. now rewrite <- app_assoc.
Qed.

Lemma join_ends_with ls b :
  (ls = [] /\ join_nl (ls ++ [b]) = b) \/
  exists before, join_nl (ls ++ [b]) = before ++ newline :: b.
Proof.
  destruct ls as [|l ls]; [left; auto | right].
  revert l. induction ls as [|l' ls IH]; intros l.
  - now exists l.
  - destruct (IH l') as [before Hbefore].
    exists (l ++ newline :: before).
    change (join_nl ((l :: l' :: ls) ++ [b]))
      with (l ++ newline :: join_nl ((l' :: ls) ++ [b])).
    rewrite Hbefore. now rewrite <- app_assoc.
Qed.

(** C8, as stated, fails on its last clauses. One chunk holds "a", a
    newline and " b ": the handler has received "a" and the buffer is
    " b ", and their concatenation is not the text decoded, which has the
    newline. And when a stream ends on a remainder of two spaces, the
    remainder is not empty, yet it is not handed over. *)
Lemma handed_lines_do_not_concatenate_to_text :
  let chunks := [lit "a" ++ [newline] ++ lit " b "] in
  let state := read_chunks record chunks [] [] in
  fst state = lit " b " /\
  fst (snd state) = [lit "a"] /\
  List.concat (fst (snd state)) ++ fst state <> List.concat chunks /\
  read_stream record [lit "a" ++ [newline] ++ lit "  "] Done []
    = ([lit "a"], Normal).
Proof.
  cbv zeta. split; [reflexivity|]. split; [reflexivity|].
  split; [vm_compute; discriminate | reflexivity].
Qed.

(** C8, amended. After any chunks have been decoded, the buffer of the read loop is
    the text that follows the last newline of all the text decoded so far
    (all of it when there is none), and holds no newline; the lines handed
    to [handleStreamLine] are the trimmed non-blank lines among those a
    newline has completed, in order, so that a partial line is not handed
    over; the completed lines and the buffer, joined by newlines, are the
    text decoded so far; and when the stream ends, the remainder is handed
    over once, trimmed, if it is not blank. For any handler, the turns of
    the loop are one pass over the completed lines. *)
Theorem read_loop_buffer :
  forall (chunks : list jsstring),
    let text := List.concat chunks in
    let state := read_chunks record chunks [] [] in
    let buffer := fst state in
    snd state = (handed (complete_lines text), Normal) /\
    no_newline buffer /\
    ((no_newline text /\ buffer = text) \/
     exists before, text = before ++ newline :: buffer) /\
    Forall no_newline (complete_lines text) /\
    join_nl (complete_lines text ++ [buffer]) = text /\
    read_stream record chunks Done []
      = (handed (complete_lines text)
           ++ (if truthy (trim buffer) then [trim buffer] else []), Normal) /\
    (forall (St : Type) (handle : jsstring -> St -> St * completion) (s : St),
       snd (read_chunks handle chunks [] s)
       = for_lines handle (complete_lines text) s).
Proof.
  intros chunks text state buffer.
  destruct (@read_chunks_spec _ record chunks [] []) as [H1 H2]; [intros []|].
  simpl app in H1, H2. fold text in H1, H2. fold state in H1, H2.
  rewrite for_lines_record in H1. simpl app in H1.
  assert (Hb : buffer = pending text).
  { apply H2. now rewrite H1. }
  split; [exact H1|].
  split; [rewrite Hb; apply pending_no_newline|].
  split.
  { pose proof (join_split text) as Hj. rewrite split_nl_parts in Hj.
    rewrite <- Hb in Hj.
    destruct (join_ends_with (complete_lines text) buffer) as [[_ Hj']|[before Hj']].
    - left. rewrite Hj in Hj'. split; [|now symmetry].
      rewrite Hj', Hb. apply pending_no_newline.
    - right. exists before. now rewrite <- Hj. }
  split.
  { pose proof (split_nl_pieces text) as H. rewrite split_nl_parts in H.
    now apply Forall_app in H as [H _]. }
  split.
  { rewrite Hb, <- split_nl_parts. apply join_split. }
  split.
  { rewrite read_stream_done. fold text.
    rewrite split_nl_parts, for_lines_app, for_lines_record.
    simpl app. rewrite <- Hb. simpl.
    destruct (truthy (trim buffer)); [reflexivity|].
    now rewrite app_nil_r. }
  intros St handle s.
  destruct (@read_chunks_spec _ handle chunks [] s) as [H _]; [intros []|].
  exact H.
Qed.

End StreamFacts.

(* ================================================================== *)
(** * Properties: chapters in the article container                    *)
(* ================================================================== *)

Module ChapterFacts.

Import Article NumberFacts.

(** The index a chapter node shows in its [id]. *)
Definition node_index (e : element) : option Z :=
  parseInt (replace_first (lit "chapter-") [] (id e)).



(** Insertion before the first child that satisfies [above]. *)
Fixpoint place (above : element -> bool) (x : element) (children : list element)
  : list element :=
  match children with
  | [] => [x]
  | e :: rest => if above e then x :: e :: rest else e :: place above x rest
  end.


(** The chapter nodes with an index above that of [data]. *)
Definition above (data : chapterData) (e : element) : bool :=
  has_class chapter_item e && greater (node_index e) (index data).


(** The selection, the search and the insertion amount to [place]. *)
Lemma select_first_place sel q x children : forall pos,
  match first_match q (select_from pos sel children) with
  | Some (k, _) =>
      pos <= k /\
      insertBefore x (k - pos) children = place (fun e => sel e && q e) x children
  | None => appendChild x children = place (fun e => sel e && q e) x children
  end.
Proof.
  unfold appendChild.
  induction children as [|e rest IH]; intros pos; simpl; [reflexivity|].
  destruct (sel e) eqn:Es; simpl.
  - destruct (q e) eqn:Eq.
    + split; [lia|]. now rewrite Nat.sub_diag.
    + specialize (IH (S pos)).
      destruct (first_match q (select_from (S pos) sel rest)) as [[k e']|].
      * destruct IH as [Hk IH]. split; [lia|].
        replace (k - pos) with (S (k - S pos)) by lia. simpl. now rewrite IH.
      * now rewrite IH.
  - specialize (IH (S pos)).
    destruct (first_match q (select_from (S pos) sel rest)) as [[k e']|].
    + destruct IH as [Hk IH]. split; [lia|].
      replace (k - pos) with (S (k - S pos)) by lia. simpl. now rewrite IH.
    + now rewrite IH.
Qed.

Lemma createChapterElement_formatted data v :
  formatChapterContent (chapter_content data) = Normal ->
  createChapterElement data v = Some (chapterElementFor v).
Proof. intros H. unfold createChapterElement. now rewrite H. Qed.

Lemma createChapterElement_throws data v e :
  formatChapterContent (chapter_content data) = Throws e ->
  createChapterElement data v = None.
Proof. intros H. unfold createChapterElement. now rewrite H. Qed.

Lemma createCollapsibleChapter_place data p children :
  formatChapterContent (chapter_content data) = Normal ->
  container p = Some children ->
  createCollapsibleChapter data p
  = (set_container
       (Some (place (above data) (chapterElementFor (index data)) children)) p,
     Normal).
Proof.
  intros Hf Hc. unfold createCollapsibleChapter.
  rewrite (createChapterElement_formatted _ _ Hf), Hc.
  unfold querySelectorAll.
  pose proof (select_first_place (has_class chapter_item)
                (fun e => greater (parseInt (replace_first (lit "chapter-") [] (id e)))
                                  (index data))
                (chapterElementFor (index data)) children 0) as H.
  destruct (first_match _ _) as [[k e]|].
  - destruct H as [_ H]. rewrite Nat.sub_0_r in H. now rewrite H.
  - now rewrite H.
Qed.

(** A chapter is rendered, or the page is left as it is and an error is
    thrown. *)
Lemma createCollapsibleChapter_cases data p :
  (exists children,
     formatChapterContent (chapter_content data) = Normal /\
     container p = Some children /\
     createCollapsibleChapter data p
     = (set_container
          (Some (place (above data) (chapterElementFor (index data)) children)) p,
        Normal)) \/
  ((formatChapterContent (chapter_content data) <> Normal \/ container p = None) /\
   createCollapsibleChapter data p = (p, Throws OtherError)).
Proof.
  destruct (formatChapterContent (chapter_content data)) as [|e] eqn:Hf.
  - destruct (container p) as [children|] eqn:Hc.
    + left. exists children. split; [reflexivity|]. split; [reflexivity|].
      now apply createCollapsibleChapter_place.
    + right. split; [now right|]. unfold createCollapsibleChapter.
      rewrite (createChapterElement_formatted _ _ Hf), Hc. reflexivity.
  - right. split; [left; discriminate|]. unfold createCollapsibleChapter.
    now rewrite (createChapterElement_throws _ _ Hf).
Qed.













End ChapterFacts.

(* ================================================================== *)
(** * Properties: a chapter error in the stream                        *)
(* ================================================================== *)

Module ChapterErrorFacts.

Import Article StreamFacts ChapterFacts.













(** *** The container stays in place while lines are handled *)









(** *** The run *)





(** A parser that agrees with [JSON.parse] on the two payloads of the
    example below: the text [oops] is not JSON, and the text of
    [sample_payload] is an object whose index is 0. *)
Definition sample_payload : jsstring :=
  lit "{" ++ [34%N] ++ lit "index" ++ [34%N] ++ lit ":0}".

Definition sample_parse (s : jsstring) : json_body chapterData :=
  if str_eqb s sample_payload
  then JsonObject {| index := Int 0; chapter_content := Falsy |}
  else NotJson.

Definition sample_page : page :=
  {| container := Some [];
     window_totalChapters := Some 1%Z;
     window_completedChaptersCount := Some 0%Z;
     totalChapters := 1; completedChaptersCount := 0;
     window_outlineData := Assigned (lit "# One"); outlineData := lit "# One";
     currentOutlineText := lit "# One";
     window_displayArticleComplete := true;
     window_handleStreamLine := true;
     window_cleanupLoadingStates := true;
     log := [] |}.





End ChapterErrorFacts.

(* ================================================================== *)
(** * Properties: retrying a chapter                                   *)
(* ================================================================== *)

Module RetryFacts.

Import Article ChapterFacts.


(** The reply to a retry that carries a chapter. *)
Definition chapter_received (result : single_chapter) : Prop :=
  error result = false /\ truthy (content result) = true.

Lemma In_place ab x l : In x (place ab x l).
Proof.
  induction l as [|e l IH]; simpl; [now left|].
  destruct (ab e); [now left | now right].
Qed.

Lemma getElementById_container x p e :
  getElementById x p = Some e -> exists children, container p = Some children.
Proof.
  unfold getElementById. destruct (container p) as [c|]; [|discriminate].
  now exists c.
Qed.

Lemma log_continue_progress p : log (continue_progress p) = log p.
Proof.
  unfold continue_progress.
  destruct (getElementById _ p); [reflexivity|].
  destruct (container p); [|reflexivity].
  now destruct (first_match _ _) as [[pos e]|].
Qed.

(** The chapter a successful retry renders. *)
Definition retried_chapter (chapterIndex : Z) (result : single_chapter)
  : chapterData :=
  {| index := Int chapterIndex; chapter_content := Text (content result) |}.

(** The page after the chapter of a successful retry is placed. *)
Definition chapter_placed (chapterIndex : Z) (result : single_chapter) (p : page)
  : page :=
  fst (createCollapsibleChapter (retried_chapter chapterIndex result)
         (remove_by_id (lit "chapter-error-" ++ Z_to_string chapterIndex)
            (emit (post_articles (generate_single_chapter chapterIndex)) p))).

Lemma chapter_placed_spec chapterIndex result p e :
  getElementById (lit "chapter-error-" ++ Z_to_string chapterIndex) p = Some e ->
  createCollapsibleChapter (retried_chapter chapterIndex result)
    (remove_by_id (lit "chapter-error-" ++ Z_to_string chapterIndex)
       (emit (post_articles (generate_single_chapter chapterIndex)) p))
  = (chapter_placed chapterIndex result p, Normal) /\
  In (chapterElementFor (Int chapterIndex))
     (chapter_nodes (chapter_placed chapterIndex result p)) /\
  log (chapter_placed chapterIndex result p)
  = log p ++ [post_articles (generate_single_chapter chapterIndex)] /\
  currentOutlineData (chapter_placed chapterIndex result p) = currentOutlineData p /\
  window_displayArticleComplete (chapter_placed chapterIndex result p)
  = window_displayArticleComplete p.
Proof.
  intros Hget. destruct (getElementById_container _ _ Hget) as [children Hc].
  unfold chapter_placed.
  set (errorId := lit "chapter-error-" ++ Z_to_string chapterIndex).
  set (p1 := emit (post_articles (generate_single_chapter chapterIndex)) p).
  assert (Hc2 : container (remove_by_id errorId p1)
                = Some (remove_first (fun x => str_eqb (id x) errorId) children)).
  { unfold remove_by_id, p1. cbn [container emit]. rewrite Hc. reflexivity. }
  rewrite (createCollapsibleChapter_place
             (retried_chapter chapterIndex result) _ eq_refl Hc2).
  cbn [fst].
  split; [reflexivity|]. split.
  - unfold chapter_nodes. cbn [container set_container].
    apply filter_In. split; [apply In_place | reflexivity].
  - unfold remove_by_id, p1. cbn [container emit]. rewrite Hc.
    repeat split.
Qed.

(** The retry once the chapter has arrived and the error block was
    found. *)
Lemma retry_received chapterIndex result p e :
  getElementById (lit "chapter-error-" ++ Z_to_string chapterIndex) p = Some e ->
  chapter_received result ->
  retryChapterGeneration chapterIndex (Response true (JsonObject result)) p
  = let p4 := emit (showNotification ChapterGeneratedSuccessfully)
                   (chapter_placed chapterIndex result p) in
    match currentOutlineData p with
    | None => emit (showNotification ChapterRetryFailed) p4
    | Some outline =>
        let chapters := Z.of_nat (chapters_length outline) in
        if (chapterIndex + 1 <? chapters)%Z then
          emit (setTimeout (ContinueGenerationFromChapter (chapterIndex + 1)) 1000)
            (emit (showNotification ContinuingWithRemainingChapters)
               (set_counts
                  (default_to chapters (window_totalChapters p4))
                  (default_to (chapterIndex + 1)%Z
                              (window_completedChaptersCount p4))
                  (completedChaptersCount p4) p4))
        else if window_displayArticleComplete p then
          displayArticleComplete
            (emit (showNotification AllChaptersGeneratedSuccessfully) p4)
        else p4
    end.
Proof.
  intros Hget [Herr Hcontent].
  destruct (chapter_placed_spec chapterIndex result p Hget)
    as (Hplace & _ & _ & Hout & Hwin).
  unfold retryChapterGeneration. rewrite Hget, Herr, Hcontent.
  cbn [negb andb]. cbv zeta.
  fold (retried_chapter chapterIndex result). rewrite Hplace.
  change (currentOutlineData
            (emit (showNotification ChapterGeneratedSuccessfully)
                  (chapter_placed chapterIndex result p)))
    with (currentOutlineData (chapter_placed chapterIndex result p)).
  change (window_displayArticleComplete
            (emit (showNotification ChapterGeneratedSuccessfully)
                  (chapter_placed chapterIndex result p)))
    with (window_displayArticleComplete (chapter_placed chapterIndex result p)).
  rewrite Hout, Hwin. reflexivity.
Qed.

(** When [window.outlineData] was never assigned on a page that has the
    element of id [outlineData], the retry renders the chapter and then
    fails on [split]: it neither continues nor completes. *)
Lemma retry_without_outline chapterIndex result p e :
  getElementById (lit "chapter-error-" ++ Z_to_string chapterIndex) p = Some e ->
  chapter_received result ->
  currentOutlineData p = None ->
  log (retryChapterGeneration chapterIndex (Response true (JsonObject result)) p)
  = log p ++
    [post_articles (generate_single_chapter chapterIndex);
     showNotification ChapterGeneratedSuccessfully;
     showNotification ChapterRetryFailed].
Proof.
  intros Hget Hrec Hout.
  destruct (chapter_placed_spec chapterIndex result p Hget)
    as (_ & _ & Hlog & _ & _).
  rewrite (@retry_received chapterIndex result p e Hget Hrec). cbv zeta. rewrite Hout.
  cbn [log emit]. rewrite Hlog. now rewrite <- !app_assoc.
Qed.








End RetryFacts.

(* ================================================================== *)
(** * More properties of the streaming run                             *)
(* ================================================================== *)

Module RunFacts.

Import Article StreamFacts ChapterFacts ChapterErrorFacts.

(** ** The run does not depend on how the text is cut into chunks *)

Lemma read_stream_concat (St : Type) (handle : jsstring -> St -> St * completion)
    chunks ending s :
  read_stream handle chunks ending s
  = read_stream handle [List.concat chunks] ending s.
Proof.
  destruct ending.
  - rewrite !read_stream_done. simpl. now rewrite app_nil_r.
  - rewrite !read_stream_fails. simpl. now rewrite app_nil_r.
Qed.

(** X1. Two bodies that carry the same text, cut into chunks in two ways
    and ending the same way, give the same page, for a first run and for
    a continued one. *)
Theorem run_independent_of_chunking :
  forall (JSON_parse : jsstring -> json_body chapterData)
         (chunks chunks' : list jsstring) (ending : stream_end)
         (startChapterIndex : Z) (p : page),
    List.concat chunks = List.concat chunks' ->
    generateArticleStream JSON_parse (Body chunks ending) p
    = generateArticleStream JSON_parse (Body chunks' ending) p /\
    continueGenerationFromChapter JSON_parse startChapterIndex
      (Body chunks ending) p
    = continueGenerationFromChapter JSON_parse startChapterIndex
      (Body chunks' ending) p.
Proof.
  intros JSON_parse chunks chunks' ending start p H.
  unfold generateArticleStream, continueGenerationFromChapter.
  split.
  - destruct (showOverallProgress p) as [p1 [|e]]; [|reflexivity].
    rewrite (read_stream_concat _ chunks), (read_stream_concat _ chunks').
    now rewrite H.
  - cbv zeta. destruct (_ <=? 0)%Z; [reflexivity|].
    rewrite (read_stream_concat _ chunks), (read_stream_concat _ chunks').
    now rewrite H.
Qed.

Lemma run_independent_of_chunking_witness :
  generateArticleStream sample_parse
    (Body [lit "CHAPTER_"; lit "DATA:" ++ sample_payload ++ [newline]] Done)
    sample_page
  = generateArticleStream sample_parse
      (Body [CHAPTER_DATA ++ sample_payload; [newline]] Done) sample_page.
Proof.
  apply (proj1 (@run_independent_of_chunking sample_parse
                  [lit "CHAPTER_"; lit "DATA:" ++ sample_payload ++ [newline]]
                  [CHAPTER_DATA ++ sample_payload; [newline]] Done 0%Z
                  sample_page eq_refl)).
Defined.

(** ** Lines without a tag *)

(** The lines [handleStreamLine] acts upon. *)
Definition tagged (line : jsstring) : bool :=
  startsWith CHAPTER_DATA line || startsWith CHAPTER_ERROR line
  || str_eqb line ARTICLE_COMPLETE.

(** The lines of a text as the loop hands them over, less those without
    a tag. *)
Definition tagged_lines (text : jsstring) : list jsstring :=
  filter tagged (map trim (split_nl text)).

(** The lines handled one after the other, up to a throw. *)
Fixpoint handle_all (St : Type) (handle : jsstring -> St -> St * completion)
    (lines : list jsstring) (s : St) : St * completion :=
  match lines with
  | [] => (s, Normal)
  | line :: rest =>
      match handle line s with
      | (s', Normal) => handle_all handle rest s'
      | (s', Throws e) => (s', Throws e)
      end
  end.

Lemma handleStreamLine_untagged JSON_parse line p :
  tagged line = false -> handleStreamLine JSON_parse line p = (p, Normal).
Proof.
  unfold tagged, handleStreamLine. intros H.
  apply orb_false_elim in H as [H H3]. apply orb_false_elim in H as [H1 H2].
  now rewrite H1, H2, H3.
Qed.

Lemma tagged_truthy line : tagged line = true -> truthy line = true.
Proof. destruct line; [discriminate | reflexivity]. Qed.

Lemma for_lines_tagged JSON_parse lines : forall p,
  for_lines (handleStreamLine JSON_parse) lines p
  = handle_all (handleStreamLine JSON_parse) (filter tagged (map trim lines)) p.
Proof.
  induction lines as [|l lines IH]; intros p; [reflexivity|].
  cbn [for_lines map filter].
  destruct (tagged (trim l)) eqn:Et.
  - rewrite (tagged_truthy _ Et). cbn [handle_all].
    destruct (handleStreamLine JSON_parse (trim l) p) as [p' [|e]];
      [apply IH | reflexivity].
  - destruct (truthy (trim l)); [|apply IH].
    rewrite (handleStreamLine_untagged _ _ _ Et). apply IH.
Qed.

(** X2. A run whose stream ends normally depends only on the sequence of
    its tagged lines: blank lines and lines that carry none of the three
    tags may be added or removed anywhere without changing the page. *)
Theorem run_depends_on_tagged_lines :
  forall (JSON_parse : jsstring -> json_body chapterData)
         (chunks chunks' : list jsstring) (p : page),
    tagged_lines (List.concat chunks) = tagged_lines (List.concat chunks') ->
    generateArticleStream JSON_parse (Body chunks Done) p
    = generateArticleStream JSON_parse (Body chunks' Done) p.
Proof.
  intros JSON_parse chunks chunks' p H. unfold generateArticleStream.
  destruct (showOverallProgress p) as [p1 [|e]]; [|reflexivity].
  rewrite !read_stream_done, !for_lines_tagged.
  unfold tagged_lines in H. now rewrite H.
Qed.

Lemma run_depends_on_tagged_lines_witness :
  generateArticleStream sample_parse
    (Body [lit ": keep-alive" ++ [newline; newline]
           ++ CHAPTER_DATA ++ sample_payload ++ [newline]] Done) sample_page
  = generateArticleStream sample_parse
      (Body [CHAPTER_DATA ++ sample_payload] Done) sample_page.
Proof.
  apply (@run_depends_on_tagged_lines sample_parse
           [lit ": keep-alive" ++ [newline; newline]
            ++ CHAPTER_DATA ++ sample_payload ++ [newline]]
           [CHAPTER_DATA ++ sample_payload] sample_page).
  reflexivity.
Defined.

(** ** A chapter line never stops the run *)



(** ** The count of completed chapters *)
























(** ** The requests of a run *)

(** The requests posted to [/api/generate/articles], in order. *)
Definition posts (l : list event) : list request :=
  filter_map (fun e => match e with
                       | post_articles r => Some r
                       | _ => None
                       end) l.

Definition posted (p : page) : list request := posts (log p).

Lemma posts_app l l' : posts (l ++ l') = posts l ++ posts l'.
Proof.
  unfold posts. induction l as [|e l IH]; simpl; [reflexivity|].
  destruct e; simpl; now rewrite IH.
Qed.

Lemma posted_emit ev p : posted (emit ev p) = posted p ++ posts [ev].
Proof. unfold posted. cbn [log emit]. apply posts_app. Qed.

Lemma posted_set_container c p : posted (set_container c p) = posted p.
Proof. reflexivity. Qed.

Lemma posted_set_counts a b c p : posted (set_counts a b c p) = posted p.
Proof. reflexivity. Qed.

Lemma posted_cleanup p : posted (cleanupLoadingStates p) = posted p.
Proof. unfold cleanupLoadingStates. now destruct (container p). Qed.

Lemma posted_removeProgress p : posted (removeProgress p) = posted p.
Proof. unfold removeProgress. now destruct (container p). Qed.

Lemma posted_remove_by_id x p : posted (remove_by_id x p) = posted p.
Proof. unfold remove_by_id. now destruct (container p). Qed.

Lemma posted_displayArticleComplete p :
  posted (displayArticleComplete p) = posted p.
Proof.
  unfold displayArticleComplete. cbn [container emit].
  destruct (container p); unfold posted; cbn [log set_container emit];
    rewrite posts_app; apply app_nil_r.
Qed.

Lemma posted_count_completed p : posted (count_completed p) = posted p.
Proof. unfold count_completed. now destruct (window_completedChaptersCount p). Qed.

Lemma posted_createCollapsibleChapter data p :
  posted (fst (createCollapsibleChapter data p)) = posted p.
Proof.
  now destruct (createCollapsibleChapter_cases data p)
    as [(children & _ & _ & ->)|[_ ->]].
Qed.

Lemma posted_displayChapterNetworkError d p :
  posted (fst (displayChapterNetworkError d p)) = posted p.
Proof.
  unfold displayChapterNetworkError. destruct d as [| |data]; try reflexivity.
  destruct (container p); [|reflexivity].
  now destruct (first_match _ _) as [[pos e]|].
Qed.

Lemma posted_continue_progress p : posted (continue_progress p) = posted p.
Proof. unfold posted. now rewrite RetryFacts.log_continue_progress. Qed.

Lemma posted_handleStreamLine JSON_parse line p :
  posted (fst (handleStreamLine JSON_parse line p)) = posted p.
Proof.
  unfold handleStreamLine.
  destruct (startsWith CHAPTER_DATA line).
  { destruct (JSON_parse _) as [| |data]; cbn [fst];
      try (rewrite posted_emit; apply app_nil_r).
    pose proof (posted_createCollapsibleChapter data p) as H.
    destruct (createCollapsibleChapter data p) as [p1 [|e]]; cbn [fst] in *.
    - now rewrite posted_count_completed.
    - rewrite posted_emit, H. apply app_nil_r. }
  destruct (startsWith CHAPTER_ERROR line).
  { destruct (JSON_parse _) as [| |data] eqn:E; cbn [fst]; try reflexivity.
    pose proof (posted_displayChapterNetworkError (JsonObject data) p) as H.
    destruct (displayChapterNetworkError (JsonObject data) p) as [p1 [|[|]]];
      cbn [fst] in *; try exact H.
    rewrite posted_cleanup, posted_emit, H. apply app_nil_r. }
  destruct (str_eqb line ARTICLE_COMPLETE); [|reflexivity].
  cbv zeta. destruct (window_displayArticleComplete _); cbn [fst].
  - rewrite posted_emit, posted_cleanup, posted_displayArticleComplete,
      posted_emit, posted_removeProgress. cbn [posts filter_map].
    now rewrite !app_nil_r.
  - rewrite posted_emit, posted_removeProgress. apply app_nil_r.
Qed.

Lemma posted_window_handler JSON_parse line p :
  posted (fst (window_handler JSON_parse line p)) = posted p.
Proof.
  unfold window_handler. destruct (window_handleStreamLine p); [|reflexivity].
  apply posted_handleStreamLine.
Qed.

Section Posted.

Variable handle : jsstring -> page -> page * completion.
Hypothesis posted_handle : forall line p, posted (fst (handle line p)) = posted p.

Lemma posted_for_lines lines : forall p,
  posted (fst (for_lines handle lines p)) = posted p.
Proof.
  induction lines as [|l lines IH]; intros p; simpl; [reflexivity|].
  destruct (truthy (trim l)); [|apply IH].
  pose proof (posted_handle (trim l) p) as H.
  destruct (handle (trim l) p) as [p' [|e]]; cbn [fst] in *;
    [now rewrite IH | exact H].
Qed.

Lemma posted_read_stream chunks ending p :
  posted (fst (read_stream handle chunks ending p)) = posted p.
Proof.
  destruct ending.
  - rewrite read_stream_done. apply posted_for_lines.
  - rewrite read_stream_fails.
    pose proof (posted_for_lines (complete_lines (List.concat chunks)) p) as H.
    now destruct (for_lines _ _ p) as [p' [|e]].
Qed.

End Posted.

Lemma posted_generateArticleStream JSON_parse response p :
  posted (generateArticleStream JSON_parse response p)
  = posted p ++ match container p with
                | Some _ => [generate_article]
                | None => []
                end.
Proof.
  unfold generateArticleStream, showOverallProgress.
  destruct (container p) as [children|].
  - set (p2 := emit (post_articles generate_article)
                    (set_container (Some (appendChild progressElement children)) p)).
    assert (H2 : posted p2 = posted p ++ [generate_article])
      by (unfold p2; now rewrite posted_emit).
    destruct response as [| |chunks ending];
      try (rewrite posted_cleanup, posted_emit, H2; apply app_nil_r).
    pose proof (posted_read_stream (handleStreamLine JSON_parse)
                  (posted_handleStreamLine JSON_parse) chunks ending p2) as H.
    destruct (read_stream _ _ _ p2) as [p3 [|e]]; cbn [fst] in H.
    + now rewrite H.
    + rewrite posted_cleanup, posted_emit, H, H2. apply app_nil_r.
  - rewrite posted_cleanup, posted_emit. cbn [posts filter_map].
    reflexivity.
Qed.

(** X5. The lines of a stream never cause a request: [handleStreamLine]
    posts nothing, and each of the three runs posts at most one request
    to [/api/generate/articles], whatever the response holds.
    [generateArticleStream] posts its request when the page has the
    article container; [continueGenerationFromChapter] when the outline
    has more heading lines than the start index; and
    [retryChapterGeneration] when the error block of the chapter is on the
    page. *)
Theorem one_request_per_run :
  forall (JSON_parse : jsstring -> json_body chapterData) (p : page),
    (forall line, posted (fst (handleStreamLine JSON_parse line p)) = posted p) /\
    (forall response,
       posted (generateArticleStream JSON_parse response p)
       = posted p ++ match container p with
                     | Some _ => [generate_article]
                     | None => []
                     end) /\
    (forall start response,
       posted (continueGenerationFromChapter JSON_parse start response p)
       = posted p ++
         (if (start <? Z.of_nat (chapters_length (currentOutlineText p)))%Z
          then [continue_generation start] else [])) /\
    (forall chapterIndex response,
       posted (retryChapterGeneration chapterIndex response p)
       = posted p ++
         match getElementById (lit "chapter-error-" ++ Z_to_string chapterIndex) p with
         | Some _ => [generate_single_chapter chapterIndex]
         | None => []
         end).
Proof.
  intros JSON_parse p. split; [|split; [|split]].
  - intros line. apply posted_handleStreamLine.
  - intros response. apply posted_generateArticleStream.
  - intros start response. unfold continueGenerationFromChapter. cbv zeta.
    set (n := Z.of_nat (chapters_length (currentOutlineText p))).
    set (p1 := set_counts _ _ _ p).
    destruct (Z.leb_spec (n - start) 0) as [Hle|Hgt].
    + replace (start <? n)%Z with false by (symmetry; apply Z.ltb_ge; lia).
      destruct (window_displayArticleComplete _);
        rewrite ?posted_displayArticleComplete, posted_emit; reflexivity.
    + replace (start <? n)%Z with true by (symmetry; apply Z.ltb_lt; lia).
      set (p4 := emit (post_articles (continue_generation start)) _).
      assert (H4 : posted p4 = posted p ++ [continue_generation start]).
      { unfold p4. rewrite !posted_emit, posted_continue_progress.
        cbn [posts filter_map]. now rewrite app_nil_r. }
      assert (Hcatch : forall q, posted q = posted p4 ->
                posted (if window_cleanupLoadingStates
                             (emit (showNotification ContinueGenerationFailed) q)
                        then cleanupLoadingStates
                               (emit (showNotification ContinueGenerationFailed) q)
                        else emit (showNotification ContinueGenerationFailed) q)
                = posted p4).
      { intros q Hq. destruct (window_cleanupLoadingStates _);
          rewrite ?posted_cleanup, posted_emit, Hq; apply app_nil_r. }
      destruct response as [| |chunks ending];
        try (rewrite Hcatch by reflexivity; exact H4).
      pose proof (posted_read_stream (window_handler JSON_parse)
                    (posted_window_handler JSON_parse) chunks ending p4) as H.
      destruct (read_stream _ _ _ p4) as [p5 [|e]]; cbn [fst] in H.
      * now rewrite H.
      * rewrite (Hcatch _ H). exact H4.
  - intros chapterIndex response. unfold retryChapterGeneration.
    destruct (getElementById _ p) as [e|]; [|symmetry; apply app_nil_r].
    set (p1 := emit (post_articles (generate_single_chapter chapterIndex)) p).
    assert (H1 : posted p1 = posted p ++ [generate_single_chapter chapterIndex])
      by (unfold p1; now rewrite posted_emit).
    assert (Hcatch : posted (emit (showNotification ChapterRetryFailed) p1)
                     = posted p ++ [generate_single_chapter chapterIndex])
      by (rewrite posted_emit, H1; apply app_nil_r).
    destruct response as [|[|] [| |result]]; try exact Hcatch.
    destruct (negb (error result) && truthy (content result));
      [|destruct (error result); exact Hcatch].
    cbv zeta.
    pose proof (posted_createCollapsibleChapter
                  (RetryFacts.retried_chapter chapterIndex result)
                  (remove_by_id (lit "chapter-error-" ++ Z_to_string chapterIndex) p1))
      as H.
    rewrite posted_remove_by_id, H1 in H.
    unfold RetryFacts.retried_chapter in H.
    destruct (createCollapsibleChapter _ _) as [p3 [|ex]]; cbn [fst] in H.
    + destruct (currentOutlineData _) as [outline|].
      * destruct (_ <? _)%Z.
        -- rewrite !posted_emit, posted_set_counts, posted_emit, H.
           cbn [posts filter_map]. now rewrite !app_nil_r.
        -- destruct (window_displayArticleComplete _);
             rewrite ?posted_displayArticleComplete, !posted_emit, H;
             cbn [posts filter_map]; now rewrite ?app_nil_r.
      * rewrite !posted_emit, H. cbn [posts filter_map]. now rewrite !app_nil_r.
    + rewrite posted_emit, H. apply app_nil_r.
Qed.

(** ** A retry that fails *)

(** X6. A retry that does not receive a chapter (the request fails, the
    status is not ok, the body is not a JSON object, or the object
    reports an error or carries no content) changes nothing on the page:
    the container, and so the error block with its button, and the counts
    are as before; with the error block on the page the log gains the
    request and the notification 'retry failed', without it nothing. *)
Theorem failed_retry_keeps_page :
  forall (chapterIndex : Z) (response : fetch_result single_chapter) (p : page),
    (forall result, response = Response true (JsonObject result) ->
                    ~ RetryFacts.chapter_received result) ->
    let r := retryChapterGeneration chapterIndex response p in
    let errorId := lit "chapter-error-" ++ Z_to_string chapterIndex in
    container r = container p /\
    getElementById errorId r = getElementById errorId p /\
    window_totalChapters r = window_totalChapters p /\
    window_completedChaptersCount r = window_completedChaptersCount p /\
    log r = log p ++
      match getElementById errorId p with
      | Some _ => [post_articles (generate_single_chapter chapterIndex);
                   showNotification ChapterRetryFailed]
      | None => []
      end.
Proof.
  intros chapterIndex response p Hfail r errorId.
  assert (Hr : r = match getElementById errorId p with
                   | Some _ =>
                       emit (showNotification ChapterRetryFailed)
                         (emit (post_articles (generate_single_chapter chapterIndex)) p)
                   | None => p
                   end).
  { unfold r, retryChapterGeneration. fold errorId.
    destruct (getElementById errorId p) as [e|]; [|reflexivity].
    destruct response as [|[|] [| |result]]; try reflexivity.
    destruct (error result) eqn:Ee; cbn [negb andb]; [reflexivity|].
    destruct (truthy (content result)) eqn:Ec; [|reflexivity].
    elim (Hfail result eq_refl). now split. }
  rewrite Hr. clear Hr.
  destruct (getElementById errorId p) as [e|] eqn:E.
  - repeat split; [exact E|]. cbn [log emit]. now rewrite <- app_assoc.
  - repeat split; [exact E|]. symmetry. apply app_nil_r.
Qed.

Lemma failed_retry_keeps_page_witness :
  let p := set_container (Some [errorElementFor (Int 0)]) sample_page in
  let r := retryChapterGeneration 0 (Response false NotJson) p in
  container r = Some [errorElementFor (Int 0)] /\
  log r = [post_articles (generate_single_chapter 0);
           showNotification ChapterRetryFailed].
Proof.
  intros p r.
  destruct (@failed_retry_keeps_page 0 (Response false NotJson) p)
    as (H1 & _ & _ & _ & H2).
  - intros result H. discriminate H.
  - split; [exact H1 | exact H2].
Defined.

(** ** An error, then its retry *)


Lemma chapter_id_not_error_id z :
  str_eqb (lit "chapter-" ++ Z_to_string z)
          (lit "chapter-error-" ++ Z_to_string z) = false.
Proof.
  change (str_eqb (Z_to_string z) (lit "error-" ++ Z_to_string z) = false).
  destruct (NumberFacts.Z_to_string_head z) as (c & others & -> & Hc).
  apply N.eqb_neq in Hc.
  change (char_eqb c 101%N && str_eqb others (lit "rror-" ++ c :: others) = false).
  unfold char_eqb. now rewrite Hc.
Qed.







End RunFacts.

(* ================================================================== *)
(** * Properties: which lines are headings                             *)
(* ================================================================== *)

Module HeadingFacts.

Import SendTopic.

Definition has_line_terminator (s : jsstring) : bool :=
  existsb is_line_terminator s.

(** What [line.match(/^(#+)\s*(.+)$/)] captures, without the search:
    [h] is the number of leading hash marks, [rest] what follows them and
    [body] what follows the white space after them. *)
Definition heading_of (line : jsstring) : option (nat * jsstring) :=
  let h := count_prefix is_hash line in
  let rest := drop_while is_hash line in
  let body := drop_while is_white_space rest in
  match h with
  | 0 => None
  | S h' =>
      match body with
      | _ :: _ =>
          if has_line_terminator body then None else Some (h, body)
      | [] =>
          match List.rev rest with
          | c :: _ => if is_line_terminator c then None else Some (h, [c])
          | [] =>
              match h' with
              | 0 => None
              | S _ => Some (h', [hash])
              end
          end
      end
  end.

(** What [/^#+\s/.test(line)] answers, without the search. *)
Definition heading_prefix (line : jsstring) : bool :=
  match count_prefix is_hash line, drop_while is_hash line with
  | S _, c :: _ => is_white_space c
  | _, _ => false
  end.

Lemma skipn_count_prefix p s : skipn (count_prefix p s) s = drop_while p s.
Proof.
  induction s as [|c s IH]; [reflexivity|]. simpl.
  destruct (p c); [exact IH | reflexivity].
Qed.

Lemma line_hashes line :
  line = hashes (count_prefix is_hash line) ++ drop_while is_hash line.
Proof.
  induction line as [|c line IH]; [reflexivity|]. simpl.
  destruct (is_hash c) eqn:E; [|reflexivity].
  apply N.eqb_eq in E. subst c.
  change (hash :: line
          = hash :: hashes (count_prefix is_hash line) ++ drop_while is_hash line).
  f_equal. exact IH.
Qed.

Lemma drop_while_head_false p s :
  match drop_while p s with
  | c :: _ => p c = false
  | [] => True
  end.
Proof.
  induction s as [|c s IH]; simpl; [exact I|].
  destruct (p c) eqn:E; [exact IH | exact E].
Qed.

Lemma skipn_hashes_le k h s :
  k <= h -> skipn k (hashes h ++ s) = hashes (h - k) ++ s.
Proof.
  revert h. induction k as [|k IH]; intros h Hk.
  - now rewrite Nat.sub_0_r.
  - destruct h as [|h]; [lia|]. simpl. apply IH. lia.
Qed.

Lemma dot_plus_end_terminator r :
  has_line_terminator r = true -> dot_plus_end r = None.
Proof.
  unfold dot_plus_end, has_line_terminator. intros H.
  replace (forallb (fun c => negb (is_line_terminator c)) r) with false;
    [now rewrite andb_false_r|].
  symmetry. induction r as [|c r IH]; [discriminate|]. simpl in *.
  destruct (is_line_terminator c); [reflexivity|]. simpl. now apply IH.
Qed.

Lemma dot_plus_end_plain r :
  r <> [] -> has_line_terminator r = false -> dot_plus_end r = Some r.
Proof.
  unfold dot_plus_end, has_line_terminator. intros Hr H.
  replace (forallb (fun c => negb (is_line_terminator c)) r) with true.
  - destruct r; [congruence | reflexivity].
  - symmetry. induction r as [|c r IH]; [reflexivity|]. simpl in *.
    apply orb_false_elim in H as [Hc H]. rewrite Hc. simpl.
    destruct r; [reflexivity|]. apply IH; [discriminate | exact H].
Qed.

Lemma has_line_terminator_app a b :
  has_line_terminator (a ++ b) = has_line_terminator a || has_line_terminator b.
Proof. apply existsb_app. Qed.

Lemma has_line_terminator_skipn j s :
  has_line_terminator (skipn j s) = true -> has_line_terminator s = true.
Proof.
  intros H. rewrite <- (firstn_skipn j s), has_line_terminator_app, H.
  apply orb_true_r.
Qed.

Lemma ws_star_then_step j r :
  ws_star_then (S j) r
  = match dot_plus_end (skipn (S j) r) with
    | Some t => Some t
    | None => ws_star_then j r
    end.
Proof. reflexivity. Qed.

Lemma ws_star_then_first j r t :
  dot_plus_end (skipn j r) = Some t -> ws_star_then j r = Some t.
Proof. intros H. destruct j; simpl in *; now rewrite H. Qed.

Lemma ws_star_then_none n r :
  (forall j, j <= n -> dot_plus_end (skipn j r) = None) ->
  ws_star_then n r = None.
Proof.
  induction n as [|n IH]; intros H.
  - cbn [ws_star_then]. now rewrite (H 0) by lia.
  - rewrite ws_star_then_step, (H (S n)) by lia. apply IH.
    intros j Hj. apply H. lia.
Qed.

(** With a line terminator beyond the white space, nothing matches. *)
Lemma ws_star_then_terminator r :
  has_line_terminator (drop_while is_white_space r) = true ->
  ws_star_then (count_prefix is_white_space r) r = None.
Proof.
  intros H. apply ws_star_then_none. intros j Hj.
  apply dot_plus_end_terminator.
  rewrite <- skipn_count_prefix in H.
  replace (count_prefix is_white_space r)
    with ((count_prefix is_white_space r - j) + j) in H by lia.
  rewrite <- skipn_skipn in H. now apply has_line_terminator_skipn in H.
Qed.

Lemma count_prefix_all p s :
  drop_while p s = [] -> count_prefix p s = List.length s.
Proof.
  induction s as [|c s IH]; [reflexivity|]. simpl.
  destruct (p c); [|discriminate]. intros H. now rewrite IH.
Qed.

(** White space up to the end: the last character is given back to
    [(.+)], unless it is a line terminator. *)
Lemma ws_star_then_blank r :
  ws_star_then (List.length r) r
  = match List.rev r with
    | c :: _ => if is_line_terminator c then None else Some [c]
    | [] => None
    end.
Proof.
  induction r as [|a r _] using rev_ind; [reflexivity|].
  rewrite rev_app_distr. cbn [List.rev app].
  rewrite length_app, Nat.add_1_r, ws_star_then_step.
  replace (skipn (S (List.length r)) (r ++ [a])) with (@nil char16)
    by (symmetry; apply skipn_all2; rewrite length_app; simpl; lia).
  cbn [dot_plus_end truthy andb].
  assert (Hs : skipn (List.length r) (r ++ [a]) = [a])
    by (rewrite skipn_app, skipn_all, Nat.sub_diag; reflexivity).
  destruct (is_line_terminator a) eqn:Ea.
  - apply ws_star_then_none. intros j Hj. apply dot_plus_end_terminator.
    apply has_line_terminator_skipn with (j := List.length r - j).
    rewrite skipn_skipn. replace (List.length r - j + j) with (List.length r) by lia.
    rewrite Hs. unfold has_line_terminator. simpl. now rewrite Ea.
  - apply ws_star_then_first. rewrite Hs. unfold dot_plus_end. simpl.
    now rewrite Ea.
Qed.

(** Fewer hash marks than the line has: [\s*] is empty and [(.+)] takes
    the remaining hash marks with the rest. *)
Lemma hashes_then_fewer h rest : forall k,
  k < h ->
  match rest with c :: _ => is_hash c = false | [] => True end ->
  hashes_then k (hashes h ++ rest)
  = match k with
    | 0 => None
    | S _ =>
        if has_line_terminator rest then None
        else Some (k, hashes (h - k) ++ rest)
    end.
Proof.
  induction k as [|k IH]; intros Hk Hrest; [reflexivity|].
  cbn [hashes_then]. rewrite skipn_hashes_le by lia.
  destruct (h - S k) as [|d] eqn:Ed; [lia|].
  change (hashes (S d) ++ rest) with (hash :: hashes d ++ rest).
  cbn [count_prefix]. change (is_white_space hash) with false. cbv iota.
  cbn [ws_star_then skipn].
  destruct (has_line_terminator rest) eqn:Et.
  - rewrite dot_plus_end_terminator.
    + rewrite IH by (lia || assumption). now destruct k.
    + change (hash :: hashes d ++ rest) with (hashes (S d) ++ rest).
      rewrite has_line_terminator_app, Et. apply orb_true_r.
  - rewrite dot_plus_end_plain; [reflexivity | discriminate |].
    change (hash :: hashes d ++ rest) with (hashes (S d) ++ rest).
    rewrite has_line_terminator_app, Et, orb_false_r.
    unfold hashes, has_line_terminator. clear.
    induction (S d) as [|n IHn]; [reflexivity | exact IHn].
Qed.

Lemma has_line_terminator_last r c l :
  List.rev r = c :: l -> is_line_terminator c = true ->
  has_line_terminator r = true.
Proof.
  intros Hr Hc. rewrite <- (rev_involutive r), Hr. cbn [List.rev].
  rewrite has_line_terminator_app. unfold has_line_terminator at 2.
  simpl. rewrite Hc. apply orb_true_r.
Qed.

(** X8. The search of [line.match(/^(#+)\s*(.+)$/)] in closed form. A
    line without a leading hash mark does not match. Otherwise, with
    [rest] what follows the hash marks and [body] what follows the white
    space after them: a [body] that is not empty is the text, unless it
    holds a line terminator, and then there is no match; when only white
    space follows the hash marks, the text is the last white-space
    character, unless that is a line terminator; and when nothing follows
    them, the last hash mark is the text and the level is one less, two
    or more hash marks being needed. The test [/^#+\s/] asks for a hash
    mark and white space straight after the hash marks. *)
Theorem match_heading_closed_form :
  forall line : jsstring,
    match_heading line = heading_of line /\
    test_heading_prefix line = heading_prefix line.
Proof.
  intros line. split.
  - unfold match_heading, heading_of.
    set (h := count_prefix is_hash line).
    set (rest := drop_while is_hash line).
    assert (Hline : line = hashes h ++ rest) by apply line_hashes.
    assert (Hrest : match rest with c :: _ => is_hash c = false | [] => True end)
      by apply drop_while_head_false.
    destruct h as [|h']; [reflexivity|].
    cbn [hashes_then].
    replace (skipn (S h') line) with rest
      by (rewrite Hline at 1; now rewrite skipn_hashes_le, Nat.sub_diag by lia).
    assert (Hfewer : has_line_terminator rest = true ->
                     hashes_then h' line = None).
    { intros Ht. rewrite Hline, hashes_then_fewer by (lia || assumption).
      rewrite Ht. now destruct h'. }
    destruct (drop_while is_white_space rest) as [|b body] eqn:Eb.
    + rewrite (count_prefix_all _ _ Eb), ws_star_then_blank.
      destruct (List.rev rest) as [|c l] eqn:Er.
      * assert (rest = []) as Hnil
          by (rewrite <- (rev_involutive rest), Er; reflexivity).
        rewrite Hline, Hnil, hashes_then_fewer by (lia || exact I).
        destruct h' as [|h'']; [reflexivity|].
        replace (S (S h'') - S h'') with 1 by lia. reflexivity.
      * destruct (is_line_terminator c) eqn:Ec; [|reflexivity].
        apply Hfewer. now apply (has_line_terminator_last _ Er).
    + destruct (has_line_terminator (b :: body)) eqn:Et.
      * rewrite ws_star_then_terminator by now rewrite Eb.
        apply Hfewer. rewrite <- Eb, <- skipn_count_prefix in Et.
        now apply has_line_terminator_skipn in Et.
      * rewrite (@ws_star_then_first _ _ (b :: body)); [reflexivity|].
        rewrite skipn_count_prefix, Eb.
        apply dot_plus_end_plain; [discriminate | exact Et].
  - unfold test_heading_prefix, heading_prefix.
    set (h := count_prefix is_hash line).
    set (rest := drop_while is_hash line).
    assert (Hline : line = hashes h ++ rest) by apply line_hashes.
    assert (Hrest : match rest with c :: _ => is_hash c = false | [] => True end)
      by apply drop_while_head_false.
    assert (Hfewer : forall k, k < h -> hashes_then_ws k line = false).
    { induction k as [|k IH]; intros Hk; [reflexivity|].
      cbn [hashes_then_ws]. rewrite Hline at 1.
      rewrite skipn_hashes_le by lia.
      destruct (h - S k) as [|d] eqn:Ed; [lia|].
      change (hashes (S d) ++ rest) with (hash :: hashes d ++ rest).
      change (is_white_space hash) with false. apply IH. lia. }
    destruct h as [|h']; [reflexivity|].
    cbn [hashes_then_ws].
    replace (skipn (S h') line) with rest
      by (rewrite Hline at 1; now rewrite skipn_hashes_le, Nat.sub_diag by lia).
    rewrite Hfewer by lia. destruct rest as [|c rest']; [reflexivity|].
    apply orb_false_r.
Qed.

End HeadingFacts.

(* ================================================================== *)
(** * Properties: the blocks of the side bar and their numbers         *)
(* ================================================================== *)

Module SidebarFacts.

Import Article SendTopic OutlineFacts RoundTripFacts StreamFacts HeadingFacts.

(** The [levelNumber] of each block [displayOutlineInSidebar] builds:
    [numbering[index]], where [index] is the position of the line among
    the kept lines; [None] is [undefined]. *)
Fixpoint level_numbers_from (index : nat) (numbering outlineLines : list jsstring)
  : list (option jsstring) :=
  match outlineLines with
  | [] => []
  | line :: rest =>
      match match_heading line with
      | Some _ =>
          nth_error numbering index :: level_numbers_from (S index) numbering rest
      | None => level_numbers_from (S index) numbering rest
      end
  end.

Definition level_numbers (outlineContent : jsstring) : list (option jsstring) :=
  let outlineLines := outline_lines outlineContent in
  level_numbers_from 0 (generateHierarchicalNumbering outlineLines) outlineLines.

(** The only line terminators of the text are its line feeds. *)
Definition unix_text (s : jsstring) : Prop :=
  forall c, In c s -> is_line_terminator c = true -> c = newline.

Lemma in_join_nl c line lines :
  In c line -> In line lines -> In c (join_nl lines).
Proof.
  intros Hc. induction lines as [|l lines IH]; intros Hl; [destruct Hl|].
  destruct lines as [|l' lines'].
  - destruct Hl as [->|[]]. exact Hc.
  - change (In c (l ++ newline :: join_nl (l' :: lines'))).
    apply in_or_app. destruct Hl as [->|Hl]; [now left|].
    right. right. now apply IH.
Qed.

Lemma split_line_plain text line :
  unix_text text -> In line (split_nl text) -> has_line_terminator line = false.
Proof.
  intros Hu Hl. unfold has_line_terminator.
  destruct (existsb is_line_terminator line) eqn:E; [|reflexivity].
  apply existsb_exists in E as (c & Hc & Ht).
  assert (c = newline).
  { apply Hu; [|exact Ht]. rewrite <- (join_split text).
    now apply in_join_nl with line. }
  subst c. pose proof (split_nl_pieces text) as Hp.
  rewrite Forall_forall in Hp. now elim (Hp line Hl).
Qed.

Lemma has_line_terminator_drop_while p s :
  has_line_terminator s = false -> has_line_terminator (drop_while p s) = false.
Proof.
  intros H. destruct (has_line_terminator (drop_while p s)) eqn:E; [|reflexivity].
  rewrite <- skipn_count_prefix in E. apply has_line_terminator_skipn in E.
  congruence.
Qed.

(** A kept line without line terminator is a heading. *)
Lemma kept_plain_line_matches line :
  has_line_terminator line = false -> test_heading_prefix line = true ->
  match_heading line <> None.
Proof.
  intros Hplain Hkept.
  destruct (match_heading_closed_form line) as [-> Ht]. rewrite Ht in Hkept.
  unfold heading_prefix in Hkept. unfold heading_of.
  destruct (count_prefix is_hash line) as [|h']; [discriminate|].
  pose proof (has_line_terminator_drop_while is_hash _ Hplain) as Hrest.
  destruct (drop_while is_hash line) as [|c rest] eqn:Er; [discriminate|].
  pose proof (has_line_terminator_drop_while is_white_space _ Hrest) as Hbody.
  destruct (drop_while is_white_space (c :: rest)) as [|b body].
  - destruct (List.rev (c :: rest)) as [|d l] eqn:Ed.
    + apply (f_equal (@List.length _)) in Ed. rewrite length_rev in Ed.
      discriminate.
    + destruct (is_line_terminator d) eqn:Et; [|discriminate].
      now rewrite (has_line_terminator_last _ Ed Et) in Hrest.
  - rewrite Hbody. discriminate.
Qed.

Lemma level_numbers_from_all numbering lines : forall index,
  Forall (fun line => match_heading line <> None) lines ->
  level_numbers_from index numbering lines
  = map (nth_error numbering) (seq index (List.length lines)).
Proof.
  induction lines as [|l lines IH]; intros index H; [reflexivity|].
  inversion H as [|? ? Hl Hrest]; subst. simpl.
  destruct (match_heading l); [|congruence]. now rewrite IH.
Qed.

Lemma filter_map_length_all {A B} (f : A -> option B) l :
  Forall (fun x => f x <> None) l ->
  List.length (filter_map f l) = List.length l.
Proof.
  induction 1 as [|x l Hx _ IH]; [reflexivity|]. simpl.
  destruct (f x); [simpl; now rewrite IH | congruence].
Qed.

Lemma map_nth_error_seq {A} (l : list A) :
  map (nth_error l) (seq 0 (List.length l)) = map Some l.
Proof.
  induction l as [|x l IH]; [reflexivity|]. simpl. f_equal.
  rewrite <- seq_shift, map_map. exact IH.
Qed.

(** X9. The number shown with a block is [numbering[index]], where
    [index] counts the kept lines and [numbering] has one entry for each
    line that matches. In an outline whose only line terminators are
    line feeds every kept line matches, so that each block shows its own
    number, in order, and there is one number for each block. *)
Theorem level_numbers_aligned :
  forall outlineContent : jsstring,
    unix_text outlineContent ->
    level_numbers outlineContent
    = map Some (generateHierarchicalNumbering (outline_lines outlineContent)) /\
    List.length (level_numbers outlineContent)
    = List.length (parse_outline outlineContent).
Proof.
  intros content Hu.
  assert (Hall : Forall (fun line => match_heading line <> None)
                        (outline_lines content)).
  { apply Forall_forall. intros line Hl. unfold outline_lines in Hl.
    apply filter_In in Hl as [Hl Hk].
    apply kept_plain_line_matches; [|exact Hk].
    now apply split_line_plain with content. }
  assert (Hlen : List.length (generateHierarchicalNumbering (outline_lines content))
                 = List.length (outline_lines content)).
  { rewrite numbering_length. unfold heading_levels.
    now rewrite length_map, filter_map_length_all. }
  assert (H : level_numbers content
              = map Some (generateHierarchicalNumbering (outline_lines content))).
  { unfold level_numbers. cbv zeta.
    rewrite level_numbers_from_all by exact Hall.
    rewrite <- Hlen. apply map_nth_error_seq. }
  split; [exact H|].
  rewrite H, length_map, Hlen. unfold parse_outline.
  now rewrite filter_map_length_all.
Qed.

Lemma level_numbers_aligned_witness :
  level_numbers (lit "# A" ++ [newline] ++ lit "notes" ++ [newline] ++ lit "## B")
  = [Some (lit "1"); Some (lit "1.1")].
Proof.
  refine (eq_trans
            (proj1 (@level_numbers_aligned
                      (lit "# A" ++ [newline] ++ lit "notes" ++ [newline]
                       ++ lit "## B") _)) _);
    [|reflexivity].
  intros c Hc Ht. simpl in Hc.
  repeat (destruct Hc as [<-|Hc]; [try reflexivity; discriminate Ht|]).
  destruct Hc.
Defined.

(** With a carriage return before the line feed the first line is kept
    but does not match: the block of the second line shows
    [undefined]. *)
Lemma level_number_undefined_after_carriage_return :
  level_numbers (lit "# A" ++ [13%N; newline] ++ lit "# B") = [None] /\
  parse_outline (lit "# A" ++ [13%N; newline] ++ lit "# B") = [(1, lit "B")].
Proof. split; reflexivity. Qed.

(** ** Lines that end in a line terminator *)



Lemma drop_while_app_last p l c :
  p c = true ->
  drop_while p (l ++ [c])
  = match drop_while p l with
    | [] => []
    | s => s ++ [c]
    end.
Proof.
  intros Hc. induction l as [|a l IH]; simpl; [now rewrite Hc|].
  destruct (p a); [exact IH | reflexivity].
Qed.

Lemma trim_app_white_space l c :
  is_white_space c = true -> trim (l ++ [c]) = trim l.
Proof.
  intros Hc. unfold trim. rewrite drop_while_app_last by exact Hc.
  destruct (drop_while is_white_space l) as [|a s]; [reflexivity|].
  rewrite rev_app_distr. cbn [List.rev app drop_while]. now rewrite Hc.
Qed.




End SidebarFacts.

(* ================================================================== *)
(** * article_utils.js: skipping a chapter                             *)
(* ================================================================== *)

Module Skip.

Import Article.

(** The block [skipChapter] puts in the place of the error block. *)
Definition skippedElementFor (chapterIndex : Z) : element :=
  {| id := lit "chapter-" ++ Z_to_string chapterIndex;
     classList := [chapter_item; lit "skipped"];
     dataset_index := Some (Z_to_string chapterIndex);
     wave_loader := false |}.

(** [old.replaceWith(x)] for the first child that satisfies [sel]. *)
Fixpoint replace_with (sel : element -> bool) (x : element)
    (children : list element) : list element :=
  match children with
  | [] => []
  | e :: rest => if sel e then x :: rest else e :: replace_with sel x rest
  end.

(** [element.replaceWith(x)] for the element [getElementById x0] found. *)
Definition replace_by_id (x0 : jsstring) (x : element) (p : page) : page :=
  match container p with
  | Some children =>
      set_container
        (Some (replace_with (fun e => str_eqb (id e) x0) x children)) p
  | None => p
  end.

(** The notification of [skipChapter]. *)
Inductive skip_notice : Type :=
| ChapterSkipped (chapterIndex : Z).

Section SkipChapter.

(** Whether [querySelector('h3')] finds a heading in the markup of an
    element, which the model of the container leaves out. *)
Variable has_h3 : element -> bool.

(** [skipChapter(chapterIndex)], with the answer given to [confirm].
    Reading [textContent] of a missing heading throws before the block
    is replaced. *)
Definition skipChapter (chapterIndex : Z) (confirm : bool) (p : page)
  : page * list skip_notice * completion :=
  let errorId := lit "chapter-error-" ++ Z_to_string chapterIndex in
  match getElementById errorId p with
  | None => (p, [], Normal)
  | Some errorElement =>
      if confirm then
        if has_h3 errorElement then
          (replace_by_id errorId (skippedElementFor chapterIndex) p,
           [ChapterSkipped chapterIndex], Normal)
        else (p, [], Throws OtherError)
      else (p, [], Normal)
  end.

End SkipChapter.

End Skip.

(* ================================================================== *)
(** * Properties: a skipped chapter                                    *)
(* ================================================================== *)

Module SkipFacts.

Import Article ChapterFacts Skip.

(** The children that carry an id. *)
Definition with_id (x : jsstring) (children : list element) : list element :=
  filter (fun e => str_eqb (id e) x) children.

Lemma find_replace_with sel x l :
  sel x = false ->
  find sel (replace_with sel x l) = find sel (remove_first sel l).
Proof.
  intros Hx. induction l as [|e l IH]; [reflexivity|]. simpl.
  destruct (sel e) eqn:Ee; simpl.
  - now rewrite Hx.
  - now rewrite Ee, IH.
Qed.

Lemma find_remove_first_single sel (l : list element) :
  List.length (filter sel l) <= 1 -> find sel (remove_first sel l) = None.
Proof.
  induction l as [|e l IH]; [reflexivity|]. simpl.
  destruct (sel e) eqn:Ee; simpl.
  - intros H. destruct (filter sel l) as [|y ys] eqn:Ef; [|simpl in H; lia].
    destruct (find sel l) as [z|] eqn:Ez; [|reflexivity].
    apply find_some in Ez as [Hin Hz].
    assert (In z (filter sel l)) by (apply filter_In; now split).
    rewrite Ef in *. contradiction.
  - rewrite Ee. exact IH.
Qed.

Lemma filter_replace_with cls sel x (l : list element) :
  cls x = true ->
  (forall e, In e l -> sel e = true -> cls e = false) ->
  (exists e, In e l /\ sel e = true) ->
  exists before after,
    filter cls l = before ++ after /\
    filter cls (replace_with sel x l) = before ++ x :: after.
Proof.
  intros Hx Hsel [e0 [Hin He0]].
  induction l as [|e l IH]; [destruct Hin|]. simpl.
  destruct (sel e) eqn:Ee.
  - exists [], (filter cls l). simpl. rewrite Hx, (Hsel e) by (auto; now left).
    split; reflexivity.
  - destruct Hin as [->|Hin]; [congruence|].
    destruct IH as (before & after & H1 & H2);
      [intros e' He'; apply Hsel; now right | exact Hin |].
    simpl. destruct (cls e).
    + exists (e :: before), after. simpl. now rewrite H1, H2.
    + exists before, after. now split.
Qed.

(** X11. A chapter that was skipped cannot be generated from its block.
    When [skipChapter(z)] is confirmed on a page whose only block with id
    [chapter-error-z] is an error block with its heading, that block is
    replaced, in place, by a chapter node [chapter-z] of class [skipped];
    no block with the id of the error remains, so that
    [retryChapterGeneration(z)], which the button 'Generate Now' of the
    new node calls, returns at once: for every response the page stays as
    it is and no request is posted. *)
Theorem skipped_chapter_cannot_be_generated :
  forall (has_h3 : element -> bool) (z : Z) (p : page) (errorElement : element),
    let errorId := lit "chapter-error-" ++ Z_to_string z in
    getElementById errorId p = Some errorElement ->
    has_h3 errorElement = true ->
    has_class chapter_item errorElement = false ->
    (forall children, container p = Some children ->
                      List.length (with_id errorId children) <= 1) ->
    exists p',
      skipChapter has_h3 z true p = (p', [ChapterSkipped z], Normal) /\
      (exists before after,
         chapter_nodes p = before ++ after /\
         chapter_nodes p' = before ++ skippedElementFor z :: after) /\
      getElementById errorId p' = None /\
      forall response, retryChapterGeneration z response p' = p'.
Proof.
  intros has_h3 z p errorElement errorId Hget Hh3 Hcls Hone.
  destruct (RetryFacts.getElementById_container _ _ Hget) as [children Hc].
  set (sel := fun e : element => str_eqb (id e) errorId).
  assert (Hfind : find sel children = Some errorElement).
  { unfold getElementById in Hget. now rewrite Hc in Hget. }
  assert (Hnew : sel (skippedElementFor z) = false)
    by apply RunFacts.chapter_id_not_error_id.
  exists (set_container
            (Some (replace_with sel (skippedElementFor z) children)) p).
  assert (Hgone : getElementById errorId
                    (set_container
                       (Some (replace_with sel (skippedElementFor z) children)) p)
                  = None).
  { unfold getElementById. cbn [container set_container]. fold sel.
    rewrite find_replace_with by exact Hnew.
    apply find_remove_first_single. now apply Hone. }
  split; [|split; [|split]].
  - unfold skipChapter, replace_by_id. fold errorId. now rewrite Hget, Hh3, Hc.
  - unfold chapter_nodes. rewrite Hc. cbn [container set_container].
    apply filter_replace_with; [reflexivity | |].
    + intros e He Hs.
      assert (Hlen := Hone children Hc). unfold with_id in Hlen. fold sel in Hlen.
      apply find_some in Hfind as [Hin Hsel].
      assert (e = errorElement); [|now subst e].
      assert (H1 : In e (filter sel children)) by (apply filter_In; now split).
      assert (H2 : In errorElement (filter sel children))
        by (apply filter_In; now split).
      destruct (filter sel children) as [|a [|b l]]; [destruct H1 | |simpl in Hlen; lia].
      destruct H1 as [<-|[]]. now destruct H2 as [<-|[]].
    + apply find_some in Hfind as [Hin Hsel]. now exists errorElement.
  - exact Hgone.
  - intros response. unfold retryChapterGeneration. fold errorId.
    now rewrite Hgone.
Qed.

Lemma skipped_chapter_cannot_be_generated_witness :
  let p := set_container (Some [errorElementFor (Int 0)])
             ChapterErrorFacts.sample_page in
  exists p',
    skipChapter (fun _ => true) 0 true p = (p', [ChapterSkipped 0%Z], Normal) /\
    forall response, retryChapterGeneration 0 response p' = p'.
Proof.
  intros p.
  destruct (@skipped_chapter_cannot_be_generated (fun _ => true) 0 p
              (errorElementFor (Int 0)))
    as (p' & H1 & _ & _ & H2).
  - reflexivity.
  - reflexivity.
  - reflexivity.
  - intros children H. injection H as <-. simpl. lia.
  - exists p'. split; [exact H1 | exact H2].
Defined.

End SkipFacts.

(* ================================================================== *)
(** * generate_article.js: from the editor to the stream               *)
(* ================================================================== *)

Module Generation.

Import Article.

(** ** The editor as the generator reads it *)

(** [sidebarNav] holds the [.outline-block] elements under
    [.sidebar-nav], all the outline blocks of the document, and is [None]
    when the page has no such list; [outlineDataInput] is the value of the
    hidden input [#outlineData], [None] when the page has no such input;
    [window_updateOutlineData] tells whether send_topic.js has exported
    its function. *)
Record editor : Type := {
  sidebarNav : option (list SendTopic.block);
  outlineDataInput : option jsstring;
  window_updateOutlineData : bool;
  window_skipSaveOutlineToHistory : bool
}.

(** [document.querySelectorAll('.outline-block')] *)
Definition outline_blocks (ed : editor) : list SendTopic.block :=
  match sidebarNav ed with
  | Some blocks => blocks
  | None => []
  end.

(** [saveOutlineToHistory] of send_topic.js: the outline it posts to
    [/api/session/outline], if any. *)
Definition saveOutlineToHistory (outlineData : jsstring) : list jsstring :=
  if negb (truthy outlineData) || negb (truthy (trim outlineData)) then []
  else [outlineData].

(** [updateOutlineData] of send_topic.js as a procedure: the hidden
    input is written when it exists, and the outline is saved. *)
Definition updateOutlineData (ed : editor) : editor * list jsstring :=
  let outlineData := SendTopic.updateOutlineData (outline_blocks ed) in
  ({| sidebarNav := sidebarNav ed;
      outlineDataInput :=
        match outlineDataInput ed with
        | Some _ => Some outlineData
        | None => None
        end;
      window_updateOutlineData := window_updateOutlineData ed;
      window_skipSaveOutlineToHistory := window_skipSaveOutlineToHistory ed |},
   if window_skipSaveOutlineToHistory ed then []
   else saveOutlineToHistory outlineData).

(** The attribute [data-level] of the parent of a [.block-content]. The
    parent is the [div.outline-item] of the markup of a block, which has
    a class and no other attribute: [getAttribute] gives [null]. *)
Definition parent_data_level (b : SendTopic.block) : option jsstring := None.

(** ['#'.repeat(n)] for what [parseInt] gave; [NaN] repeats nothing. *)
Definition repeat_hash (n : option Z) : jsstring :=
  match n with
  | Some z => hashes (Z.to_nat z)
  | None => []
  end.

(** One turn of the [forEach] of [getCurrentOutlineText]. *)
Definition fallback_line (b : SendTopic.block) : jsstring :=
  let level :=
    parseInt (match parent_data_level b with
              | Some s => if truthy s then s else lit "1"
              | None => lit "1"
              end) in
  repeat_hash level ++ lit " " ++ trim (SendTopic.textContent b) ++ [newline].

(** [getCurrentOutlineText] of article_utils.js. *)
Definition getCurrentOutlineText (ed : editor) : jsstring :=
  let fallback :=
    match sidebarNav ed with
    | None => []
    | Some blocks => trim (List.concat (map fallback_line blocks))
    end in
  match outlineDataInput ed with
  | Some value => if truthy value then value else fallback
  | None => fallback
  end.

(** ** The start of a generation *)

(** Whether [updateOutlineInBackend] resolves. *)
Definition updateOutlineInBackend (r : fetch_result reply) : bool :=
  match r with
  | Response true (JsonObject data) => is_success data
  | _ => false
  end.

(** The notifications of [generateArticle] itself. *)
Inductive sync_notice : Type :=
| PleaseGenerateAnOutlineFirst
| OutlineSynchronizedToBackend
| OutlineSyncFailedButWillContinue.

(** A heading of the article container. *)
Definition titleElement : element :=
  {| id := []; classList := []; dataset_index := None; wave_loader := false |}.

(** [createArticleContainer]: a container that is on the page is
    removed, and the new one, not yet on the page, holds its title. *)
Definition createArticleContainer (p : page) : page * list element :=
  (set_container None p, [titleElement]).

(** [initializeArticleContainer]: the counts and the outline are copied
    to [window], the new container is put on the page and the heading
    'Generating...' is appended to it. *)
Definition initializeArticleContainer (p : page) : page :=
  let '(p1, articleContainer) := createArticleContainer p in
  {| container := Some (appendChild titleElement articleContainer);
     window_totalChapters := Some (totalChapters p1);
     window_completedChaptersCount := Some (completedChaptersCount p1);
     totalChapters := totalChapters p1;
     completedChaptersCount := completedChaptersCount p1;
     window_outlineData := Assigned (outlineData p1);
     outlineData := outlineData p1;
     currentOutlineText := currentOutlineText p1;
     window_displayArticleComplete := window_displayArticleComplete p1;
     window_handleStreamLine := window_handleStreamLine p1;
     window_cleanupLoadingStates := window_cleanupLoadingStates p1;
     log := log p1 |}.

(** The assignments of [generateArticle] to the variables of the script:
    [outlineData] first, then the two counts. *)
Definition set_outlineData (outline : jsstring) (p : page) : page :=
  {| container := container p;
     window_totalChapters := window_totalChapters p;
     window_completedChaptersCount := window_completedChaptersCount p;
     totalChapters := totalChapters p;
     completedChaptersCount := completedChaptersCount p;
     window_outlineData := window_outlineData p;
     outlineData := outline;
     currentOutlineText := currentOutlineText p;
     window_displayArticleComplete := window_displayArticleComplete p;
     window_handleStreamLine := window_handleStreamLine p;
     window_cleanupLoadingStates := window_cleanupLoadingStates p;
     log := log p |}.

Definition set_totals (total completed : Z) (p : page) : page :=
  {| container := container p;
     window_totalChapters := window_totalChapters p;
     window_completedChaptersCount := window_completedChaptersCount p;
     totalChapters := total;
     completedChaptersCount := completed;
     window_outlineData := window_outlineData p;
     outlineData := outlineData p;
     currentOutlineText := currentOutlineText p;
     window_displayArticleComplete := window_displayArticleComplete p;
     window_handleStreamLine := window_handleStreamLine p;
     window_cleanupLoadingStates := window_cleanupLoadingStates p;
     log := log p |}.

(** What a call of [generateArticle] leaves: the editor, the outlines
    posted to [/api/session/outline], the notifications shown before the
    stream is opened, and the page. *)
Record outcome : Type := {
  editor_after : editor;
  session_posts : list jsstring;
  notices : list sync_notice;
  page_after : page
}.

Section Generate.

Variable JSON_parse : jsstring -> json_body chapterData.

(** [generateArticle], with the reply to the outline update and the
    response to the generation request. *)
Definition generateArticle (sync : fetch_result reply)
    (response : stream_response) (ed : editor) (p : page) : outcome :=
  let '(ed1, posts1) :=
    if window_updateOutlineData ed then updateOutlineData ed else (ed, []) in
  let p0 := set_outlineData (getCurrentOutlineText ed1) p in
  if negb (truthy (outlineData p0)) then
    {| editor_after := ed1; session_posts := posts1;
       notices := [PleaseGenerateAnOutlineFirst]; page_after := p0 |}
  else
    let notice :=
      if updateOutlineInBackend sync then OutlineSynchronizedToBackend
      else OutlineSyncFailedButWillContinue in
    let p1 :=
      set_totals (Z.of_nat (chapters_length (outlineData p0))) 0 p0 in
    let p2 := initializeArticleContainer p1 in
    {| editor_after := ed1; session_posts := posts1 ++ [outlineData p0];
       notices := [notice];
       page_after := generateArticleStream JSON_parse response p2 |}.

End Generate.

End Generation.

(* ================================================================== *)
(** * Properties: the start of a generation                            *)
(* ================================================================== *)

Module GenerationFacts.

Import Article StreamFacts ChapterFacts ChapterErrorFacts RunFacts Generation.

(** ** What a run leaves alone *)

Section Kept.

Variable A : Type.
Variable obs : page -> A.

Hypothesis obs_set_container : forall c p, obs (set_container c p) = obs p.
Hypothesis obs_emit : forall e p, obs (emit e p) = obs p.
Hypothesis obs_count_completed : forall p, obs (count_completed p) = obs p.

Lemma kept_cleanup p : obs (cleanupLoadingStates p) = obs p.
Proof. unfold cleanupLoadingStates. destruct (container p); auto. Qed.

Lemma kept_removeProgress p : obs (removeProgress p) = obs p.
Proof. unfold removeProgress. destruct (container p); auto. Qed.

Lemma kept_displayArticleComplete p : obs (displayArticleComplete p) = obs p.
Proof.
  unfold displayArticleComplete. cbn [container emit].
  destruct (container p); now rewrite ?obs_set_container, obs_emit.
Qed.

Lemma kept_createCollapsibleChapter data p :
  obs (fst (createCollapsibleChapter data p)) = obs p.
Proof.
  destruct (createCollapsibleChapter_cases data p)
    as [(children & _ & _ & ->)|[_ ->]]; [apply obs_set_container | reflexivity].
Qed.

Lemma kept_displayChapterNetworkError d p :
  obs (fst (displayChapterNetworkError d p)) = obs p.
Proof.
  unfold displayChapterNetworkError. destruct d as [| |data]; try reflexivity.
  destruct (container p); [|reflexivity].
  destruct (first_match _ _) as [[pos e]|]; apply obs_set_container.
Qed.

Lemma kept_handleStreamLine JSON_parse line p :
  obs (fst (handleStreamLine JSON_parse line p)) = obs p.
Proof.
  unfold handleStreamLine.
  destruct (startsWith CHAPTER_DATA line).
  { destruct (JSON_parse _) as [| |data]; cbn [fst]; try apply obs_emit.
    pose proof (kept_createCollapsibleChapter data p) as H.
    destruct (createCollapsibleChapter data p) as [p1 [|e]]; cbn [fst] in *.
    - now rewrite obs_count_completed.
    - now rewrite obs_emit. }
  destruct (startsWith CHAPTER_ERROR line).
  { destruct (JSON_parse _) as [| |data] eqn:E; cbn [fst]; try reflexivity.
    pose proof (kept_displayChapterNetworkError (JsonObject data) p) as H.
    destruct (displayChapterNetworkError (JsonObject data) p) as [p1 [|[|]]];
      cbn [fst] in *; try exact H.
    now rewrite kept_cleanup, obs_emit. }
  destruct (str_eqb line ARTICLE_COMPLETE); [|reflexivity].
  cbv zeta. destruct (window_displayArticleComplete _); cbn [fst].
  - now rewrite obs_emit, kept_cleanup, kept_displayArticleComplete, obs_emit,
      kept_removeProgress.
  - now rewrite obs_emit, kept_removeProgress.
Qed.

Lemma kept_for_lines JSON_parse lines : forall p,
  obs (fst (for_lines (handleStreamLine JSON_parse) lines p)) = obs p.
Proof.
  induction lines as [|l lines IH]; intros p; simpl; [reflexivity|].
  destruct (truthy (trim l)); [|apply IH].
  pose proof (kept_handleStreamLine JSON_parse (trim l) p) as H.
  destruct (handleStreamLine JSON_parse (trim l) p) as [p' [|e]]; cbn [fst] in *;
    [now rewrite IH | exact H].
Qed.

Lemma kept_read_stream JSON_parse chunks ending p :
  obs (fst (read_stream (handleStreamLine JSON_parse) chunks ending p)) = obs p.
Proof.
  destruct ending.
  - rewrite read_stream_done. apply kept_for_lines.
  - rewrite read_stream_fails.
    pose proof (kept_for_lines JSON_parse (complete_lines (List.concat chunks)) p)
      as H.
    now destruct (for_lines _ _ p) as [p' [|e]].
Qed.

Lemma kept_generateArticleStream JSON_parse response p :
  obs (generateArticleStream JSON_parse response p) = obs p.
Proof.
  unfold generateArticleStream, showOverallProgress.
  destruct (container p) as [children|].
  - set (p2 := emit (post_articles generate_article)
                    (set_container (Some (appendChild progressElement children)) p)).
    assert (H2 : obs p2 = obs p)
      by (unfold p2; now rewrite obs_emit, obs_set_container).
    destruct response as [| |chunks ending];
      try (now rewrite kept_cleanup, obs_emit).
    pose proof (kept_read_stream JSON_parse chunks ending p2) as H.
    destruct (read_stream _ _ _ p2) as [p3 [|e]]; cbn [fst] in H.
    + now rewrite H.
    + now rewrite kept_cleanup, obs_emit, H.
  - now rewrite kept_cleanup, obs_emit.
Qed.

End Kept.

(** The outline and the total a run works with. *)
Definition plan (p : page) : option Z * window_property * Z * jsstring :=
  (window_totalChapters p, window_outlineData p, totalChapters p, outlineData p).

Lemma plan_generateArticleStream JSON_parse response p :
  plan (generateArticleStream JSON_parse response p) = plan p.
Proof.
  apply kept_generateArticleStream; try reflexivity.
  intros q. unfold count_completed.
  now destruct (window_completedChaptersCount q).
Qed.



(** ** The outline a generation reads *)

Lemma drop_while_app_keep p l c :
  p c = false -> drop_while p (l ++ [c]) = drop_while p l ++ [c].
Proof.
  intros Hc. induction l as [|a l IH]; simpl; [now rewrite Hc|].
  destruct (p a); [exact IH | reflexivity].
Qed.

(** Trimming keeps a first character that is not white space. *)
Lemma trim_keeps_head c s :
  is_white_space c = false -> exists s', trim (c :: s) = c :: s'.
Proof.
  intros Hc. unfold trim. cbn [drop_while]. rewrite Hc.
  cbn [List.rev]. rewrite drop_while_app_keep by exact Hc.
  rewrite rev_app_distr. cbn [List.rev app]. eexists. reflexivity.
Qed.

Lemma block_line_head b : exists s, SendTopic.block_line b = hash :: s.
Proof.
  unfold SendTopic.block_line, SendTopic.level_or_1.
  destruct (SendTopic.level b) as [|[|n]]; eexists; reflexivity.
Qed.

Lemma block_line_counted b :
  startsWith [hash] (trim (SendTopic.block_line b)) = true.
Proof.
  destruct (block_line_head b) as [s ->].
  destruct (@trim_keeps_head hash s eq_refl) as [s' ->]. reflexivity.
Qed.

Lemma block_line_plain b :
  RoundTripFacts.no_newline (SendTopic.textContent b) ->
  RoundTripFacts.no_newline (SendTopic.block_line b).
Proof.
  intros Ht H. unfold SendTopic.block_line in H.
  apply in_app_or in H as [H|H];
    [now apply (RoundTripFacts.hashes_no_newline (SendTopic.level_or_1 b))|].
  apply in_app_or in H as [H|H]; [|now apply Ht].
  destruct H as [H|[]]. discriminate.
Qed.

Lemma updateOutlineData_head b blocks :
  exists s, SendTopic.updateOutlineData (b :: blocks) = hash :: s.
Proof.
  unfold SendTopic.updateOutlineData. cbn [map].
  destruct (block_line_head b) as [s ->].
  destruct (map SendTopic.block_line blocks); eexists; reflexivity.
Qed.

(** The generator counts one chapter for each block. *)
Lemma chapters_length_updateOutlineData blocks :
  Forall (fun b => RoundTripFacts.no_newline (SendTopic.textContent b)) blocks ->
  chapters_length (SendTopic.updateOutlineData blocks) = List.length blocks.
Proof.
  intros Hall. destruct blocks as [|b0 blocks0] eqn:E; [reflexivity|].
  rewrite <- E in *.
  unfold chapters_length, SendTopic.updateOutlineData.
  rewrite RoundTripFacts.split_join.
  - clear. induction blocks as [|b blocks IH]; [reflexivity|].
    cbn [map filter]. rewrite block_line_counted. cbn [List.length].
    now rewrite IH.
  - rewrite E. discriminate.
  - apply Forall_forall. intros x Hx. apply in_map_iff in Hx as (b & <- & Hb).
    rewrite Forall_forall in Hall. now apply block_line_plain, Hall.
Qed.

(** X13. On the page of the editor, a generation reads the blocks. With
    the function of send_topic.js exported, the hidden input present and
    at least one block in the side bar, [generateArticle] first rewrites
    the hidden input from the blocks, whatever it held, and generates
    from that text: the lines ['#'.repeat(level) + ' ' + text] of the
    blocks joined by line feeds. The text is posted to
    [/api/session/outline] twice, once by the save of the editor (unless
    it is switched off) and once by the generator; and when no block text
    holds a line feed, the total of the run is the number of blocks. *)
Theorem generation_reads_the_blocks :
  forall (JSON_parse : jsstring -> json_body chapterData)
         (sync : fetch_result reply) (response : stream_response)
         (blocks : list SendTopic.block) (stale : jsstring) (skip : bool)
         (p : page),
    blocks <> [] ->
    let ed := {| sidebarNav := Some blocks; outlineDataInput := Some stale;
                 window_updateOutlineData := true;
                 window_skipSaveOutlineToHistory := skip |} in
    let o := generateArticle JSON_parse sync response ed p in
    let text := SendTopic.updateOutlineData blocks in
    outlineDataInput (editor_after o) = Some text /\
    window_outlineData (page_after o) = Assigned text /\
    session_posts o = (if skip then [] else [text]) ++ [text] /\
    (Forall (fun b => RoundTripFacts.no_newline (SendTopic.textContent b)) blocks ->
     window_totalChapters (page_after o) = Some (Z.of_nat (List.length blocks))).
Proof.
  intros JSON_parse sync response blocks stale skip p Hne ed o text.
  assert (Hhead : exists s, text = hash :: s)
    by (unfold text; destruct blocks; [congruence | apply updateOutlineData_head]).
  destruct Hhead as [s Hs].
  assert (Hsave : saveOutlineToHistory text = [text]).
  { unfold saveOutlineToHistory. rewrite Hs.
    destruct (@trim_keeps_head hash s eq_refl) as [s' ->]. reflexivity. }
  assert (Ho : o = {| editor_after :=
                        {| sidebarNav := Some blocks;
                           outlineDataInput := Some text;
                           window_updateOutlineData := true;
                           window_skipSaveOutlineToHistory := skip |};
                      session_posts := (if skip then [] else [text]) ++ [text];
                      notices :=
                        [if updateOutlineInBackend sync
                         then OutlineSynchronizedToBackend
                         else OutlineSyncFailedButWillContinue];
                      page_after :=
                        generateArticleStream JSON_parse response
                          (initializeArticleContainer
                             (set_totals (Z.of_nat (chapters_length text)) 0
                                         (set_outlineData text p))) |}).
  { unfold o, generateArticle, ed, updateOutlineData, outline_blocks,
      getCurrentOutlineText.
    cbn [window_updateOutlineData sidebarNav outlineDataInput
         window_skipSaveOutlineToHistory].
    fold text. rewrite Hsave. cbn [outlineData set_outlineData].
    rewrite Hs. cbn [truthy negb]. reflexivity. }
  rewrite Ho. cbn [editor_after page_after session_posts].
  pose proof (plan_generateArticleStream JSON_parse response
                (initializeArticleContainer
                   (set_totals (Z.of_nat (chapters_length text)) 0
                               (set_outlineData text p)))) as Hplan.
  unfold plan in Hplan. injection Hplan as H1 H2 _ _.
  split; [reflexivity|]. split; [exact H2|]. split; [reflexivity|].
  intros Hall. rewrite H1. cbn. unfold text.
  now rewrite chapters_length_updateOutlineData.
Qed.

Lemma generation_reads_the_blocks_witness :
  let blocks := [{| SendTopic.level := 1; SendTopic.textContent := lit "One" |};
                 {| SendTopic.level := 2; SendTopic.textContent := lit "Two" |}] in
  let ed := {| sidebarNav := Some blocks; outlineDataInput := Some (lit "# Old");
               window_updateOutlineData := true;
               window_skipSaveOutlineToHistory := false |} in
  let o := generateArticle sample_parse Rejected FetchRejected ed sample_page in
  window_outlineData (page_after o)
  = Assigned (lit "# One" ++ [newline] ++ lit "## Two") /\
  window_totalChapters (page_after o) = Some 2%Z.
Proof.
  intros blocks ed o.
  destruct (@generation_reads_the_blocks sample_parse Rejected FetchRejected
              blocks (lit "# Old") false sample_page)
    as (_ & H1 & _ & H2).
  - discriminate.
  - split; [exact H1|]. apply H2.
    repeat constructor; intros H; simpl in H;
      repeat (destruct H as [H|H]; [discriminate H|]); destruct H.
Defined.

(** ** The outline read without the hidden input *)

(** A block with its level set to 1 and its text trimmed. *)
Definition flat (b : SendTopic.block) : SendTopic.block :=
  {| SendTopic.level := 1;
     SendTopic.textContent := trim (SendTopic.textContent b) |}.

Lemma fallback_line_flat b :
  fallback_line b = SendTopic.block_line (flat b) ++ [newline].
Proof.
  unfold fallback_line, SendTopic.block_line, flat.
  cbn [parent_data_level SendTopic.level SendTopic.textContent
       SendTopic.level_or_1].
  change (repeat_hash (parseInt (lit "1"))) with (hashes 1).
  now rewrite <- !app_assoc.
Qed.

Lemma concat_lines (ls : list jsstring) :
  ls <> [] ->
  List.concat (map (fun l => l ++ [newline]) ls) = join_nl ls ++ [newline].
Proof.
  induction ls as [|l ls IH]; [congruence|]. intros _.
  destruct ls as [|l' ls'].
  - simpl. now rewrite app_nil_r.
  - change (join_nl (l :: l' :: ls')) with (l ++ newline :: join_nl (l' :: ls')).
    cbn [map List.concat] in *. rewrite IH by discriminate.
    now rewrite <- !app_assoc.
Qed.

Lemma trim_last s :
  match List.rev (trim s) with
  | c :: _ => is_white_space c = false
  | [] => True
  end.
Proof.
  unfold trim. rewrite rev_involutive. apply RoundTripFacts.drop_while_head.
Qed.

(** A text with no white space at either end is not changed by [trim]. *)
Lemma trim_tight s :
  match s with c :: _ => is_white_space c = false | [] => True end ->
  match List.rev s with c :: _ => is_white_space c = false | [] => True end ->
  trim s = s.
Proof.
  intros Hh Hl. unfold trim.
  assert (H1 : drop_while is_white_space s = s)
    by (destruct s as [|c s']; [reflexivity | simpl; now rewrite Hh]).
  rewrite H1.
  assert (H2 : drop_while is_white_space (List.rev s) = List.rev s)
    by (destruct (List.rev s) as [|c r]; [reflexivity | simpl; now rewrite Hl]).
  rewrite H2. apply rev_involutive.
Qed.

Lemma join_nl_last ls l : exists pre, join_nl (ls ++ [l]) = pre ++ l.
Proof.
  induction ls as [|a ls [pre IH]]; [now exists []|].
  destruct ls as [|b ls'].
  - exists (a ++ [newline]). simpl. now rewrite <- app_assoc.
  - exists (a ++ newline :: pre).
    change (join_nl ((a :: b :: ls') ++ [l]))
      with (a ++ newline :: join_nl ((b :: ls') ++ [l])).
    rewrite IH. now rewrite <- app_assoc.
Qed.

Lemma flat_line_tail b :
  RoundTripFacts.clean_text (trim (SendTopic.textContent b)) = true ->
  match List.rev (SendTopic.block_line (flat b)) with
  | c :: _ => is_white_space c = false
  | [] => True
  end.
Proof.
  intros Hc. unfold SendTopic.block_line, flat.
  cbn [SendTopic.level SendTopic.textContent SendTopic.level_or_1].
  rewrite !rev_app_distr.
  pose proof (trim_last (SendTopic.textContent b)) as Hl.
  destruct (List.rev (trim (SendTopic.textContent b))) as [|c r] eqn:E.
  - apply (f_equal (@List.rev _)) in E. rewrite rev_involutive in E.
    rewrite E in Hc. discriminate.
  - exact Hl.
Qed.

(** X14. Without the hidden input the levels are lost. When
    [getCurrentOutlineText] of article_utils.js finds no value in the
    hidden input, it reads the level of each block from the parent of its
    text, which carries none: the text it builds is the one the editor
    writes for the same blocks with every level set to 1 and every text
    trimmed, and read back it gives the nodes at level 1, whatever the
    levels of the blocks. The texts are taken not to be blank and to hold
    no line terminator. *)
Theorem fallback_outline_is_flat :
  forall (ed : editor) (blocks : list SendTopic.block),
    sidebarNav ed = Some blocks ->
    outlineDataInput ed = None \/ outlineDataInput ed = Some [] ->
    Forall (fun b => RoundTripFacts.clean_text (trim (SendTopic.textContent b))
                     = true) blocks ->
    getCurrentOutlineText ed = SendTopic.updateOutlineData (map flat blocks) /\
    SendTopic.parse_outline (getCurrentOutlineText ed)
    = map (fun b => (1, trim (SendTopic.textContent b))) blocks.
Proof.
  intros ed blocks Hs Hi Hall.
  assert (Htext : getCurrentOutlineText ed
                  = SendTopic.updateOutlineData (map flat blocks)).
  { assert (H0 : getCurrentOutlineText ed
                 = trim (List.concat (map fallback_line blocks))).
    { unfold getCurrentOutlineText. rewrite Hs.
      now destruct Hi as [-> | ->]. }
    rewrite H0. unfold SendTopic.updateOutlineData.
    destruct blocks as [|b0 blocks0] eqn:E; [reflexivity|]. rewrite <- E in *.
    replace (map fallback_line blocks)
      with (map (fun l => l ++ [newline])
                (map SendTopic.block_line (map flat blocks)))
      by (rewrite !map_map; apply map_ext; intros b;
          symmetry; apply fallback_line_flat).
    rewrite concat_lines by (rewrite E; discriminate).
    rewrite SidebarFacts.trim_app_white_space by reflexivity.
    apply trim_tight.
    - rewrite E. cbn [map]. destruct (block_line_head (flat b0)) as [s ->].
      now destruct (map SendTopic.block_line (map flat blocks0)).
    - assert (Hlast : exists bs b, blocks = bs ++ [b])
        by (destruct (@exists_last _ blocks) as (bs & b & ->);
            [rewrite E; discriminate | eauto]).
      destruct Hlast as (bs & b & Hb). rewrite Hb, !map_app. cbn [map].
      destruct (join_nl_last (map SendTopic.block_line (map flat bs))
                             (SendTopic.block_line (flat b))) as [pre ->].
      rewrite rev_app_distr.
      assert (Hc : RoundTripFacts.clean_text (trim (SendTopic.textContent b)) = true).
      { rewrite Forall_forall in Hall. apply Hall. rewrite Hb.
        apply in_or_app. right. now left. }
      pose proof (flat_line_tail b Hc) as Ht.
      destruct (List.rev (SendTopic.block_line (flat b))) as [|c r] eqn:Er;
        [|exact Ht].
      apply (f_equal (@List.length _)) in Er. rewrite length_rev in Er.
      destruct (block_line_head (flat b)) as [s Hs']. rewrite Hs' in Er.
      discriminate. }
  split; [exact Htext|].
  rewrite Htext, RoundTripFacts.round_trip_clean.
  - rewrite map_map. reflexivity.
  - apply Forall_forall. intros x Hx. apply in_map_iff in Hx as (b & <- & Hb).
    rewrite Forall_forall in Hall. split; [simpl; lia | now apply Hall].
Qed.

Lemma fallback_outline_is_flat_witness :
  let blocks := [{| SendTopic.level := 1; SendTopic.textContent := lit "One" |};
                 {| SendTopic.level := 2; SendTopic.textContent := lit " Two " |}] in
  let ed := {| sidebarNav := Some blocks; outlineDataInput := None;
               window_updateOutlineData := false;
               window_skipSaveOutlineToHistory := false |} in
  getCurrentOutlineText ed = lit "# One" ++ [newline] ++ lit "# Two" /\
  SendTopic.parse_outline (getCurrentOutlineText ed)
  = [(1, lit "One"); (1, lit "Two")].
Proof.
  intros blocks ed.
  destruct (@fallback_outline_is_flat ed blocks eq_refl (or_introl eq_refl))
    as [H1 H2].
  - repeat constructor.
  - split; [exact H1 | exact H2].
Defined.

End GenerationFacts.

(* ================================================================== *)
(** * send_topic.js and history_outline.js: collapsing outline items   *)
(* ================================================================== *)

Module Toggle.

(** An [.outline-block] with its toggle button: [hidden] tells whether
    the block has the class [collapsed]; [toggle_collapsed] and
    [no_children] are classes of the button, and [data_index] is the index
    the button carries. *)
Record item : Type := {
  level : nat;
  hidden : bool;
  toggle_collapsed : bool;
  no_children : bool;
  data_index : nat
}.

Definition set_hidden (h : bool) (b : item) : item :=
  {| level := level b; hidden := h; toggle_collapsed := toggle_collapsed b;
     no_children := no_children b; data_index := data_index b |}.

Definition set_toggle (c : bool) (b : item) : item :=
  {| level := level b; hidden := hidden b; toggle_collapsed := c;
     no_children := no_children b; data_index := data_index b |}.

(** The loop of [hideChildren] over the blocks after the parent. *)
Fixpoint hide_loop (parentLevel : nat) (blocks : list item) : list item :=
  match blocks with
  | [] => []
  | block :: rest =>
      if parentLevel <? level block
      then set_hidden true block :: hide_loop parentLevel rest
      else block :: rest
  end.

Definition hideChildren (outlineBlocks : list item)
    (parentIndex parentLevel : nat) : list item :=
  firstn (S parentIndex) outlineBlocks
  ++ hide_loop parentLevel (skipn (S parentIndex) outlineBlocks).

(** The inner loop of [showChildren]: among the blocks between the
    parent and the block, is there one of a level below that of the
    block and above that of the parent whose button is collapsed? *)
Definition collapsed_between (parentLevel lvl : nat) (between : list item) : bool :=
  existsb (fun parentBlock =>
             (level parentBlock <? lvl) && (parentLevel <? level parentBlock)
             && toggle_collapsed parentBlock)
          between.

(** The loop of [showChildren] over the blocks after the parent;
    [between] holds the blocks already passed, the nearest first. *)
Fixpoint show_loop (parentLevel : nat) (between blocks : list item)
  : list item :=
  match blocks with
  | [] => []
  | block :: rest =>
      if parentLevel <? level block then
        let block' :=
          if level block =? parentLevel + 1 then set_hidden false block
          else if collapsed_between parentLevel (level block) between then block
          else set_hidden false block in
        block' :: show_loop parentLevel (block' :: between) rest
      else block :: rest
  end.

Definition showChildren (outlineBlocks : list item)
    (parentIndex parentLevel : nat) : list item :=
  firstn (S parentIndex) outlineBlocks
  ++ show_loop parentLevel [] (skipn (S parentIndex) outlineBlocks).

(** Apply [f] to the [k]-th block. *)
Fixpoint update_at (k : nat) (f : item -> item) (blocks : list item)
  : list item :=
  match blocks, k with
  | [], _ => []
  | b :: rest, 0 => f b :: rest
  | b :: rest, S k' => b :: update_at k' f rest
  end.

(** A click on the toggle button of the [k]-th block. [None] stands for
    the [TypeError] thrown when no block has the index of the button. *)
Definition toggle_click (k : nat) (outlineBlocks : list item)
  : option (list item) :=
  match nth_error outlineBlocks k with
  | None => Some outlineBlocks
  | Some this =>
      if no_children this then Some outlineBlocks
      else
        let index := data_index this in
        match nth_error outlineBlocks index with
        | None => None
        | Some currentBlock =>
            let currentLevel := level currentBlock in
            if toggle_collapsed this then
              Some (showChildren (update_at k (set_toggle false) outlineBlocks)
                                 index currentLevel)
            else
              Some (hideChildren (update_at k (set_toggle true) outlineBlocks)
                                 index currentLevel)
        end
  end.

End Toggle.

(* ================================================================== *)
(** * Properties: collapsing and expanding                             *)
(* ================================================================== *)

Module ToggleFacts.

Import Toggle.

(** The blocks below a parent: the longest run of blocks after it whose
    level is greater than its own. *)
Fixpoint below (parentLevel : nat) (blocks : list item) : list item :=
  match blocks with
  | [] => []
  | b :: rest => if parentLevel <? level b then b :: below parentLevel rest else []
  end.

Definition descendants (blocks : list item) (k : nat) : list item :=
  match nth_error blocks k with
  | Some b => below (level b) (skipn (S k) blocks)
  | None => []
  end.

(** A block that is shown and whose button is not collapsed. *)
Definition expanded (b : item) : Prop :=
  hidden b = false /\ toggle_collapsed b = false.

Lemma set_hidden_same b : set_hidden (hidden b) b = b.
Proof. now destruct b. Qed.

Lemma set_toggle_same b : set_toggle (toggle_collapsed b) b = b.
Proof. now destruct b. Qed.

Lemma update_at_split k f blocks b :
  nth_error blocks k = Some b ->
  update_at k f blocks = firstn k blocks ++ f b :: skipn (S k) blocks.
Proof.
  revert k. induction blocks as [|x blocks IH]; intros [|k] H;
    try discriminate; simpl in *.
  - now injection H as ->.
  - now rewrite (IH k H).
Qed.

Lemma nth_error_split (blocks : list item) k b :
  nth_error blocks k = Some b ->
  blocks = firstn k blocks ++ b :: skipn (S k) blocks /\
  List.length (firstn k blocks) = k.
Proof.
  revert k. induction blocks as [|x blocks IH]; intros [|k] H;
    try discriminate; simpl in *.
  - injection H as ->. now split.
  - destruct (IH k H) as [H1 H2]. split; [now rewrite <- H1 | now rewrite H2].
Qed.

Lemma firstn_S_middle (pre : list item) b post :
  firstn (S (List.length pre)) (pre ++ b :: post) = pre ++ [b] /\
  skipn (S (List.length pre)) (pre ++ b :: post) = post.
Proof.
  induction pre as [|x pre [IH1 IH2]]; [now split|].
  split; simpl in *; [now rewrite IH1 | exact IH2].
Qed.

Lemma nth_error_middle (pre : list item) b post :
  nth_error (pre ++ b :: post) (List.length pre) = Some b.
Proof. induction pre; simpl; auto. Qed.

(** Showing what was hidden gives the blocks back when they were
    expanded. *)
Lemma show_hide_loop parentLevel blocks : forall between,
  Forall expanded (below parentLevel blocks) ->
  Forall (fun b => toggle_collapsed b = false) between ->
  show_loop parentLevel between (hide_loop parentLevel blocks) = blocks.
Proof.
  induction blocks as [|b blocks IH]; intros between Hall Hbetween;
    [reflexivity|].
  simpl in *. destruct (parentLevel <? level b) eqn:E; simpl; rewrite E;
    [|reflexivity].
  inversion Hall as [|? ? [Hh Ht] Hrest]; subst.
  assert (Hclear : collapsed_between parentLevel (level b) between = false).
  { unfold collapsed_between. clear -Hbetween.
    induction Hbetween as [|x l Hx _ IHl]; [reflexivity|].
    simpl. rewrite Hx, IHl. now rewrite andb_false_r. }
  rewrite Hclear.
  assert (Hb : set_hidden false (set_hidden true b) = b)
    by (destruct b; simpl in *; now subst).
  replace (if level b =? parentLevel + 1
           then set_hidden false (set_hidden true b)
           else set_hidden false (set_hidden true b)) with b
    by (now destruct (level b =? parentLevel + 1)).
  f_equal. apply IH; [exact Hrest|]. constructor; assumption.
Qed.

Lemma update_at_middle (pre : list item) f b post :
  update_at (List.length pre) f (pre ++ b :: post) = pre ++ f b :: post.
Proof. induction pre as [|x pre IH]; simpl; [reflexivity | now rewrite IH]. Qed.

(** A click on the button of the block after [pre]. *)
Lemma click_middle pre this post :
  no_children this = false -> data_index this = List.length pre ->
  toggle_click (List.length pre) (pre ++ this :: post)
  = Some (if toggle_collapsed this
          then pre ++ set_toggle false this
                   :: show_loop (level this) [] post
          else pre ++ set_toggle true this :: hide_loop (level this) post).
Proof.
  intros Hn Hi. unfold toggle_click. rewrite nth_error_middle, Hn, Hi.
  rewrite nth_error_middle. unfold showChildren, hideChildren.
  rewrite !update_at_middle.
  destruct (toggle_collapsed this).
  - destruct (firstn_S_middle pre (set_toggle false this) post) as [-> ->].
    now rewrite <- app_assoc.
  - destruct (firstn_S_middle pre (set_toggle true this) post) as [-> ->].
    now rewrite <- app_assoc.
Qed.

Lemma hide_loop_below parentLevel post :
  hide_loop parentLevel post
  = map (set_hidden true) (below parentLevel post)
    ++ skipn (List.length (below parentLevel post)) post.
Proof.
  induction post as [|b post IH]; [reflexivity|]. simpl.
  destruct (parentLevel <? level b); [|reflexivity]. simpl. now rewrite IH.
Qed.

(** X15. Collapsing an item and expanding it again. A click on the
    toggle button of an item that has children, while the item and the
    blocks below it are shown with their buttons not collapsed, hides the
    blocks below it, which are the blocks after it up to the next block
    of a level not greater than its own, and leaves the other blocks as
    they are; a second click restores the list of blocks. *)
Theorem collapse_then_expand :
  forall (blocks : list item) (k : nat) (this : item),
    nth_error blocks k = Some this ->
    data_index this = k ->
    no_children this = false ->
    toggle_collapsed this = false ->
    Forall expanded (descendants blocks k) ->
    exists collapsed,
      toggle_click k blocks = Some collapsed /\
      collapsed
      = firstn k blocks ++ set_toggle true this
        :: map (set_hidden true) (descendants blocks k)
        ++ skipn (S k + List.length (descendants blocks k)) blocks /\
      toggle_click k collapsed = Some blocks.
Proof.
  intros blocks k this Hk Hi Hn Ht Hall.
  unfold descendants in *. rewrite Hk in *.
  destruct (nth_error_split _ _ Hk) as [Hsplit Hlen].
  assert (Hskip : forall n, skipn (S k + n) blocks = skipn n (skipn (S k) blocks))
    by (intros n; now rewrite skipn_skipn, Nat.add_comm).
  rewrite Hskip.
  revert Hsplit Hlen Hall.
  generalize (firstn k blocks) as pre. generalize (skipn (S k) blocks) as post.
  intros post pre Hsplit Hlen Hall. subst blocks. clear Hskip Hk.
  rewrite <- Hlen in *. clear Hlen k.
  exists (pre ++ set_toggle true this :: hide_loop (level this) post).
  split; [|split].
  - rewrite click_middle by assumption. now rewrite Ht.
  - now rewrite hide_loop_below.
  - rewrite (@click_middle pre (set_toggle true this)) by assumption.
    cbn [toggle_collapsed set_toggle level].
    rewrite show_hide_loop by (assumption || constructor).
    replace (set_toggle false (set_toggle true this)) with this
      by (destruct this; simpl in *; now subst).
    reflexivity.
Qed.

Lemma collapse_then_expand_witness :
  let block l := {| level := l; hidden := false; toggle_collapsed := false;
                    no_children := false; data_index := 0 |} in
  let blocks := [block 1; block 2; block 3; block 1] in
  toggle_click 0 blocks
  = Some [set_toggle true (block 1); set_hidden true (block 2);
          set_hidden true (block 3); block 1] /\
  toggle_click 0 [set_toggle true (block 1); set_hidden true (block 2);
                  set_hidden true (block 3); block 1]
  = Some blocks.
Proof.
  intros block blocks.
  destruct (@collapse_then_expand blocks 0 (block 1) eq_refl eq_refl eq_refl eq_refl)
    as (collapsed & H1 & H2 & H3).
  - repeat constructor.
  - rewrite H2 in H3. split; [rewrite H1, H2; reflexivity | exact H3].
Defined.

(** Without the condition on the buttons the second click does not
    restore the blocks: below the item of level 1 lie an item of level 2
    whose button is collapsed, its hidden child, a second item of level 2
    and its child, which is shown. After collapsing and expanding the
    first item, the child of the second item of level 2 is hidden: the
    inner loop of [showChildren] stops at the collapsed button of the
    first one, which is not its parent. *)
Lemma expand_hides_a_shown_block :
  let block l h c := {| level := l; hidden := h; toggle_collapsed := c;
                        no_children := false; data_index := 0 |} in
  let blocks := [block 1 false false; block 2 false true; block 3 true false;
                 block 2 false false; block 3 false false] in
  match toggle_click 0 blocks with
  | Some collapsed =>
      option_map (map hidden) (toggle_click 0 collapsed)
      = Some [false; false; true; false; true]
  | None => False
  end.
Proof. reflexivity. Qed.

(** ** What expanding leaves hidden *)

(** What the loops never change. *)
Definition button (b : item) : nat * bool * bool * nat :=
  (level b, toggle_collapsed b, no_children b, data_index b).

Lemma collapsed_between_cons parentLevel lvl x between :
  collapsed_between parentLevel lvl (x :: between)
  = (level x <? lvl) && (parentLevel <? level x) && toggle_collapsed x
    || collapsed_between parentLevel lvl between.
Proof. reflexivity. Qed.

Lemma show_loop_keeps parentLevel post : forall between i b,
  nth_error post i = Some b ->
  level b <> parentLevel + 1 ->
  collapsed_between parentLevel (level b) between = true \/
  (exists j x, j < i /\ nth_error post j = Some x /\
               level x < level b /\ parentLevel < level x /\
               toggle_collapsed x = true) ->
  nth_error (show_loop parentLevel between post) i = Some b.
Proof.
  induction post as [|x0 post IH]; intros between i b Hi Hlvl H;
    [now destruct i|].
  cbn [show_loop]. destruct (parentLevel <? level x0) eqn:E0; [|exact Hi].
  destruct i as [|i].
  - simpl in Hi. injection Hi as ->. simpl.
    destruct (Nat.eqb_spec (level b) (parentLevel + 1)) as [He|_]; [contradiction|].
    destruct H as [->|(j & x & Hj & _)]; [reflexivity | lia].
  - simpl in Hi. cbn [nth_error]. apply IH; [exact Hi | exact Hlvl |].
    destruct H as [H|(j & x & Hj & Hx & H1 & H2 & H3)].
    + left. rewrite collapsed_between_cons, H. apply orb_true_r.
    + destruct j as [|j].
      * simpl in Hx. injection Hx as ->. left.
        rewrite collapsed_between_cons.
        assert (Hb : forall y, button y = button x ->
                  (level y <? level b) && (parentLevel <? level y)
                  && toggle_collapsed y = true).
        { intros y Hy. unfold button in Hy. injection Hy as -> -> _ _.
          rewrite H3. apply Nat.ltb_lt in H1, H2. now rewrite H1, H2. }
        rewrite Hb; [reflexivity|].
        destruct (level x =? parentLevel + 1); [reflexivity|].
        now destruct (collapsed_between parentLevel (level x) between).
      * right. exists j, x. repeat split; try assumption. lia.
Qed.

Lemma button_show_loop parentLevel post : forall between,
  map button (show_loop parentLevel between post) = map button post.
Proof.
  induction post as [|b post IH]; intros between; [reflexivity|].
  cbn [show_loop]. destruct (parentLevel <? level b); [|reflexivity].
  cbn [map]. rewrite IH. f_equal.
  destruct (level b =? parentLevel + 1); [reflexivity|].
  now destruct (collapsed_between parentLevel (level b) between).
Qed.

Lemma button_hide_loop parentLevel post :
  map button (hide_loop parentLevel post) = map button post.
Proof.
  induction post as [|b post IH]; [reflexivity|].
  cbn [hide_loop]. destruct (parentLevel <? level b); [|reflexivity].
  cbn [map]. now rewrite IH.
Qed.

Lemma nth_error_after (blocks : list item) n i :
  n <= i -> nth_error blocks i = nth_error (skipn n blocks) (i - n).
Proof.
  revert blocks i. induction n as [|n IH]; intros blocks i Hi.
  - now rewrite Nat.sub_0_r.
  - destruct i as [|i]; [lia|].
    destruct blocks as [|b blocks]; [simpl; now destruct (i - n)|].
    simpl. apply IH. lia.
Qed.

Lemma nth_error_rebuilt (blocks : list item) n tail i :
  n <= i -> n <= List.length blocks ->
  nth_error (firstn n blocks ++ tail) i = nth_error tail (i - n).
Proof.
  intros Hi Hn. rewrite nth_error_app2; rewrite length_firstn; [|lia].
  f_equal. lia.
Qed.

(** X16. Expanding an item never reveals a block below a collapsed one.
    In [showChildren], a block after the parent stays as it is when some
    block between the parent and it, of a level below its own and above
    that of the parent, has its button collapsed; this holds in
    particular when one of its ancestors below the parent is collapsed.
    Neither [showChildren] nor [hideChildren] changes a block up to the
    parent, the number of blocks, or the level and the button of any
    block. *)
Theorem expanding_respects_collapsed_items :
  forall (blocks : list item) (parentIndex parentLevel : nat),
    (forall i j b x,
       parentIndex < j -> j < i ->
       nth_error blocks i = Some b -> nth_error blocks j = Some x ->
       parentLevel < level x -> level x < level b ->
       toggle_collapsed x = true ->
       nth_error (showChildren blocks parentIndex parentLevel) i = Some b) /\
    (forall i, i <= parentIndex ->
       nth_error (showChildren blocks parentIndex parentLevel) i
       = nth_error blocks i /\
       nth_error (hideChildren blocks parentIndex parentLevel) i
       = nth_error blocks i) /\
    map button (showChildren blocks parentIndex parentLevel) = map button blocks /\
    map button (hideChildren blocks parentIndex parentLevel) = map button blocks.
Proof.
  intros blocks parentIndex parentLevel.
  assert (Hparts : forall f : list item -> list item,
            (forall l, map button (f l) = map button l) ->
            map button (firstn (S parentIndex) blocks
                        ++ f (skipn (S parentIndex) blocks))
            = map button blocks).
  { intros f Hf. rewrite map_app, Hf, <- map_app. now rewrite firstn_skipn. }
  assert (Hhead : forall tail i, i <= parentIndex ->
            nth_error (firstn (S parentIndex) blocks ++ tail) i
            = nth_error blocks i
            \/ (List.length blocks <= i /\ nth_error blocks i = None)).
  { intros tail i Hi.
    destruct (Nat.lt_ge_cases i (List.length blocks)) as [Hlt|Hge].
    - left. rewrite nth_error_app1 by (rewrite length_firstn; lia).
      rewrite nth_error_firstn.
      now replace (i <? S parentIndex) with true
        by (symmetry; apply Nat.ltb_lt; lia).
    - right. split; [exact Hge|]. now apply nth_error_None. }
  split; [|split; [|split]].
  - intros i j b x Hj Hji Hb Hx H1 H2 H3. unfold showChildren.
    assert (Hlen : i < List.length blocks)
      by (apply nth_error_Some; congruence).
    rewrite nth_error_rebuilt by lia.
    apply show_loop_keeps.
    + now rewrite <- nth_error_after by lia.
    + lia.
    + right. exists (j - S parentIndex), x.
      split; [lia|]. split; [now rewrite <- nth_error_after by lia|].
      repeat split; assumption.
  - intros i Hi. unfold showChildren, hideChildren. split.
    + destruct (Hhead (show_loop parentLevel [] (skipn (S parentIndex) blocks))
                      i Hi) as [H|[Hge Hnone]]; [exact H|].
      rewrite Hnone. apply nth_error_None.
      rewrite length_app, length_firstn.
      rewrite skipn_all2 by lia. cbn [show_loop hide_loop List.length]. lia.
    + destruct (Hhead (hide_loop parentLevel (skipn (S parentIndex) blocks))
                      i Hi) as [H|[Hge Hnone]]; [exact H|].
      rewrite Hnone. apply nth_error_None.
      rewrite length_app, length_firstn.
      rewrite skipn_all2 by lia. cbn [show_loop hide_loop List.length]. lia.
  - apply (Hparts (show_loop parentLevel [])). intros l.
    apply button_show_loop.
  - apply (Hparts (hide_loop parentLevel)). intros l. apply button_hide_loop.
Qed.

Lemma expanding_respects_collapsed_items_witness :
  let block l h c := {| level := l; hidden := h; toggle_collapsed := c;
                        no_children := false; data_index := 0 |} in
  let blocks := [block 1 false false; block 2 true true; block 3 true false] in
  nth_error (showChildren blocks 0 1) 2 = Some (block 3 true false).
Proof.
  intros block blocks.
  apply (proj1 (@expanding_respects_collapsed_items blocks 0 1)
               2 1 (block 3 true false) (block 2 true true));
    try reflexivity; simpl; lia.
Defined.

End ToggleFacts.

(* ================================================================== *)
(** * history_outline.js: editing a history outline                    *)
(* ================================================================== *)

Module HistoryEditing.

Import SendTopic Generation.

(** One turn of the [forEach] of [updateOutlineData] and of
    [saveHistoryOutlineChanges]. [dataset.level] holds the decimal text
    of the level, which is not empty. *)
Definition outline_line (b : block) : jsstring :=
  hashes (level b) ++ lit " " ++ textContent b ++ [newline].

Definition outline_text (outlineBlocks : list block) : jsstring :=
  List.concat (map outline_line outlineBlocks).

Definition set_input (value : jsstring) (ed : editor) : editor :=
  {| sidebarNav := sidebarNav ed;
     outlineDataInput :=
       match outlineDataInput ed with
       | Some _ => Some value
       | None => None
       end;
     window_updateOutlineData := window_updateOutlineData ed;
     window_skipSaveOutlineToHistory := window_skipSaveOutlineToHistory ed |}.

Definition set_blocks (blocks : list block) (ed : editor) : editor :=
  {| sidebarNav := Some blocks;
     outlineDataInput := outlineDataInput ed;
     window_updateOutlineData := window_updateOutlineData ed;
     window_skipSaveOutlineToHistory := window_skipSaveOutlineToHistory ed |}.

(** [updateOutlineData(saveToHistory)] of the history manager, with the
    outlines it has posted. A missing container and an empty list of
    blocks both make it return. *)
Definition updateOutlineData (saveToHistory : bool) (ed : editor)
  : editor * list jsstring :=
  if saveToHistory && window_updateOutlineData ed
  then Generation.updateOutlineData ed
  else
    match sidebarNav ed with
    | None | Some [] => (ed, [])
    | Some outlineBlocks => (set_input (outline_text outlineBlocks) ed, [])
    end.

(** [saveHistoryOutlineChanges]: the outline posted to
    [/api/session/outline] and the position it is posted for. *)
Definition saveHistoryOutlineChanges (selectedPos : option jsval)
    (window_currentPos : jsval) (ed : editor) : list (jsstring * jsval) :=
  match sidebarNav ed with
  | None | Some [] => []
  | Some outlineBlocks =>
      let targetPos :=
        match selectedPos with
        | Some pos => pos
        | None => window_currentPos
        end in
      [(outline_text outlineBlocks, targetPos)]
  end.

(** A click on the delete button of the [i]-th block. *)
Definition delete_click (i : nat) (selectedPos : option jsval)
    (window_currentPos : jsval) (ed : editor)
  : editor * list (jsstring * jsval) :=
  match sidebarNav ed with
  | None => (ed, [])
  | Some outlineBlocks =>
      let ed1 := set_blocks (remove_nth i outlineBlocks) ed in
      let ed2 := fst (updateOutlineData false ed1) in
      (ed2, saveHistoryOutlineChanges selectedPos window_currentPos ed2)
  end.

End HistoryEditing.

(* ================================================================== *)
(** * Properties: the outline of a history record                      *)
(* ================================================================== *)

Module HistoryEditingFacts.

Import SendTopic Article RoundTripFacts StreamFacts Generation HistoryEditing.

Lemma split_nl_trailing text : split_nl (text ++ [newline]) = split_nl text ++ [[]].
Proof.
  rewrite split_nl_app.
  rewrite (@split_nl_cons_line (pending text) []) by apply pending_no_newline.
  rewrite (split_nl_parts text). now rewrite <- app_assoc.
Qed.

Lemma parse_outline_trailing text :
  parse_outline (text ++ [newline]) = parse_outline text.
Proof.
  unfold parse_outline, outline_lines. rewrite split_nl_trailing, filter_app.
  simpl. now rewrite app_nil_r.
Qed.

Lemma chapters_length_trailing text :
  chapters_length (text ++ [newline]) = chapters_length text.
Proof.
  unfold chapters_length. rewrite split_nl_trailing, filter_app.
  simpl. now rewrite app_nil_r.
Qed.

Lemma outline_text_lines blocks :
  blocks <> [] -> Forall (fun b => 1 <= level b) blocks ->
  outline_text blocks = SendTopic.updateOutlineData blocks ++ [newline].
Proof.
  intros Hne Hall. unfold outline_text, SendTopic.updateOutlineData.
  rewrite <- GenerationFacts.concat_lines
    by (destruct blocks; [congruence | discriminate]).
  rewrite map_map. f_equal. apply map_ext_in. intros b Hb.
  rewrite Forall_forall in Hall. unfold outline_line, block_line.
  rewrite level_or_1_pos by now apply Hall. now rewrite <- !app_assoc.
Qed.

(** X17. The two serializers of the outline agree up to a final line
    feed. For blocks of level 1 or more, the text that the history
    manager writes to the hidden input is the text that the editor of
    send_topic.js writes for the same blocks, followed by a line feed;
    read back by [displayOutlineInSidebar] both give the same nodes, and
    the generator counts the same number of chapters in both. Which of
    the two is called depends on the argument [saveToHistory] and on
    whether the function of send_topic.js is exported. *)
Theorem history_serializer_agrees :
  forall (ed : editor) (blocks : list block) (stale : jsstring)
         (saveToHistory : bool),
    sidebarNav ed = Some blocks -> blocks <> [] ->
    outlineDataInput ed = Some stale ->
    Forall (fun b => 1 <= level b) blocks ->
    let text := SendTopic.updateOutlineData blocks in
    let written :=
      outlineDataInput (fst (updateOutlineData saveToHistory ed)) in
    written = Some (if saveToHistory && window_updateOutlineData ed
                    then text else text ++ [newline]) /\
    parse_outline (text ++ [newline]) = parse_outline text /\
    chapters_length (text ++ [newline]) = chapters_length text.
Proof.
  intros ed blocks stale saveToHistory Hs Hne Hi Hall text written.
  split; [|split; [apply parse_outline_trailing | apply chapters_length_trailing]].
  unfold written, updateOutlineData.
  destruct (saveToHistory && window_updateOutlineData ed).
  - unfold Generation.updateOutlineData, outline_blocks. cbn [fst outlineDataInput].
    now rewrite Hi, Hs.
  - rewrite Hs. destruct blocks as [|b blocks']; [congruence|].
    cbn [fst set_input outlineDataInput]. rewrite Hi.
    now rewrite outline_text_lines.
Qed.

Lemma history_serializer_agrees_witness :
  let blocks := [{| level := 1; textContent := lit "One" |};
                 {| level := 2; textContent := lit "Two" |}] in
  let ed := {| sidebarNav := Some blocks; outlineDataInput := Some [];
               window_updateOutlineData := false;
               window_skipSaveOutlineToHistory := false |} in
  outlineDataInput (fst (updateOutlineData false ed))
  = Some (lit "# One" ++ [newline] ++ lit "## Two" ++ [newline]).
Proof.
  intros blocks ed.
  refine (proj1 (@history_serializer_agrees ed blocks [] false
                   eq_refl _ eq_refl _)).
  - discriminate.
  - repeat constructor.
Defined.

(** X18. Deleting a block of a history outline. When blocks remain, the
    hidden input is rewritten from them and the same text is posted for
    the selected position, or for the current one when none is selected.
    When the deleted block was the only one, both functions return
    early: the hidden input keeps the outline with the deleted item,
    nothing is posted, and [getCurrentOutlineText] still returns the old
    outline. *)
Theorem deleting_a_history_block :
  forall (ed : editor) (blocks : list block) (old : jsstring) (i : nat)
         (selectedPos : option jsval) (window_currentPos : jsval),
    sidebarNav ed = Some blocks ->
    outlineDataInput ed = Some old ->
    i < List.length blocks ->
    let ed' := fst (delete_click i selectedPos window_currentPos ed) in
    let posts := snd (delete_click i selectedPos window_currentPos ed) in
    sidebarNav ed' = Some (remove_nth i blocks) /\
    (remove_nth i blocks <> [] ->
       outlineDataInput ed' = Some (outline_text (remove_nth i blocks)) /\
       posts = [(outline_text (remove_nth i blocks),
                 match selectedPos with
                 | Some pos => pos
                 | None => window_currentPos
                 end)]) /\
    (List.length blocks = 1 ->
       outlineDataInput ed' = Some old /\ posts = [] /\
       (old <> [] -> getCurrentOutlineText ed' = old)).
Proof.
  intros ed blocks old i selectedPos window_currentPos Hs Hi Hlt ed' posts.
  unfold ed', posts, delete_click. rewrite Hs. cbn [fst snd].
  unfold updateOutlineData. cbn [andb sidebarNav set_blocks].
  destruct (remove_nth i blocks) as [|b rest] eqn:Er.
  - cbn [fst]. unfold saveHistoryOutlineChanges. cbn [sidebarNav set_blocks].
    split; [reflexivity|]. split; [congruence|]. intros _.
    cbn [outlineDataInput set_blocks]. split; [exact Hi|]. split; [reflexivity|].
    intros Hold. unfold getCurrentOutlineText. cbn [outlineDataInput set_blocks].
    rewrite Hi. destruct old; [congruence | reflexivity].
  - cbn [fst]. unfold saveHistoryOutlineChanges.
    cbn [sidebarNav set_blocks set_input outlineDataInput]. rewrite Hi.
    split; [reflexivity|]. split; [intros _; split; reflexivity|].
    intros Hone. exfalso.
    destruct blocks as [|x [|y l]]; simpl in Hone; try lia.
    destruct i; [discriminate Er | simpl in Hlt; lia].
Qed.

Lemma deleting_a_history_block_witness :
  let ed := {| sidebarNav := Some [{| level := 1; textContent := lit "One" |}];
               outlineDataInput := Some (lit "# One" ++ [newline]);
               window_updateOutlineData := false;
               window_skipSaveOutlineToHistory := false |} in
  let ed' := fst (delete_click 0 None (Int 0) ed) in
  sidebarNav ed' = Some [] /\
  getCurrentOutlineText ed' = lit "# One" ++ [newline].
Proof.
  intros ed ed'.
  destruct (@deleting_a_history_block ed
              [{| level := 1; textContent := lit "One" |}]
              (lit "# One" ++ [newline]) 0 None (Int 0) eq_refl eq_refl)
    as (H1 & _ & H2).
  - simpl. lia.
  - split; [exact H1|]. apply H2; [reflexivity | discriminate].
Defined.

End HistoryEditingFacts.

(* ================================================================== *)
(** * article_utils.js: rows of a Markdown table                       *)
(* ================================================================== *)

Module Tables.

Definition pipe : char16 := 124%N.
Definition backslash : char16 := 92%N.
Definition space : char16 := 32%N.

(** [s.replace(/\|/g, '\\|')] *)
Fixpoint escape_pipes (s : jsstring) : jsstring :=
  match s with
  | [] => []
  | c :: r =>
      if (c =? pipe)%N then backslash :: pipe :: escape_pipes r
      else c :: escape_pipes r
  end.

(** [s.replace(/\\\|/g, '|')] *)
Fixpoint unescape_pipes (s : jsstring) : jsstring :=
  match s with
  | [] => []
  | a :: tl =>
      match tl with
      | b :: r =>
          if ((a =? backslash) && (b =? pipe))%N then pipe :: unescape_pipes r
          else a :: unescape_pipes tl
      | [] => [a]
      end
  end.

(** [s.replace(/^\||\|$/g, '')]: a pipe at the start and a pipe at the
    end are removed. *)
Definition strip_outer_pipes (s : jsstring) : jsstring :=
  let s1 :=
    match s with
    | c :: r => if (c =? pipe)%N then r else s
    | [] => []
    end in
  match List.rev s1 with
  | c :: r => if (c =? pipe)%N then List.rev r else s1
  | [] => []
  end.

(** [s.split(/(?<!\\)\|/)]: the pieces between the pipes that do not
    follow a backslash; [after_backslash] tells whether the character
    before the current one is a backslash. *)
Fixpoint split_pipes (after_backslash : bool) (cur : jsstring) (s : jsstring)
  : list jsstring :=
  match s with
  | [] => [List.rev cur]
  | c :: r =>
      if (c =? pipe)%N && negb after_backslash
      then List.rev cur :: split_pipes false [] r
      else split_pipes (c =? backslash)%N (c :: cur) r
  end.

Definition parseTableRow (row : jsstring) : list jsstring :=
  if negb (truthy row) then []
  else
    let cleanRow := strip_outer_pipes (trim row) in
    if negb (truthy cleanRow) then []
    else map (fun cell => unescape_pipes (trim cell))
             (split_pipes false [] cleanRow).

(** [texts.join(sep)] *)
Fixpoint join (sep : jsstring) (texts : list jsstring) : jsstring :=
  match texts with
  | [] => []
  | [t] => t
  | t :: rest => t ++ sep ++ join sep rest
  end.

(** [cell.textContent.trim().replace(/\|/g, '\\|')] *)
Definition cell_text (textContent : jsstring) : jsstring :=
  escape_pipes (trim textContent).

(** ['| ' + texts.join(' | ') + ' |'] *)
Definition row_line (texts : list jsstring) : jsstring :=
  lit "| " ++ join (lit " | ") texts ++ lit " |".

(** The [while] loop that pads a row with empty texts. *)
Definition pad (n : nat) (cellTexts : list jsstring) : list jsstring :=
  cellTexts ++ repeat [] (n - List.length cellTexts).

(** The line written for a data row under a header of [n] cells. *)
Definition data_line (n : nat) (cells : list jsstring) : jsstring :=
  row_line (firstn n (pad n (map cell_text cells))).

(** [convertTableToMarkdown] for the rows of a table, each the list of
    the texts of its cells. *)
Definition convertTableToMarkdown (rows : list (list jsstring)) : jsstring :=
  match rows with
  | [] => []
  | headerCells :: dataRows =>
      match headerCells with
      | [] => []
      | _ :: _ =>
          let headerTexts := map cell_text headerCells in
          let separators := map (fun _ => lit "---") headerTexts in
          row_line headerTexts ++ [newline]
          ++ row_line separators ++ [newline]
          ++ List.concat
               (map (fun cells =>
                       data_line (List.length headerTexts) cells ++ [newline])
                    dataRows)
      end
  end.

End Tables.

(* ================================================================== *)
(** * Properties: a table row written and read back                    *)
(* ================================================================== *)

Module TableFacts.

Import Tables.

Lemma escape_pipes_head s :
  match escape_pipes s with
  | c :: _ => c <> pipe
  | [] => True
  end.
Proof.
  destruct s as [|c s]; [exact I|]. simpl.
  destruct (N.eqb_spec c pipe); [discriminate | assumption].
Qed.

Lemma unescape_escape s : unescape_pipes (escape_pipes s) = s.
Proof.
  induction s as [|c s IH]; [reflexivity|].
  cbn [escape_pipes]. destruct (N.eqb_spec c pipe) as [->|Hc].
  - cbn [unescape_pipes]. change ((backslash =? backslash)%N) with true.
    change ((pipe =? pipe)%N) with true. cbn [andb]. now rewrite IH.
  - pose proof (escape_pipes_head s) as Hh.
    cbn [unescape_pipes]. rewrite IH.
    destruct (escape_pipes s) as [|b r] eqn:E.
    + destruct s as [|x s']; [reflexivity|]. simpl in E.
      destruct (x =? pipe)%N; discriminate.
    + destruct (N.eqb_spec b pipe) as [->|Hb]; [contradiction|].
      now rewrite andb_false_r.
Qed.

(** No pipe of an escaped text splits the row. *)
Lemma split_pipes_escaped t : forall after cur rest,
  split_pipes after cur (escape_pipes t ++ space :: rest)
  = split_pipes false (space :: List.rev (escape_pipes t) ++ cur) rest.
Proof.
  induction t as [|c t IH]; intros after cur rest; [reflexivity|].
  cbn [escape_pipes]. destruct (N.eqb_spec c pipe) as [->|Hc].
  - cbn [app split_pipes]. change ((backslash =? pipe)%N) with false.
    change ((backslash =? backslash)%N) with true.
    change ((pipe =? pipe)%N) with true. cbn [andb negb].
    change ((pipe =? backslash)%N) with false.
    rewrite IH. cbn [List.rev]. now rewrite <- !app_assoc.
  - cbn [app split_pipes].
    replace ((c =? pipe)%N) with false by (symmetry; now apply N.eqb_neq).
    cbn [andb]. rewrite IH. cbn [List.rev]. now rewrite <- !app_assoc.
Qed.

(** The inner part of a row is split at the pipes that separate its
    texts. *)
Lemma split_pipes_row texts : forall cur t,
  split_pipes false cur
    (join (lit " | ") (map escape_pipes (t :: texts)) ++ [space])
  = map (fun e => List.rev cur ++ e ++ [space]) [escape_pipes t]
    ++ map (fun e => space :: e ++ [space]) (map escape_pipes texts).
Proof.
  induction texts as [|t' texts IH]; intros cur t.
  - cbn [map join app]. rewrite split_pipes_escaped. cbn [split_pipes].
    cbn [List.rev]. unfold jsstring, char16 in *.
    rewrite rev_app_distr, rev_involutive.
    now rewrite <- app_assoc.
  - change (join (lit " | ") (map escape_pipes (t :: t' :: texts)))
      with (escape_pipes t ++ lit " | "
            ++ join (lit " | ") (map escape_pipes (t' :: texts))).
    rewrite <- !app_assoc.
    change (lit " | " ++ join (lit " | ") (map escape_pipes (t' :: texts))
            ++ [space])
      with (space :: pipe :: space
            :: (join (lit " | ") (map escape_pipes (t' :: texts)) ++ [space])).
    rewrite split_pipes_escaped. cbn [split_pipes].
    change ((pipe =? pipe)%N) with true. cbn [andb negb].
    cbn [split_pipes]. change ((space =? pipe)%N) with false. cbn [andb].
    change ((space =? backslash)%N) with false.
    rewrite (IH [space] t'). cbn [map app List.rev].
    unfold jsstring, char16 in *.
    rewrite rev_app_distr, rev_involutive. now rewrite <- !app_assoc.
Qed.

Lemma trim_leading_white_space c s :
  is_white_space c = true -> trim (c :: s) = trim s.
Proof. intros Hc. unfold trim. cbn [drop_while]. now rewrite Hc. Qed.

Lemma escape_pipes_last s :
  match List.rev (escape_pipes s), List.rev s with
  | c :: _, d :: _ => c = d
  | [], [] => True
  | _, _ => False
  end.
Proof.
  induction s as [|a s IH]; [exact I|].
  cbn [escape_pipes List.rev].
  destruct (N.eqb_spec a pipe) as [->|Ha]; cbn [List.rev];
    destruct (List.rev (escape_pipes s)) as [|c r], (List.rev s) as [|d r'];
    try contradiction; simpl; try reflexivity; exact IH.
Qed.

(** An escaped trimmed text has no white space at either end. *)
Lemma trim_cell_text t : trim (cell_text t) = cell_text t.
Proof.
  unfold cell_text. apply GenerationFacts.trim_tight.
  - pose proof (RoundTripFacts.trim_head t) as Hh.
    destruct (trim t) as [|c s]; [exact I|]. simpl.
    destruct (c =? pipe)%N; [reflexivity | exact Hh].
  - pose proof (GenerationFacts.trim_last t) as Hl.
    pose proof (escape_pipes_last (trim t)) as He.
    destruct (List.rev (escape_pipes (trim t))) as [|c r],
             (List.rev (trim t)) as [|d r']; try contradiction; [exact I|].
    now subst c.
Qed.

Lemma row_line_parts texts :
  row_line texts = pipe :: space :: (join (lit " | ") texts ++ [space]) ++ [pipe].
Proof. unfold row_line. cbn. now rewrite <- app_assoc. Qed.

Lemma strip_row inner :
  strip_outer_pipes (pipe :: inner ++ [pipe]) = inner.
Proof.
  unfold strip_outer_pipes. change ((pipe =? pipe)%N) with true. cbv iota.
  rewrite rev_app_distr. cbn [List.rev app].
  change ((pipe =? pipe)%N) with true. cbv iota. apply rev_involutive.
Qed.

Lemma row_tail inner :
  match List.rev (pipe :: inner ++ [pipe]) with
  | c :: _ => is_white_space c = false
  | [] => True
  end.
Proof.
  change (pipe :: inner ++ [pipe]) with ((pipe :: inner) ++ [pipe]).
  rewrite rev_unit. reflexivity.
Qed.

(** X19. A row of a table written by [convertTableToMarkdown] is read
    back by [parseTableRow] as the trimmed texts of its cells: the pipes
    of a text, which are escaped, do not split the row, and the escapes
    are removed. A data row is read back with as many cells as the
    header, padded with empty texts or cut. *)
Theorem table_row_round_trip :
  forall (cells : list jsstring),
    cells <> [] ->
    parseTableRow (row_line (map cell_text cells)) = map trim cells /\
    (forall row : list jsstring,
       parseTableRow (data_line (List.length cells) row)
       = firstn (List.length cells)
                (map trim row ++ repeat [] (List.length cells - List.length row))).
Proof.
  assert (Hrow : forall cells, cells <> [] ->
            parseTableRow (row_line (map cell_text cells)) = map trim cells).
  { intros cells Hne. destruct cells as [|t texts]; [congruence|].
    unfold parseTableRow. rewrite row_line_parts.
    set (inner := space :: (join (lit " | ") (map cell_text (t :: texts))
                            ++ [space])).
    change (pipe :: space
            :: (join (lit " | ") (map cell_text (t :: texts)) ++ [space])
               ++ [pipe])
      with (pipe :: inner ++ [pipe]).
    cbn [truthy negb].
    rewrite GenerationFacts.trim_tight; [|reflexivity | apply row_tail].
    rewrite strip_row. unfold inner. cbn [truthy negb].
    cbn [split_pipes]. change ((space =? pipe)%N) with false. cbn [andb].
    change ((space =? backslash)%N) with false.
    replace (map cell_text (t :: texts))
      with (map escape_pipes (trim t :: map trim texts))
      by (cbn [map]; now rewrite map_map).
    rewrite (split_pipes_row (map trim texts) [space] (trim t)).
    cbn [map List.rev app].
    rewrite !map_map. f_equal.
    - rewrite trim_leading_white_space by reflexivity.
      rewrite SidebarFacts.trim_app_white_space by reflexivity.
      fold (cell_text t). rewrite trim_cell_text. apply unescape_escape.
    - apply map_ext. intros x.
      rewrite trim_leading_white_space by reflexivity.
      rewrite SidebarFacts.trim_app_white_space by reflexivity.
      fold (cell_text x). rewrite trim_cell_text. apply unescape_escape. }
  intros cells Hne. split; [now apply Hrow|].
  intros row. unfold data_line, pad. set (n := List.length cells).
  rewrite length_map.
  replace (map cell_text row ++ repeat [] (n - List.length row))
    with (map cell_text (row ++ repeat [] (n - List.length row))).
  - rewrite firstn_map, Hrow.
    + rewrite <- firstn_map, map_app. f_equal. f_equal.
      clear. induction (n - List.length row) as [|k IH]; [reflexivity|].
      simpl. now rewrite IH.
    + assert (Hn : 0 < n) by (unfold n; destruct cells; [congruence | simpl; lia]).
      intros H. apply (f_equal (@List.length _)) in H.
      rewrite length_firstn, length_app, repeat_length in H. simpl in H. lia.
  - rewrite map_app. f_equal.
    clear. induction (n - List.length row) as [|k IH]; [reflexivity|].
    simpl. now rewrite IH.
Qed.

Lemma table_row_round_trip_witness :
  parseTableRow (row_line (map cell_text [lit " a|b "; lit "c"]))
  = [lit "a|b"; lit "c"] /\
  parseTableRow (data_line 2 [lit "x"]) = [lit "x"; []].
Proof.
  destruct (@table_row_round_trip [lit " a|b "; lit "c"]) as [H1 H2];
    [discriminate|].
  split; [exact H1 | exact (H2 [lit "x"])].
Defined.

End TableFacts.

(* ================================================================== *)
(** * Properties: the count of a continued run                         *)
(* ================================================================== *)

Module ContinueFacts.

Import Article StreamFacts ChapterFacts ChapterErrorFacts RunFacts.

Section Invariant.

Variable Inv : page -> Prop.
Variable handle : jsstring -> page -> page * completion.
Hypothesis handle_inv : forall line p, Inv p -> Inv (fst (handle line p)).



End Invariant.








End ContinueFacts.

(* ================================================================== *)
(** * send_topic.js: the toggle buttons after a change of the outline  *)
(* ================================================================== *)

Module Refresh.

Import Toggle.

(** The block as [hasChildrenFromBlocks] reads it: by its level. *)
Definition as_block (b : item) : SendTopic.block :=
  {| SendTopic.level := level b; SendTopic.textContent := [] |}.

(** What [refreshOutlineNumbering] does to the toggle button of each
    block: the button is given the index of the block, and the class
    [no-children] when [hasChildrenFromBlocks] answers no. The numbers
    shown with the blocks are not part of this model. *)
Fixpoint refresh_from (outlineBlocks : list SendTopic.block) (index : nat)
    (blocks : list item) : list item :=
  match blocks with
  | [] => []
  | block :: rest =>
      let hasChildren :=
        SendTopic.hasChildrenFromBlocks outlineBlocks index (level block) in
      {| level := level block; hidden := hidden block;
         toggle_collapsed := toggle_collapsed block;
         no_children := negb hasChildren; data_index := index |}
      :: refresh_from outlineBlocks (S index) rest
  end.

Definition refreshOutlineNumbering (blocks : list item) : list item :=
  refresh_from (map as_block blocks) 0 blocks.

End Refresh.

Module RefreshFacts.

Import Toggle ToggleFacts Refresh.

Lemma nth_error_refresh_from all blocks : forall index k,
  nth_error (refresh_from all index blocks) k
  = option_map
      (fun block =>
         {| level := level block; hidden := hidden block;
            toggle_collapsed := toggle_collapsed block;
            no_children :=
              negb (SendTopic.hasChildrenFromBlocks all (index + k) (level block));
            data_index := index + k |})
      (nth_error blocks k).
Proof.
  induction blocks as [|b blocks IH]; intros index k; [now destruct k|].
  destruct k as [|k]; simpl.
  - now rewrite Nat.add_0_r.
  - rewrite IH. now rewrite Nat.add_succ_r.
Qed.

Lemma scan_blocks_head bs lvl :
  SendTopic.scan_blocks bs lvl
  = match bs with
    | b :: _ => lvl <? SendTopic.level b
    | [] => false
    end.
Proof.
  destruct bs as [|b bs]; [reflexivity|]. simpl.
  destruct (Nat.ltb_spec lvl (SendTopic.level b)); [reflexivity|].
  now replace (SendTopic.level b <=? lvl) with true
    by (symmetry; apply Nat.leb_le; lia).
Qed.

Lemma below_head lvl blocks :
  below lvl blocks <> [] <->
  match blocks with
  | b :: _ => (lvl <? level b) = true
  | [] => False
  end.
Proof.
  destruct blocks as [|b blocks]; simpl; [tauto|].
  destruct (lvl <? level b); split; congruence.
Qed.

Lemma skipn_head {A} (l : list A) n :
  match skipn n l with
  | x :: _ => nth_error l n = Some x
  | [] => nth_error l n = None
  end.
Proof.
  revert l. induction n as [|n IH]; intros [|x l]; simpl; try reflexivity.
  apply IH.
Qed.

(** X21. After [refreshOutlineNumbering] a toggle button is active
    exactly on the items that have something to hide. Each button
    carries the index of its block; it lacks the class [no-children] if
    and only if the block is followed by a block of greater level, which
    is when [hideChildren] hides at least one block; and a click on a
    button with the class changes nothing. *)
Theorem toggles_follow_children :
  forall (blocks : list item) (k : nat) (this : item),
    nth_error (refreshOutlineNumbering blocks) k = Some this ->
    data_index this = k /\
    (no_children this = false <->
     descendants (refreshOutlineNumbering blocks) k <> []) /\
    (no_children this = true ->
     toggle_click k (refreshOutlineNumbering blocks)
     = Some (refreshOutlineNumbering blocks)).
Proof.
  intros blocks k this Hk.
  pose proof Hk as Hk'. unfold refreshOutlineNumbering in Hk'.
  rewrite nth_error_refresh_from in Hk'. cbn [Nat.add] in Hk'.
  destruct (nth_error blocks k) as [b|] eqn:Eb; [|discriminate].
  cbn [option_map] in Hk'. injection Hk' as Hthis.
  split; [now subst this|]. split.
  - unfold descendants. rewrite Hk, below_head.
    assert (Hn : no_children this
                 = negb (SendTopic.scan_blocks
                           (skipn (S k) (map as_block blocks)) (level b)))
      by now subst this.
    assert (Hl : level this = level b) by now subst this.
    rewrite Hn, Hl, scan_blocks_head.
    pose proof (skipn_head (map as_block blocks) (S k)) as H1.
    pose proof (skipn_head (refreshOutlineNumbering blocks) (S k)) as H2.
    unfold refreshOutlineNumbering in H2 at 2 3.
    rewrite nth_error_refresh_from in H2. rewrite nth_error_map in H1.
    destruct (nth_error blocks (S k)) as [next|]; cbn [option_map] in H1, H2.
    + destruct (skipn (S k) (map as_block blocks)) as [|x xs];
        [discriminate|]. injection H1 as <-.
      destruct (skipn (S k) (refreshOutlineNumbering blocks)) as [|y ys];
        [discriminate|]. injection H2 as <-.
      cbn [level SendTopic.level as_block].
      destruct (level b <? level next); simpl; split; congruence.
    + destruct (skipn (S k) (map as_block blocks)) as [|x xs];
        [|discriminate].
      destruct (skipn (S k) (refreshOutlineNumbering blocks)) as [|y ys];
        [|discriminate].
      simpl. split; [discriminate | tauto].
  - intros Hn. unfold toggle_click. now rewrite Hk, Hn.
Qed.

Lemma toggles_follow_children_witness :
  let block l := {| level := l; hidden := false; toggle_collapsed := false;
                    no_children := false; data_index := 7 |} in
  map no_children (refreshOutlineNumbering [block 1; block 2; block 1])
  = [false; true; true] /\
  toggle_click 1 (refreshOutlineNumbering [block 1; block 2; block 1])
  = Some (refreshOutlineNumbering [block 1; block 2; block 1]).
Proof.
  intros block. split; [reflexivity|].
  apply (proj2 (proj2 (@toggles_follow_children [block 1; block 2; block 1] 1
                         _ eq_refl))).
  reflexivity.
Defined.

End RefreshFacts.

(* ================================================================== *)
(** * history_outline.js: loading a record                             *)
(* ================================================================== *)

Module HistoryLoad.

Import HistoryOutline.

(** The member [article] of a record: absent, an array of texts, a
    text, or another value. *)
Inductive article_value : Type :=
| NoArticle
| ArticleArray (parts : list jsstring)
| ArticleString (text : jsstring)
| ArticleOther.

(** A record of the session, reduced to the members that decide what is
    displayed. *)
Record history_record : Type := {
  outline : option jsstring;
  article : article_value
}.

(** The reply to [GET /api/session/records/<pos>]. *)
Record record_reply : Type := {
  record_status : option jsstring;
  record : option history_record
}.

(** [loadCurrentPos] *)
Definition loadCurrentPos (r : fetch_result reply) (this : manager) : manager :=
  match r with
  | Response true (JsonObject data) =>
      if is_success data
      then {| currentPos := current_pos data; selectedPos := selectedPos this |}
      else this
  | _ => this
  end.

(** The text handed to [displayArticleContent]. *)
Definition articleContent (a : article_value) : jsstring :=
  match a with
  | ArticleArray parts => Tables.join [newline; newline] parts
  | ArticleString text => text
  | NoArticle | ArticleOther => []
  end.

(** Truthiness of the member [article]. *)
Definition has_article (a : article_value) : bool :=
  match a with
  | NoArticle => false
  | ArticleString text => truthy text
  | ArticleArray _ | ArticleOther => true
  end.

(** What [loadSelectedOutline] leaves, on a page that shows the history
    dialog with its load button: the manager, the position variables of
    [window], the outline handed to [displayOutlineInSidebar], the text
    handed to [displayArticleContent], and whether the success
    notification was shown. *)
Record loaded : Type := {
  this_after : manager;
  window_after : SendTopic.window;
  sidebar_outline : option jsstring;
  article_shown : option jsstring;
  succeeded : bool
}.

Definition loadSelectedOutline (record_response : fetch_result record_reply)
    (set_response pos_response : fetch_result reply)
    (this : manager) (w : SendTopic.window) : loaded :=
  let failed :=
    {| this_after := this; window_after := w; sidebar_outline := None;
       article_shown := None; succeeded := false |} in
  match selectedPos this with
  | Undefined => failed
  | Int _ =>
      match record_response with
      | Response true (JsonObject data) =>
          let success :=
            match record_status data with
            | Some s => str_eqb s (lit "success")
            | None => false
            end in
          match (if success then record data else None) with
          | Some rec =>
              let shown :=
                match outline rec with
                | Some o => if truthy o then Some o else None
                | None => None
                end in
              let '(this1, w1) :=
                match shown with
                | Some _ =>
                    let '(setSuccess, this') :=
                      setCurrentPos (selectedPos this) set_response this in
                    if setSuccess then
                      (loadCurrentPos pos_response
                         {| currentPos := selectedPos this';
                            selectedPos := selectedPos this' |},
                       {| SendTopic.currentPos := selectedPos this';
                          SendTopic.sessionUuid := SendTopic.sessionUuid w |})
                    else (this', w)
                | None => (this, w)
                end in
              let text := articleContent (article rec) in
              {| this_after := this1; window_after := w1;
                 sidebar_outline := shown;
                 article_shown :=
                   if has_article (article rec) && truthy (trim text)
                   then Some text else None;
                 succeeded := true |}
          | None => failed
          end
      | _ => failed
      end
  end.

End HistoryLoad.

Module HistoryLoadFacts.

Import HistoryOutline HistoryLoad.

(** The server has confirmed the new position. *)
Definition confirmed (r : fetch_result reply) : Prop :=
  exists data, r = Response true (JsonObject data) /\ is_success data = true.

Lemma setCurrentPos_cases pos r this :
  (confirmed r /\
   setCurrentPos pos r this
   = (true, {| currentPos := pos; selectedPos := selectedPos this |})) \/
  (~ confirmed r /\ setCurrentPos pos r this = (false, this)).
Proof.
  unfold setCurrentPos.
  destruct r as [|[|] [| |data]];
    try (right; split; [intros (d & H & _); discriminate H | reflexivity]).
  destruct (is_success data) eqn:E.
  - left. split; [now exists data | reflexivity].
  - right. split; [|reflexivity].
    intros (d & H & Hd). injection H as <-. congruence.
Qed.

Lemma selectedPos_loadCurrentPos r this :
  selectedPos (loadCurrentPos r this) = selectedPos this.
Proof.
  unfold loadCurrentPos. destruct r as [|[|] [| |data]]; try reflexivity.
  now destruct (is_success data).
Qed.

(** X22. Loading a history record moves the position only when the
    server confirms it. [loadSelectedOutline] never changes the selected
    position or the session id of [window]. When the record has an
    outline and the server confirms the new position, [window.currentPos]
    becomes the selected position. In every other case [window] and the
    current position of the manager are as before, also when the outline
    of the record has already been put in the side bar; what is put in
    the side bar does not depend on the confirmation. *)
Theorem history_load_moves_position_on_confirmation :
  forall (record_response : fetch_result record_reply)
         (set_response pos_response : fetch_result reply)
         (this : manager) (w : SendTopic.window),
    let o := loadSelectedOutline record_response set_response pos_response
               this w in
    selectedPos (this_after o) = selectedPos this /\
    SendTopic.sessionUuid (window_after o) = SendTopic.sessionUuid w /\
    (confirmed set_response -> sidebar_outline o <> None ->
     SendTopic.currentPos (window_after o) = selectedPos this) /\
    (~ confirmed set_response \/ sidebar_outline o = None ->
     window_after o = w /\ currentPos (this_after o) = currentPos this) /\
    (forall set_response' pos_response',
       sidebar_outline
         (loadSelectedOutline record_response set_response' pos_response' this w)
       = sidebar_outline o).
Proof.
  intros record_response set_response pos_response this w o.
  assert (Hshown : forall set_response' pos_response',
            sidebar_outline
              (loadSelectedOutline record_response set_response' pos_response'
                 this w)
            = sidebar_outline o).
  { intros s' p'. unfold o, loadSelectedOutline.
    destruct (selectedPos this); [reflexivity|].
    destruct record_response as [|[|] [| |data]]; try reflexivity.
    destruct (if match record_status data with
                 | Some s => str_eqb s (lit "success")
                 | None => false
                 end then record data else None) as [rec|]; [|reflexivity].
    destruct (outline rec) as [x|]; [|reflexivity].
    destruct (truthy x); [|reflexivity].
    destruct (setCurrentPos_cases (Int z) s' this) as [[_ ->]|[_ ->]];
      destruct (setCurrentPos_cases (Int z) set_response this)
        as [[_ ->]|[_ ->]]; reflexivity. }
  cut (selectedPos (this_after o) = selectedPos this /\
       SendTopic.sessionUuid (window_after o) = SendTopic.sessionUuid w /\
       (confirmed set_response -> sidebar_outline o <> None ->
        SendTopic.currentPos (window_after o) = selectedPos this) /\
       (~ confirmed set_response \/ sidebar_outline o = None ->
        window_after o = w /\ currentPos (this_after o) = currentPos this)).
  { intros (H1 & H2 & H3 & H4). repeat split; auto; now apply H4. }
  clear Hshown. unfold o, loadSelectedOutline.
  assert (Hfailed : forall (sp : jsval) (shown : option jsstring),
            sp = sp /\
            SendTopic.sessionUuid w = SendTopic.sessionUuid w /\
            (confirmed set_response -> @None jsstring <> None ->
             SendTopic.currentPos w = sp) /\
            (~ confirmed set_response \/ shown = None ->
             w = w /\ currentPos this = currentPos this)).
  { intros sp shown. repeat split. intros _ H. now elim H. }
  destruct (selectedPos this) as [|z] eqn:Es.
  { rewrite <- Es. exact (Hfailed (selectedPos this) None). }
  rewrite <- Es.
  destruct record_response as [|[|] [| |data]];
    try exact (Hfailed (selectedPos this) None).
  destruct (if match record_status data with
               | Some s => str_eqb s (lit "success")
               | None => false
               end then record data else None) as [rec|];
    [|exact (Hfailed (selectedPos this) None)].
  destruct (outline rec) as [x|]; [|exact (Hfailed (selectedPos this) None)].
  destruct (truthy x); [|exact (Hfailed (selectedPos this) None)].
  destruct (setCurrentPos_cases (selectedPos this) set_response this)
    as [[Hconf ->]|[Hno ->]].
  - cbn [this_after window_after sidebar_outline selectedPos
         SendTopic.currentPos SendTopic.sessionUuid].
    rewrite selectedPos_loadCurrentPos. cbn [selectedPos].
    split; [reflexivity|]. split; [reflexivity|]. split; [reflexivity|].
    intros [H|H]; [contradiction | discriminate].
  - cbn [this_after window_after sidebar_outline selectedPos
         SendTopic.currentPos SendTopic.sessionUuid].
    split; [reflexivity|]. split; [reflexivity|].
    split; [intros H; contradiction|]. intros _. split; reflexivity.
Qed.

Lemma history_load_moves_position_on_confirmation_witness :
  let this := {| currentPos := Int 1; selectedPos := Int 4 |} in
  let w := {| SendTopic.currentPos := Int 1; SendTopic.sessionUuid := None |} in
  let reply_ok :=
    Response true
      (JsonObject {| record_status := Some (lit "success");
                     record := Some {| outline := Some (lit "# One");
                                       article := NoArticle |} |}) in
  let o := loadSelectedOutline reply_ok Rejected Rejected this w in
  sidebar_outline o = Some (lit "# One") /\
  window_after o = w /\ currentPos (this_after o) = Int 1.
Proof.
  intros this w reply_ok o. split; [reflexivity|].
  apply (proj1 (proj2 (proj2 (proj2
           (@history_load_moves_position_on_confirmation
              reply_ok Rejected Rejected this w))))).
  left. intros (d & H & _). discriminate H.
Defined.

End HistoryLoadFacts.

(* ================================================================== *)
(** * send_topic.js: displaying an outline and saving it               *)
(* ================================================================== *)

Module Display.

Import SendTopic Generation.

Definition set_skip (skip : bool) (ed : editor) : editor :=
  {| sidebarNav := sidebarNav ed;
     outlineDataInput := outlineDataInput ed;
     window_updateOutlineData := window_updateOutlineData ed;
     window_skipSaveOutlineToHistory := skip |}.

Section Display.

Variable markup_text : jsstring -> jsstring.

(** [displayOutlineInSidebar] as a procedure, with the outlines it posts
    to [/api/session/outline]. The old blocks are removed first; a text
    without heading line is shown as it is and the procedure returns;
    otherwise the blocks are built, the hidden input is written, the
    outline is saved unless the flag forbids it, and the flag is
    cleared. [None] stands for the [TypeError] of a page without
    [.sidebar-nav]. *)
Definition displayOutline (outlineContent : jsstring) (ed : editor)
  : option (editor * list jsstring) :=
  match sidebarNav ed with
  | None => None
  | Some _ =>
      match outline_lines outlineContent with
      | [] => Some (HistoryEditing.set_blocks [] ed, [])
      | _ :: _ =>
          let ed1 :=
            HistoryEditing.set_blocks
              (displayOutlineInSidebar markup_text outlineContent) ed in
          let '(ed2, posts1) := updateOutlineData ed1 in
          let posts2 :=
            if window_skipSaveOutlineToHistory ed2 then []
            else saveOutlineToHistory outlineContent in
          Some (set_skip false ed2, posts1 ++ posts2)
      end
  end.

(** The outline received for a new topic is displayed with the flag
    set: [sendTopicToBackend] and the preset demonstrations. *)
Definition display_new_topic (data : jsstring) (ed : editor)
  : option (editor * list jsstring) :=
  displayOutline data (set_skip true ed).

End Display.

End Display.

Module DisplayFacts.

Import SendTopic Generation Display.

(** X23. The flag that suppresses the save of a new outline. The
    outline received for a new topic is displayed without being posted.
    When it has a heading line the flag is cleared at the end, and every
    later call of [updateOutlineData] on a list of blocks that is not
    empty posts the outline. When it has none, the procedure returns
    before the flag is cleared: then no later call of [updateOutlineData]
    posts anything, whatever the blocks, and the hidden input keeps the
    value it had. *)
Theorem new_outline_is_not_posted :
  forall (markup_text : jsstring -> jsstring) (data : jsstring) (ed : editor),
    sidebarNav ed <> None ->
    exists ed',
      display_new_topic markup_text data ed = Some (ed', []) /\
      (outline_lines data <> [] ->
       window_skipSaveOutlineToHistory ed' = false /\
       forall blocks,
         blocks <> [] ->
         snd (updateOutlineData (HistoryEditing.set_blocks blocks ed'))
         = [SendTopic.updateOutlineData blocks]) /\
      (outline_lines data = [] ->
       window_skipSaveOutlineToHistory ed' = true /\
       outlineDataInput ed' = outlineDataInput ed /\
       forall blocks,
         snd (updateOutlineData (HistoryEditing.set_blocks blocks ed')) = []).
Proof.
  intros markup_text data ed Hs.
  unfold display_new_topic, displayOutline. cbn [sidebarNav set_skip].
  destruct (sidebarNav ed) as [old|] eqn:Es; [clear Hs | congruence].
  destruct (outline_lines data) as [|l ls] eqn:El.
  - eexists. split; [reflexivity|]. split; [congruence|]. intros _.
    repeat split.
  - unfold updateOutlineData at 1.
    cbn [window_skipSaveOutlineToHistory HistoryEditing.set_blocks set_skip].
    eexists. split; [reflexivity|]. split; [|congruence]. intros _.
    split; [reflexivity|]. intros blocks Hne.
    unfold updateOutlineData, outline_blocks.
    cbn [snd window_skipSaveOutlineToHistory HistoryEditing.set_blocks set_skip
         sidebarNav].
    destruct blocks as [|b blocks']; [congruence|].
    destruct (GenerationFacts.updateOutlineData_head b blocks') as [s Hhead].
    unfold saveOutlineToHistory. rewrite Hhead.
    destruct (@GenerationFacts.trim_keeps_head hash s eq_refl) as [s' ->].
    reflexivity.
Qed.

Lemma new_outline_is_not_posted_witness :
  let ed := {| sidebarNav := Some []; outlineDataInput := Some (lit "# Old");
               window_updateOutlineData := true;
               window_skipSaveOutlineToHistory := false |} in
  exists ed',
    display_new_topic (fun s => s) (lit "no heading here") ed = Some (ed', []) /\
    outlineDataInput ed' = Some (lit "# Old") /\
    snd (updateOutlineData
           (HistoryEditing.set_blocks
              [{| level := 1; textContent := lit "One" |}] ed')) = [].
Proof.
  intros ed.
  destruct (@new_outline_is_not_posted (fun s => s) (lit "no heading here") ed)
    as (ed' & H1 & _ & H2).
  - discriminate.
  - exists ed'. split; [exact H1|].
    destruct (H2 eq_refl) as (_ & H3 & H4). split; [exact H3 | apply H4].
Defined.

End DisplayFacts.

(* ================================================================== *)
(** * history_outline.js: the outline of a record in the side bar      *)
(* ================================================================== *)

Module HistoryDisplay.

Import SendTopic Generation.

Section HistoryDisplay.

Variable markup_text : jsstring -> jsstring.

(** [displayOutlineInSidebar] of the history manager as a procedure.
    Without [.sidebar-nav] it returns; a text without heading line is
    shown as it is; otherwise the blocks are built. The hidden input is
    not written and nothing is posted. *)
Definition displayOutlineInSidebar (outlineContent : jsstring) (ed : editor)
  : editor :=
  match sidebarNav ed with
  | None => ed
  | Some _ =>
      match outline_lines outlineContent with
      | [] => HistoryEditing.set_blocks [] ed
      | _ :: _ =>
          HistoryEditing.set_blocks
            (SendTopic.displayOutlineInSidebar markup_text outlineContent) ed
      end
  end.

End HistoryDisplay.

End HistoryDisplay.

Module HistoryDisplayFacts.

Import SendTopic Article Generation RunFacts.

(** X24. The outline of a history record is shown but not adopted. The
    history manager's [displayOutlineInSidebar] leaves the hidden input
    as it is, so that, when the input held an outline,
    [getCurrentOutlineText] returns that outline and not the one shown.
    [continueGenerationFromChapter], which reads the outline through
    [getCurrentOutlineText], therefore measures the start index against
    the old outline: from a start index that is not below the number of
    its heading lines it posts no request, however many heading lines
    the outline shown has. *)
Theorem history_outline_is_not_adopted :
  forall (markup_text : jsstring -> jsstring)
         (JSON_parse : jsstring -> json_body chapterData)
         (outlineContent old : jsstring) (ed : editor)
         (start : Z) (response : stream_response) (p : page),
    outlineDataInput ed = Some old -> old <> [] ->
    let ed' := HistoryDisplay.displayOutlineInSidebar markup_text
                 outlineContent ed in
    getCurrentOutlineText ed' = old /\
    (currentOutlineText p = getCurrentOutlineText ed' ->
     (Z.of_nat (chapters_length old) <= start)%Z ->
     posted (continueGenerationFromChapter JSON_parse start response p)
     = posted p).
Proof.
  intros markup_text JSON_parse outlineContent old ed start response p Hi Hold ed'.
  assert (Hin : outlineDataInput ed' = Some old).
  { unfold ed', HistoryDisplay.displayOutlineInSidebar.
    destruct (sidebarNav ed); [|exact Hi].
    now destruct (outline_lines outlineContent). }
  assert (Htext : getCurrentOutlineText ed' = old).
  { unfold getCurrentOutlineText. rewrite Hin.
    destruct old; [congruence | reflexivity]. }
  split; [exact Htext|]. intros Hp Hle.
  unfold continueGenerationFromChapter. cbv zeta.
  rewrite Hp, Htext.
  replace (_ <=? 0)%Z with true by (symmetry; apply Z.leb_le; lia).
  destruct (window_displayArticleComplete _);
    rewrite ?posted_displayArticleComplete, posted_emit; apply app_nil_r.
Qed.

Lemma history_outline_is_not_adopted_witness :
  let ed := {| sidebarNav := Some []; outlineDataInput := Some (lit "# Old");
               window_updateOutlineData := false;
               window_skipSaveOutlineToHistory := false |} in
  let shown := lit "# One" ++ [newline] ++ lit "# Two" ++ [newline] ++ lit "# Three" in
  let ed' := HistoryDisplay.displayOutlineInSidebar (fun s => s) shown ed in
  List.length (outline_blocks ed') = 3 /\
  getCurrentOutlineText ed' = lit "# Old" /\
  posted (continueGenerationFromChapter ChapterErrorFacts.sample_parse 1
            FetchRejected
            {| container := Some [];
               window_totalChapters := None;
               window_completedChaptersCount := None;
               totalChapters := 0; completedChaptersCount := 0;
               window_outlineData := NamedElement; outlineData := [];
               currentOutlineText := lit "# Old";
               window_displayArticleComplete := true;
               window_handleStreamLine := true;
               window_cleanupLoadingStates := true;
               log := [] |}) = [].
Proof.
  intros ed shown ed'. split; [reflexivity|].
  destruct (@history_outline_is_not_adopted (fun s => s)
              ChapterErrorFacts.sample_parse shown (lit "# Old") ed 1
              FetchRejected
              {| container := Some [];
                 window_totalChapters := None;
                 window_completedChaptersCount := None;
                 totalChapters := 0; completedChaptersCount := 0;
                 window_outlineData := NamedElement; outlineData := [];
                 currentOutlineText := lit "# Old";
                 window_displayArticleComplete := true;
                 window_handleStreamLine := true;
                 window_cleanupLoadingStates := true;
                 log := [] |} eq_refl)
    as [H1 H2]; [discriminate|].
  split; [exact H1|]. apply H2; [reflexivity | simpl; lia].
Defined.

End HistoryDisplayFacts.
